(** * Go-Back-N sender and receiver with Selective Repeat and SACK

    A shallow embedding of [sender_alkinoos.py] and [receiver_alkinoos.py]:
    the GBN header, the sender automaton (states SEND, ACK_IN, RETRANSMIT)
    and the receiver automaton (state DATA_IN), followed by the properties
    of the transport specification that concern them.

    Python integers are [Z]; payloads ([bytes]) are lists of bytes; the
    sender's [dict] buffer is an association list in insertion order; the
    receiver's two parallel lists are two lists.  A handler that raises
    leaves the object as mutated so far, so a handler run yields an outcome
    together with the state and the segments handed to [send]. *)

From Stdlib Require Import ZArith List Bool Lia Permutation Sorted.
From Stdlib.Strings Require Import Byte.
Import ListNotations.
Local Open Scope Z_scope.

(** ** Python helpers *)

Definition payload := list byte.

Fixpoint payload_eqb (p q : payload) : bool :=
  match p, q with
  | [], [] => true
  | a :: p', b :: q' => Byte.eqb a b && payload_eqb p' q'
  | _, _ => false
  end.

(** [range(a, b)] *)
Definition py_range (a b : Z) : list Z :=
  map (fun i => a + Z.of_nat i) (seq 0 (Z.to_nat (b - a))).

(** [x in l] on a list of integers *)
Fixpoint mem (x : Z) (l : list Z) : bool :=
  match l with
  | [] => false
  | y :: l' => (x =? y) || mem x l'
  end.

(** [l.remove(x)] when [x] is known to occur: drops the first element
    equal to [x]. *)
Fixpoint remove_first {A : Type} (eqb : A -> A -> bool) (x : A) (l : list A)
  : list A :=
  match l with
  | [] => []
  | y :: l' => if eqb x y then l' else y :: remove_first eqb x l'
  end.

(** [l.index(x)]: position of the first occurrence, [None] for the
    [ValueError]. *)
Fixpoint index_of (x : Z) (l : list Z) : option nat :=
  match l with
  | [] => None
  | y :: l' => if x =? y then Some O
               else match index_of x l' with
                    | Some i => Some (S i)
                    | None => None
                    end
  end.

(** [sorted(l)] on integers. *)
Fixpoint insert_sorted (x : Z) (l : list Z) : list Z :=
  match l with
  | [] => [x]
  | y :: l' => if x <=? y then x :: l else y :: insert_sorted x l'
  end.

Definition sorted (l : list Z) : list Z := fold_right insert_sorted [] l.

(** A [dict] from sequence numbers to payloads, in insertion order. *)
Module Dict.

Definition t := list (Z * payload).

Definition keys (d : t) : list Z := map fst d.

Fixpoint get (k : Z) (d : t) : option payload :=
  match d with
  | [] => None
  | (k', v) :: d' => if k =? k' then Some v else get k d'
  end.

(** [d[k] = v]: an existing key keeps its place, a new one goes last. *)
Fixpoint set (k : Z) (v : payload) (d : t) : t :=
  match d with
  | [] => [(k, v)]
  | (k', v') :: d' => if k =? k' then (k, v) :: d' else (k', v') :: set k v d'
  end.

(** [d.pop(k, None)] *)
Definition pop (k : Z) (d : t) : t :=
  filter (fun kv => negb (fst kv =? k)) d.

End Dict.

(** Exceptions a handler can raise, and the outcome of running it. *)
Inductive exn := KeyError | ValueError | IndexError.

Inductive outcome (A : Type) :=
| Ret (a : A)
| Raise (e : exn).
Arguments Ret {A} a.
Arguments Raise {A} e.

(** ** The GBN header *)
Module GBN.

Record t := mk {
  type : Z;      (* 0 data, 1 ack *)
  options : Z;
  len : Z;
  hlen : Z;
  num : Z;
  win : Z;
  blen : Z;
  left_1 : Z; length_1 : Z;
  padd_2 : Z; left_2 : Z; length_2 : Z;
  padd_3 : Z; left_3 : Z; length_3 : Z
}.

(** [GBN(type="data", options=o, len=l, hlen=6, num=n, win=w)]; the
    conditional fields are absent for [hlen = 6] and read as 0 here. *)
Definition data (o l n w : Z) : t := mk 0 o l 6 n w 0 0 0 0 0 0 0 0 0.

(** [GBN(type="ack", options=0, len=0, hlen=6, num=n, win=w)] *)
Definition ack (n w : Z) : t := mk 1 0 0 6 n w 0 0 0 0 0 0 0 0 0.

(** The SACK segment of the receiver. *)
Definition sack (hl n w bl l1 n1 l2 n2 l3 n3 : Z) : t :=
  mk 1 1 0 hl n w bl l1 n1 0 l2 n2 0 l3 n3.

End GBN.

(** What [send(IP(...)/header/payload)] puts on the wire. *)
Definition segment := (GBN.t * payload)%type.

Definition plen (p : payload) : Z := Z.of_nat (length p).

(** ** The sender automaton ([GBNSender]) *)
Module Sender.

Record t := mk {
  win : Z;
  n_bits : Z;
  q : list payload;
  buffer : Dict.t;
  current : Z;
  unack : Z;
  receiver_win : Z;
  Q_4_2 : Z;
  SACK : Z;
  Q_4_4 : Z;
  count_acks : Z * Z   (* [repeated acks, ack number] *)
}.

(** [parse_args]: the object as the constructor leaves it. *)
Definition parse_args (n_bits : Z) (payloads : list payload)
  (win Q_4_2 Q_4_3 Q_4_4 : Z) : t :=
  mk win n_bits payloads [] 0 0 win Q_4_2 Q_4_3 Q_4_4 (0, -1).

(** Arguments that pass: a number of bits of at most 8 (main program),
    a window below [2**n_bits] and not both Selective Repeat and SACK
    ([parse_args]). *)
Definition valid_args (n_bits win Q_4_2 Q_4_3 : Z) : Prop :=
  0 <= n_bits <= 8 /\ 0 <= win < 2 ^ n_bits /\ ~ (Q_4_2 <> 0 /\ Q_4_3 <> 0).

Definition set_q (x : list payload) (s : t) : t :=
  mk (win s) (n_bits s) x (buffer s) (current s) (unack s) (receiver_win s)
     (Q_4_2 s) (SACK s) (Q_4_4 s) (count_acks s).
Definition set_buffer (x : Dict.t) (s : t) : t :=
  mk (win s) (n_bits s) (q s) x (current s) (unack s) (receiver_win s)
     (Q_4_2 s) (SACK s) (Q_4_4 s) (count_acks s).
Definition set_current (x : Z) (s : t) : t :=
  mk (win s) (n_bits s) (q s) (buffer s) x (unack s) (receiver_win s)
     (Q_4_2 s) (SACK s) (Q_4_4 s) (count_acks s).
Definition set_unack (x : Z) (s : t) : t :=
  mk (win s) (n_bits s) (q s) (buffer s) (current s) x (receiver_win s)
     (Q_4_2 s) (SACK s) (Q_4_4 s) (count_acks s).
Definition set_receiver_win (x : Z) (s : t) : t :=
  mk (win s) (n_bits s) (q s) (buffer s) (current s) (unack s) x
     (Q_4_2 s) (SACK s) (Q_4_4 s) (count_acks s).
Definition set_SACK (x : Z) (s : t) : t :=
  mk (win s) (n_bits s) (q s) (buffer s) (current s) (unack s) (receiver_win s)
     (Q_4_2 s) x (Q_4_4 s) (count_acks s).
Definition set_count_acks (x : Z * Z) (s : t) : t :=
  mk (win s) (n_bits s) (q s) (buffer s) (current s) (unack s) (receiver_win s)
     (Q_4_2 s) (SACK s) (Q_4_4 s) x.

(** *** Handler monad: the object, the wire, and a possible exception *)

Definition M (A : Type) : Type :=
  t -> list segment -> outcome A * t * list segment.

Definition ret {A : Type} (a : A) : M A := fun s w => (Ret a, s, w).

Definition bind {A B : Type} (m : M A) (k : A -> M B) : M B :=
  fun s w =>
    match m s w with
    | (Ret a, s', w') => k a s' w'
    | (Raise e, s', w') => (Raise e, s', w')
    end.

Definition raise {A : Type} (e : exn) : M A := fun s w => (Raise e, s, w).
Definition self : M t := fun s w => (Ret s, s, w).
Definition update (f : t -> t) : M unit := fun s w => (Ret tt, f s, w).
Definition send (seg : segment) : M unit := fun s w => (Ret tt, s, w ++ [seg]).

Notation "x <- m ;; k" := (bind m (fun x => k))
  (at level 61, m at next level, right associativity).
Notation "m ;; k" := (bind m (fun _ => k))
  (at level 61, right associativity).

(** [for x in l: body(x)] *)
Fixpoint for_each {A : Type} (l : list A) (body : A -> M unit) : M unit :=
  match l with
  | [] => ret tt
  | x :: l' => body x ;; for_each l' body
  end.

(** [d[k]], raising [KeyError] *)
Definition getitem (d : Dict.t) (k : Z) : M payload :=
  match Dict.get k d with
  | Some p => ret p
  | None => raise KeyError
  end.

(** Where a state function hands control. *)
Inductive goto := ToSEND | ToEND | Stay.

(** *** State SEND *)
Definition SEND : M goto :=
  s <- self ;;
  if Z.of_nat (length (buffer s)) <? Z.min (win s) (receiver_win s) then
    match q s with
    | payload :: rest =>
        update (set_q rest) ;;
        update (set_buffer (Dict.set (current s) payload (buffer s))) ;;
        send (GBN.data (if SACK s =? 0 then 0 else 1) (plen payload)
                       (current s) (win s), payload) ;;
        update (set_current ((current s + 1) mod 2 ^ n_bits s)) ;;
        ret ToSEND
    | [] =>
        if unack s =? current s then ret ToEND else ret Stay
    end
  else ret Stay.

(** *** State ACK_IN *)

(** Selective repeat: count identical ACKs, resend [buffer[ack]] on the
    third. *)
Definition selective_repeat (ack : Z) : M unit :=
  s <- self ;;
  (if ack =? snd (count_acks s)
   then update (set_count_acks (fst (count_acks s) + 1, snd (count_acks s)))
   else update (set_count_acks (0, ack))) ;;
  s <- self ;;
  if fst (count_acks s) >=? 2 then
    p <- getitem (buffer s) ack ;;
    send (GBN.data 0 (plen p) ack (win s), p) ;;
    update (set_count_acks (0, -1))
  else ret tt.

(** The ranges appended to [rec_acks] for one SACK block. *)
Definition block_ranges (M_ left length : Z) : list (list Z) :=
  if left + length >=? M_ then
    [ py_range left M_ ;
      py_range 0 (length - Z.of_nat (List.length (py_range left M_))) ]
  else
    [ py_range left (left + length) ].

(** [rec_acks] for a packet with [blen] blocks. *)
Definition rec_acks (M_ : Z) (pkt : GBN.t) : list (list Z) :=
  if GBN.blen pkt =? 1 then
    block_ranges M_ (GBN.left_1 pkt) (GBN.length_1 pkt)
  else if GBN.blen pkt =? 2 then
    block_ranges M_ (GBN.left_1 pkt) (GBN.length_1 pkt)
    ++ block_ranges M_ (GBN.left_2 pkt) (GBN.length_2 pkt)
  else if GBN.blen pkt =? 3 then
    block_ranges M_ (GBN.left_1 pkt) (GBN.length_1 pkt)
    ++ block_ranges M_ (GBN.left_2 pkt) (GBN.length_2 pkt)
    ++ block_ranges M_ (GBN.left_3 pkt) (GBN.length_3 pkt)
  else [].

Definition flat_rec_acks (M_ : Z) (pkt : GBN.t) : list Z :=
  concat (rec_acks M_ pkt).

(** [l[-1]], raising [IndexError] *)
Definition last_item (l : list Z) : M Z :=
  match rev l with
  | x :: _ => ret x
  | [] => raise IndexError
  end.

(** [l.index(x)], raising [ValueError] *)
Definition index (l : list Z) (x : Z) : M nat :=
  match index_of x l with
  | Some i => ret i
  | None => raise ValueError
  end.

(** The body shared by the three [blen] cases: resend what lies before
    the last SACKed number in the buffer and is not SACKed. *)
Definition sack_retransmit (pkt : GBN.t) : M unit :=
  s <- self ;;
  let flat := flat_rec_acks (2 ^ n_bits s) pkt in
  let seq_numbers_send := Dict.keys (buffer s) in
  x <- last_item flat ;;
  final_index <- index seq_numbers_send x ;;
  let buffer_appl := firstn final_index seq_numbers_send in
  for_each buffer_appl (fun seqnum_appl =>
    if negb (mem seqnum_appl flat) then
      p <- getitem (buffer s) seqnum_appl ;;
      send (GBN.data 1 (plen p) seqnum_appl (win s), p)
    else ret tt).

Definition selective_ack (pkt : GBN.t) : M unit :=
  if (GBN.blen pkt =? 1) || (GBN.blen pkt =? 2) || (GBN.blen pkt =? 3)
  then sack_retransmit pkt
  else ret tt.

(** The key popped at step [i] of the removal loop:
    [ack-i] if [ack-i >= 0], else [ack - i%receiver_win + 2**n_bits - 1]. *)
Definition popped_key (M_ W ack i : Z) : Z :=
  if ack - i >=? 0 then ack - i else ack - i mod W + M_ - 1.

Definition remove_acked (ack : Z) : M unit :=
  s <- self ;;
  for_each (py_range 1 (receiver_win s + 1)) (fun i =>
    update (fun s' =>
      set_buffer
        (Dict.pop (popped_key (2 ^ n_bits s') (receiver_win s') ack i)
                  (buffer s')) s')).

Definition ACK_IN (pkt : GBN.t) : M goto :=
  if GBN.type pkt =? 0 then
    ret ToSEND
  else
    update (set_receiver_win (GBN.win pkt)) ;;
    let ack := GBN.num pkt in
    (if GBN.options pkt =? 0 then update (set_SACK 0)
     else if GBN.options pkt =? 1 then update (set_SACK 1)
     else ret tt) ;;
    s <- self ;;
    (if Q_4_2 s =? 1 then selective_repeat ack
     else if SACK s =? 1 then selective_ack pkt
     else ret tt) ;;
    update (set_unack ack) ;;
    remove_acked ack ;;
    ret ToSEND.

(** *** Timeout and state RETRANSMIT *)
Definition timeout_reached : M unit :=
  update (set_count_acks (0, -1)).

Definition RETRANSMIT : M goto :=
  s <- self ;;
  for_each (Dict.keys (buffer s)) (fun seqnum =>
    p <- getitem (buffer s) seqnum ;;
    send (GBN.data (if SACK s =? 0 then 0 else 1) (plen p) seqnum (win s), p)) ;;
  ret ToSEND.

(** Running a handler on an object with an empty wire. *)
Definition run {A : Type} (m : M A) (s : t) : outcome A * t * list segment :=
  m s [].
Definition state_after {A : Type} (m : M A) (s : t) : t := snd (fst (run m s)).
Definition sent_by {A : Type} (m : M A) (s : t) : list segment := snd (run m s).
Definition result_of {A : Type} (m : M A) (s : t) : outcome A := fst (fst (run m s)).

(** *** The automaton

    BEGIN raises SEND.  A state function that raises a new state is
    followed at once by that state; only when SEND returns does the
    automaton wait for a packet or for the timeout. *)
Inductive control := AtSEND | Waiting | Ended | Crashed.

Definition config := (control * t)%type.

Definition after_goto (o : outcome goto) : control :=
  match o with
  | Ret ToSEND => AtSEND
  | Ret ToEND => Ended
  | Ret Stay => Waiting
  | Raise _ => Crashed
  end.

Definition handle {A : Type} (m : M A) (f : outcome A -> control) (s : t)
  : config :=
  (f (result_of m s), state_after m s).

Inductive step : config -> config -> Prop :=
| step_SEND : forall s,
    step (AtSEND, s) (handle SEND after_goto s)
| step_packet_in : forall s pkt,
    step (Waiting, s) (handle (ACK_IN pkt) after_goto s)
| step_timeout : forall s,
    step (Waiting, s) (handle (timeout_reached ;; RETRANSMIT) after_goto s).

Inductive reachable (c0 : config) : config -> Prop :=
| reach_BEGIN : reachable c0 c0
| reach_step : forall c c', reachable c0 c -> step c c' -> reachable c0 c'.

(** What the environment can do to a waiting sender, and the run of the
    automaton on a list of such events: SEND is iterated until it
    returns or ends (it consumes one queued payload per round). *)
Inductive event := PacketIn (pkt : GBN.t) | TimeoutReached.

Fixpoint SEND_loop (fuel : nat) (c : config) : config :=
  match fuel, c with
  | S f, (AtSEND, s) => SEND_loop f (handle SEND after_goto s)
  | _, _ => c
  end.

Definition settle (c : config) : config :=
  SEND_loop (S (length (q (snd c)))) c.

Definition deliver (e : event) (c : config) : config :=
  match c with
  | (Waiting, s) =>
      match e with
      | PacketIn pkt => settle (handle (ACK_IN pkt) after_goto s)
      | TimeoutReached =>
          settle (handle (timeout_reached ;; RETRANSMIT) after_goto s)
      end
  | _ => c
  end.

Definition run_events (evs : list event) (c : config) : config :=
  fold_left (fun c e => deliver e c) evs (settle c).

Definition BEGIN (n_bits : Z) (payloads : list payload)
  (win Q_4_2 Q_4_3 Q_4_4 : Z) : config :=
  (AtSEND, parse_args n_bits payloads win Q_4_2 Q_4_3 Q_4_4).

End Sender.

(** ** The receiver automaton ([GBNReceiver]) *)
Module Receiver.

Record t := mk {
  win : Z;
  n_bits : Z;
  p_size : Z;
  next : Z;
  end_receiver : bool;
  end_num : Z;
  buffer : list payload;      (* payloads received out of order *)
  buffer_seq : list Z;        (* their sequence numbers, same order *)
  buffer_size : Z;
  out_file : list payload     (* the writes appended to the output file *)
}.

(** [parse_args]; the loss probabilities enter [DATA_IN] as the outcomes
    of its two [random.random() < p] tests. *)
Definition parse_args (nbits window chunk_size : Z) : t :=
  mk window nbits chunk_size 0 false (-1) [] [] 0 [].

(** Arguments that pass: at most 8 bits (main program) and a window of
    at most [2**n_bits] ([parse_args]). *)
Definition valid_args (nbits window : Z) : Prop :=
  0 <= nbits <= 8 /\ window <= 2 ^ nbits.

(** In [fields_desc] the fields [num] and [win] are [ByteField]s, one
    byte each: the ACK that [DATA_IN] hands to [send] can be built when
    the receiver's window lies between 0 and 255 and sequence numbers
    have at most 8 bits.  [parse_args] accepts other windows (a negative
    one, or 256 on 8 bits); with these building the ACK fails, after the
    handler has updated the object, and the automaton stops there. *)
Definition ack_fits (nbits window : Z) : Prop :=
  0 <= nbits <= 8 /\ 0 <= window <= 255.

Definition set_next (x : Z) (r : t) : t :=
  mk (win r) (n_bits r) (p_size r) x (end_receiver r) (end_num r)
     (buffer r) (buffer_seq r) (buffer_size r) (out_file r).
Definition set_end (b : bool) (x : Z) (r : t) : t :=
  mk (win r) (n_bits r) (p_size r) (next r) b x
     (buffer r) (buffer_seq r) (buffer_size r) (out_file r).
Definition set_buffer (x : list payload) (r : t) : t :=
  mk (win r) (n_bits r) (p_size r) (next r) (end_receiver r) (end_num r)
     x (buffer_seq r) (buffer_size r) (out_file r).
Definition set_buffer_seq (x : list Z) (r : t) : t :=
  mk (win r) (n_bits r) (p_size r) (next r) (end_receiver r) (end_num r)
     (buffer r) x (buffer_size r) (out_file r).
Definition set_buffer_size (x : Z) (r : t) : t :=
  mk (win r) (n_bits r) (p_size r) (next r) (end_receiver r) (end_num r)
     (buffer r) (buffer_seq r) x (out_file r).

(** [with open(out_file, 'ab') as file: file.write(p)] *)
Definition write (p : payload) (r : t) : t :=
  mk (win r) (n_bits r) (p_size r) (next r) (end_receiver r) (end_num r)
     (buffer r) (buffer_seq r) (buffer_size r) (out_file r ++ [p]).

(** The bytes of the output file. *)
Definition file_bytes (r : t) : list byte := concat (out_file r).

(** *** The drain after an in-order segment *)

(** One matching round of the [for] loop: deliver [item], drop one from
    the size, remove the first payload equal to [item] and the first
    number equal to [itemSeq], advance [next]. *)
Definition deliver (itemSeq : Z) (item : payload) (r : t) : t :=
  let r1 := write item r in
  let r2 := set_buffer_size (buffer_size r1 - 1) r1 in
  let r3 := set_buffer (remove_first payload_eqb item (buffer r2)) r2 in
  let r4 := if mem itemSeq (buffer_seq r3)
            then set_buffer_seq (remove_first Z.eqb itemSeq (buffer_seq r3)) r3
            else r3 in
  set_next ((next r4 + 1) mod 2 ^ n_bits r4) r4.

(** [for itemSeq, item in zip(self.buffer_seq, self.buffer)]: the two
    list iterators read position [i] of the lists as they are at that
    moment and stop when [i] is past the end of one of them.  The lists
    only shrink, so [fuel] = their length at the start is never what
    stops the loop. *)
Fixpoint for_zip (fuel : nat) (i : nat) (r : t) : t :=
  match fuel with
  | O => r
  | S fuel' =>
      match nth_error (buffer_seq r) i, nth_error (buffer r) i with
      | Some itemSeq, Some item =>
          if itemSeq =? next r
          then for_zip fuel' (S i) (deliver itemSeq item r)
          else for_zip fuel' (S i) r
      | _, _ => r
      end
  end.

(** [while self.buffer_size > 0: if self.next in self.buffer_seq: for ...
    else: break]; [None] when [fuel] rounds do not end it. *)
Fixpoint drain (fuel : nat) (r : t) : option t :=
  match fuel with
  | O => None
  | S fuel' =>
      if (buffer_size r >? 0) && mem (next r) (buffer_seq r)
      then drain fuel' (for_zip (length (buffer_seq r)) 0 r)
      else Some r
  end.

(** *** The two branches on [num] *)

Definition in_order (payload : payload) (r : t) : option t :=
  let r1 := write payload r in
  let r2 := set_next ((next r1 + 1) mod 2 ^ n_bits r1) r1 in
  drain (S (Z.to_nat (buffer_size r2))) r2.

Definition out_of_order (num : Z) (payload : payload) (r : t) : t :=
  let firstElement := next r + 1 in
  let lastElement := next r + win r - 1 in
  let firstElement :=
    if num <? next r then firstElement - 2 ^ n_bits r else firstElement in
  let lastElement :=
    if num <? next r then lastElement - 2 ^ n_bits r else lastElement in
  if (lastElement >=? num) && (num >=? firstElement) then
    if negb (mem num (buffer_seq r)) then
      set_buffer_seq (buffer_seq r ++ [num])
        (set_buffer (buffer r ++ [payload])
           (set_buffer_size (buffer_size r + 1) r))
    else r
  else r.

(** *** The SACK blocks *)

Definition sorted_buffer_seq (r : t) : list Z :=
  let max_value := 2 ^ n_bits r in
  (* [i >= max_value/2] with true division *)
  let over := filter (fun i => 2 * i >=? max_value) (buffer_seq r) in
  let under := filter (fun i => negb (2 * i >=? max_value)) (buffer_seq r) in
  let over_sorted := sorted over in
  let under_sorted := sorted under in
  match over_sorted, under_sorted with
  | o :: _, u :: _ =>
      if (o >=? max_value - win r) && (u <=? win r)
      then over_sorted ++ under_sorted
      else under_sorted ++ over_sorted
  | _ :: _, [] => over_sorted
  | [], _ :: _ => under_sorted
  | [], [] => []
  end.

(** The test of the generator: [a+1 != b and a != 2**n_bits - 1]. *)
Definition is_split (M_ a b : Z) : bool :=
  negb (a + 1 =? b) && negb (a =? M_ - 1).

Definition ranges (M_ : Z) (l : list Z) : list Z :=
  flat_map (fun ab => if is_split M_ (fst ab) (snd ab)
                      then [fst ab; snd ab] else [])
           (combine l (tl l)).

Definition start_end_ranges (M_ : Z) (l : list Z) : list Z :=
  firstn 1 l ++ ranges M_ l ++ skipn (length l - 1) l.

(** [end - first + 1], plus [2**n_bits] when negative. *)
Definition block_len (M_ first last : Z) : Z :=
  let len := last - first + 1 in
  if len <? 0 then M_ + len else len.

Definition sack_header (r : t) : GBN.t :=
  let M_ := 2 ^ n_bits r in
  let se := start_end_ranges M_ (sorted_buffer_seq r) in
  let at_ := fun k => nth k se 0 in
  let n := length se in
  if Nat.eqb n 2 then
    GBN.sack 9 (next r) (win r) 1
      (at_ 0%nat) (block_len M_ (at_ 0%nat) (at_ 1%nat)) 0 0 0 0
  else if Nat.eqb n 4 then
    GBN.sack 12 (next r) (win r) 2
      (at_ 0%nat) (block_len M_ (at_ 0%nat) (at_ 1%nat))
      (at_ 2%nat) (block_len M_ (at_ 2%nat) (at_ 3%nat)) 0 0
  else if Nat.leb 6 n then
    GBN.sack 15 (next r) (win r) 3
      (at_ 0%nat) (block_len M_ (at_ 0%nat) (at_ 1%nat))
      (at_ 2%nat) (block_len M_ (at_ 2%nat) (at_ 3%nat))
      (at_ 4%nat) (block_len M_ (at_ 4%nat) (at_ 5%nat))
  else
    GBN.sack 6 (next r) (win r) 0 0 0 0 0 0 0.

Definition ack_header (pkt : GBN.t) (r : t) : GBN.t :=
  if GBN.options pkt =? 0 then GBN.ack (next r) (win r) else sack_header r.

(** *** State DATA_IN *)

Inductive goto := WAIT_SEGMENT | END.

(** The handler, with [send] putting the ACK on the wire; this is what
    the program does for a receiver whose window satisfies [ack_fits]. *)

Definition DATA_IN (seg : segment) (data_lost ack_lost : bool) (r : t)
  : option (goto * t * list segment) :=
  let pkt := fst seg in
  let num := GBN.num pkt in
  let payload := snd seg in
  if data_lost then Some (WAIT_SEGMENT, r, [])
  else if GBN.type pkt =? 0 then
    let r1 := if plen payload <? p_size r
              then set_end true ((num + 1) mod 2 ^ n_bits r) r
              else r in
    match (if num =? next r1 then in_order payload r1
           else Some (out_of_order num payload r1)) with
    | None => None
    | Some r2 =>
        if ack_lost then Some (WAIT_SEGMENT, r2, [])
        else
          Some (if end_receiver r2 && (end_num r2 =? next r2)
                then END else WAIT_SEGMENT,
                r2, [(ack_header pkt r2, [])])
    end
  else Some (WAIT_SEGMENT, r, []).

(** *** The automaton *)

Definition config := (goto * t)%type.

Definition BEGIN (nbits window chunk_size : Z) : config :=
  (WAIT_SEGMENT, parse_args nbits window chunk_size).

(** A segment of the protocol carries a sequence number. *)
Definition well_formed (r : t) (seg : segment) : Prop :=
  0 <= GBN.num (fst seg) < 2 ^ n_bits r.

Inductive step : config -> config -> Prop :=
| step_packet_in : forall r seg data_lost ack_lost g r' sent,
    well_formed r seg ->
    DATA_IN seg data_lost ack_lost r = Some (g, r', sent) ->
    step (WAIT_SEGMENT, r) (g, r').

Inductive reachable (c0 : config) : config -> Prop :=
| reach_BEGIN : reachable c0 c0
| reach_step : forall c c', reachable c0 c -> step c c' -> reachable c0 c'.

(** Feeding a waiting receiver a list of segments, none lost; [None]
    when a segment carries no sequence number or the handler does not
    return. *)
Definition receive (seg : segment) (c : option config) : option config :=
  match c with
  | Some (WAIT_SEGMENT, r) =>
      if (0 <=? GBN.num (fst seg)) && (GBN.num (fst seg) <? 2 ^ n_bits r) then
        match DATA_IN seg false false r with
        | Some (g, r', _) => Some (g, r')
        | None => None
        end
      else None
  | _ => c
  end.

Definition run_segments (segs : list segment) (c : config) : option config :=
  fold_left (fun c seg => receive seg c) segs (Some c).

End Receiver.

(** * Vocabulary of the properties, and example states *)

(** ** Sender *)
Module SenderSpec.
Import Sender.

(** *** ACK_IN in three phases *)

(** First phase of ACK_IN on an ACK: [receiver_win] is set from the
    packet, and [SACK] follows its [options] when they are 0 or 1. *)
Definition adopt (pkt : GBN.t) (s : t) : t :=
  let s1 := set_receiver_win (GBN.win pkt) s in
  if GBN.options pkt =? 0 then set_SACK 0 s1
  else if GBN.options pkt =? 1 then set_SACK 1 s1
  else s1.

(** Second phase: the [if self.Q_4_2 == 1: ... elif self.SACK == 1: ...]
    statement. *)
Definition retransmit_mode (pkt : GBN.t) : M unit :=
  fun s =>
    (if Q_4_2 s =? 1 then selective_repeat (GBN.num pkt)
     else if SACK s =? 1 then selective_ack pkt
     else ret tt) s.

(** The keys popped by the removal loop for an ACK [ack] under a
    receiver window [W]. *)
Definition popped_keys (M_ W ack : Z) : list Z :=
  map (popped_key M_ W ack) (py_range 1 (W + 1)).

(** The buffer without the popped keys. *)
Definition evict (M_ W ack : Z) (d : Dict.t) : Dict.t :=
  filter (fun kv => negb (mem (fst kv) (popped_keys M_ W ack))) d.

(** Third phase: [unack] is set and the loop has run. *)
Definition advance (pkt : GBN.t) (s : t) : t :=
  set_buffer
    (evict (2 ^ n_bits s) (receiver_win s) (GBN.num pkt) (buffer s))
    (set_unack (GBN.num pkt) s).

(** *** Selective Repeat and SACK *)

(** [count_acks] after an ACK numbered [ack], before the test
    [count_acks[0] >= 2]. *)
Definition sr_counter (ack : Z) (c : Z * Z) : Z * Z :=
  if ack =? snd c then (fst c + 1, snd c) else (0, ack).

(** [d[k]] for a key known to be present. *)
Definition payload_at (d : Dict.t) (k : Z) : payload :=
  match Dict.get k d with
  | Some p => p
  | None => []
  end.

(** The DATA segment sent when [k] is retransmitted under SACK. *)
Definition sack_segment (s : t) (k : Z) : segment :=
  (GBN.data 1 (plen (payload_at (buffer s) k)) k (win s),
   payload_at (buffer s) k).

(** [blen] is 1, 2 or 3. *)
Definition has_blocks (pkt : GBN.t) : bool :=
  (GBN.blen pkt =? 1) || (GBN.blen pkt =? 2) || (GBN.blen pkt =? 3).

(** The blocks a packet carries, by its [blen]. *)
Definition carried_blocks (pkt : GBN.t) : list (Z * Z) :=
  if GBN.blen pkt =? 1 then [(GBN.left_1 pkt, GBN.length_1 pkt)]
  else if GBN.blen pkt =? 2 then
    [(GBN.left_1 pkt, GBN.length_1 pkt); (GBN.left_2 pkt, GBN.length_2 pkt)]
  else if GBN.blen pkt =? 3 then
    [(GBN.left_1 pkt, GBN.length_1 pkt); (GBN.left_2 pkt, GBN.length_2 pkt);
     (GBN.left_3 pkt, GBN.length_3 pkt)]
  else [].

(** The sequence numbers [left], [left+1], ... ([length] of them)
    modulo [M_]. *)
Definition modular_range (M_ : Z) (block : Z * Z) : list Z :=
  map (fun j => (fst block + j) mod M_) (py_range 0 (snd block)).

(** *** The in-flight window *)

(** [k] lies in the modular range from [lo] up to, not including, [hi]. *)
Definition in_modular_range (M_ lo hi k : Z) : Prop :=
  0 <= k < M_ /\ (k - lo) mod M_ < (hi - lo) mod M_.

(** The buffer's keys are exactly the range from [unack] to [current]. *)
Definition window_keys (s : t) : Prop :=
  forall k, In k (Dict.keys (buffer s))
            <-> in_modular_range (2 ^ n_bits s) (unack s) (current s) k.

(** The same, with the insertion order: [unack], [unack + 1], ... *)
Definition window_list (s : t) : Prop :=
  Dict.keys (buffer s)
  = modular_range (2 ^ n_bits s)
      (unack s, (current s - unack s) mod 2 ^ n_bits s).

(** *** Example states and runs *)

Definition p0 : payload := ["0"%byte].
Definition p1 : payload := ["1"%byte].
Definition p2 : payload := ["2"%byte].
Definition p3 : payload := ["3"%byte].

(** Window 4 on 5 bits, segments 1 to 4 in flight, ACK 1 seen twice. *)
Definition sr_example : t :=
  mk 4 5 [] [(1, ["b"%byte]); (2, ["c"%byte]); (3, ["d"%byte]); (4, ["e"%byte])]
     5 1 4 1 0 0 (1, 1).

(** Ten-segment window on 5 bits with 2 to 9 in flight; the receiver
    holds 3-4, 6 and 8-9 and acknowledges 2. *)
Definition sack_example : t :=
  mk 10 5 []
     [(2, ["c"%byte]); (3, ["d"%byte]); (4, ["e"%byte]); (5, ["f"%byte]);
      (6, ["g"%byte]); (7, ["h"%byte]); (8, ["i"%byte]); (9, ["j"%byte])]
     10 2 10 0 1 0 (0, -1).

Definition sack_example_ack : GBN.t := GBN.sack 15 2 10 3 3 2 6 1 8 2.

(** Segments 2 and 3 in flight, window 2 on 3 bits. *)
Definition window_example : t :=
  mk 2 3 [["4"%byte]] [(2, p2); (3, p3)] 4 2 2 0 0 0 (0, -1).

(** Selective Repeat with a window of one segment.  The first ACK for
    segment 0 is slow, so segment 0 is retransmitted three times and the
    receiver answers each copy with ACK 1.  One ACK 1 and then ACK 2
    arrive; two of the other ACK 1 arrive after them, a third is still
    on its way. *)
Definition stale_start : config := BEGIN 3 [p0; p1; p2; p3] 1 1 0 0.

Definition stale_events : list event :=
  [TimeoutReached; TimeoutReached; TimeoutReached;
   PacketIn (GBN.ack 1 1); PacketIn (GBN.ack 2 1);
   PacketIn (GBN.ack 1 1); PacketIn (GBN.ack 1 1)].

Definition stale_state : t :=
  mk 1 3 [p3] [(2, p2)] 3 1 1 1 0 0 (1, 1).

(** SACK with a window of two segments on both sides.  Segment 1
    arrives before segment 0: the receiver buffers it and answers with a
    SACK for 0 that carries the block (1, 1), and this answer is slow.
    After the timeout segment 0 arrives, 0 and 1 are delivered and the
    receiver answers with a SACK for 2 without blocks, which reaches the
    sender first; the slow answer is still on its way. *)
Definition late_sack_start : config := BEGIN 3 [p0; p1; p2; p3] 2 0 1 0.

Definition late_sack_events : list event :=
  [TimeoutReached; PacketIn (GBN.sack 6 2 2 0 0 0 0 0 0 0)].

Definition late_sack : GBN.t := GBN.sack 9 0 2 1 1 1 0 0 0 0.

Definition late_sack_state : t :=
  mk 2 3 [] [(2, p2); (3, p3)] 4 2 2 0 1 0 (0, -1).

(** Plain Go-Back-N with a window of one segment.  Segment 0 is
    retransmitted once, so the receiver sends ACK 1 twice; the second
    copy arrives after ACK 2. *)
Definition reordered_start : config := BEGIN 3 [p0; p1; p2; p3] 1 0 0 0.

Definition reordered_events : list event :=
  [TimeoutReached; PacketIn (GBN.ack 1 1); PacketIn (GBN.ack 2 1);
   PacketIn (GBN.ack 1 1)].

Definition reordered_state : t :=
  mk 1 3 [p3] [(2, p2)] 3 1 1 0 0 0 (0, -1).

(** Window 2 on 2 bits, no loss: after ACK 2 and ACK 3 the segments 3
    and 0 are in flight and 0 to 2 are acknowledged. *)
Definition wrap_start : config :=
  BEGIN 2 [p0; p1; p2; p3; ["4"%byte]; ["5"%byte]] 2 0 0 0.

Definition wrap_events : list event :=
  [PacketIn (GBN.ack 2 2); PacketIn (GBN.ack 3 2)].

Definition wrap_state : t :=
  mk 2 2 [["5"%byte]] [(3, p3); (0, ["4"%byte])] 1 3 2 0 0 0 (0, -1).

End SenderSpec.

(** ** Receiver *)
Module ReceiverSpec.
Import Receiver.

(** The buffered numbers are distinct sequence numbers whose modular
    distance from [next] lies between [1 - shift] and [win - 1 - shift],
    and the two lists and the counter agree in size.  [shift] is 0 between
    handlers and 1 while the drain runs. *)
Record buffered (shift : Z) (r : t) : Prop := {
  next_in_range : 0 <= next r < 2 ^ n_bits r;
  aligned : length (buffer r) = length (buffer_seq r);
  sized : buffer_size r = Z.of_nat (length (buffer_seq r));
  distinct : NoDup (buffer_seq r);
  in_window : forall k, In k (buffer_seq r) ->
      0 <= k < 2 ^ n_bits r
      /\ 1 - shift <= (k - next r) mod 2 ^ n_bits r <= win r - 1 - shift
}.

(** A full chunk of 64 equal bytes, and the DATA segment carrying it. *)
Definition chunk (b : byte) : payload := repeat b 64.

Definition data_segment (options num : Z) (p : payload) : segment :=
  (GBN.data options (plen p) num 4, p).

(** Segment 0 arrived, segment 1 is missing, segment 2 is buffered. *)
Definition gap_state : t :=
  mk 4 3 64 1 false (-1) [chunk "c"] [2] 1 [chunk "a"].

(** Segments 3, 4 and 2 arrived in this order while 1 was missing; the
    chunks of 2 and 3 are equal. *)
Definition twin_state : t :=
  mk 5 3 64 1 false (-1)
     [chunk "A"; chunk "B"; chunk "A"] [3; 4; 2] 3 [chunk "0"].

(** 0 to 5 delivered, 7 buffered, [next = 6], window 6 on 3 bits. *)
Definition wrap_gap_state : t :=
  mk 6 3 64 6 false (-1) [chunk "7"] [7] 1
     [chunk "0"; chunk "1"; chunk "2"; chunk "3"; chunk "4"; chunk "5"].

End ReceiverSpec.

(** * The rest of the two programs *)

(** ** The header layout ([fields_desc]) *)
Module Layout.

Inductive field_name :=
| type | options | len | hlen | num | win | blen
| left_1 | length_1 | padd_2 | left_2 | length_2
| padd_3 | left_3 | length_3.

(** A row of [fields_desc]: the name, the width in bits ([BitEnumField]
    and [BitField] give theirs, a [ShortField] has 16 and a [ByteField]
    8) and, for a [ConditionalField], the bound [b] of its condition
    [pkt.hlen >= b]. *)
Definition fields_desc : list (field_name * Z * option Z) :=
  [ (type, 1, None); (options, 7, None); (len, 16, None);
    (hlen, 8, None); (num, 8, None); (win, 8, None);
    (blen, 8, Some 7);
    (left_1, 8, Some 8); (length_1, 8, Some 9);
    (padd_2, 8, Some 10); (left_2, 8, Some 11); (length_2, 8, Some 12);
    (padd_3, 8, Some 13); (left_3, 8, Some 14); (length_3, 8, Some 15) ].

(** Whether a row is part of a header whose [hlen] field is [h]. *)
Definition present (h : Z) (row : field_name * Z * option Z) : bool :=
  match snd row with
  | None => true
  | Some b => h >=? b
  end.

(** The bits of a header whose [hlen] field is [h]. *)
Definition header_bits (h : Z) : Z :=
  fold_right (fun row acc => snd (fst row) + acc) 0
    (filter (present h) fields_desc).

End Layout.

(** ** The main programs *)
Module Driver.

(** [chunk_size = 2**6] in the sender, [size = 2**6] in the receiver. *)
Definition chunk_size : nat := 64.

(** The loop filling [payload_to_send_bin]: [file_in.read(chunk_size)]
    returns the next [chunk_size] bytes, fewer at the end of the file and
    none after it, and an empty chunk ends the loop.  Each round but the
    last consumes a byte, so [fuel] above the length of the file is never
    used up. *)
Fixpoint read_chunks (fuel : nat) (size : nat) (file_in : list byte)
  : list payload :=
  match fuel with
  | O => []
  | S fuel' =>
      match firstn size file_in with
      | [] => []
      | chunk => chunk :: read_chunks fuel' size (skipn size file_in)
      end
  end.

Definition payload_to_send_bin (file_in : list byte) : list payload :=
  read_chunks (S (length file_in)) chunk_size file_in.

(** [GBNSender(sender_IP, receiver_IP, bits, payload_to_send_bin,
    window_size, Q_4_2, Q_4_3, Q_4_4)] about to run. *)
Definition GBN_sender (bits : Z) (file_in : list byte)
  (window_size Q_4_2 Q_4_3 Q_4_4 : Z) : Sender.config :=
  Sender.BEGIN bits (payload_to_send_bin file_in) window_size
    Q_4_2 Q_4_3 Q_4_4.

(** [GBNReceiver(receiver_IP, sender_IP, bits, output_file, window_size,
    data_l, ack_l, size)] about to run, the output file removed. *)
Definition GBN_receiver (bits window_size : Z) : Receiver.config :=
  Receiver.BEGIN bits window_size (Z.of_nat chunk_size).

End Driver.

(** ** More vocabulary for the sender *)
Module SenderTerms.
Import Sender SenderSpec.

(** SEND entered again and again, as the automaton does after each
    [raise self.SEND()], with the wire kept; with more fuel than queued
    payloads the loop is ended by SEND itself. *)
Fixpoint SEND_rounds (fuel : nat) (s : t) (w : list segment)
  : control * t * list segment :=
  match fuel with
  | O => (AtSEND, s, w)
  | S fuel' =>
      match SEND s w with
      | (Ret ToSEND, s', w') => SEND_rounds fuel' s' w'
      | (o, s', w') => (after_goto o, s', w')
      end
  end.

(** The free places of the window: [min(win, receiver_win) - len(buffer)],
    none when that is negative. *)
Definition room (s : t) : nat :=
  Z.to_nat (Z.min (win s) (receiver_win s) - Z.of_nat (length (buffer s))).

(** The [options] the sender writes into its DATA headers. *)
Definition sack_bit (s : t) : Z := if SACK s =? 0 then 0 else 1.

(** The DATA segment for a buffer entry. *)
Definition data_entry (o w : Z) (kp : Z * payload) : segment :=
  (GBN.data o (plen (snd kp)) (fst kp) w, snd kp).

(** A DATA segment as the receiver expects one: type 0, a 6-byte
    header, a sequence number of [n] bits, [len] the length of the
    payload, and the sender's window. *)
Definition proper_data (M_ W : Z) (seg : segment) : Prop :=
  GBN.type (fst seg) = 0 /\ GBN.hlen (fst seg) = 6
  /\ 0 <= GBN.num (fst seg) < M_
  /\ GBN.len (fst seg) = plen (snd seg)
  /\ GBN.win (fst seg) = W
  /\ 0 <= GBN.options (fst seg) <= 1.

(** Keys are sequence numbers and [current] is one. *)
Definition numbers_in_range (s : t) : Prop :=
  0 <= current s < 2 ^ n_bits s
  /\ forall k, In k (Dict.keys (buffer s)) -> 0 <= k < 2 ^ n_bits s.

(** Window 4 on 5 bits, nothing sent yet, six payloads queued. *)
Definition fresh_example : t :=
  parse_args 5 [p0; p1; p2; p3; ["4"%byte]; ["5"%byte]] 4 0 0 0.

End SenderTerms.

(** ** More vocabulary for the receiver *)
Module ReceiverTerms.
Import Receiver ReceiverSpec.

(** The buffered payloads under their sequence numbers: the two lists
    read side by side. *)
Definition assoc (r : t) : Dict.t := combine (buffer_seq r) (buffer r).

(** [num] lies 1 to [win - 1] places after [next], modulo [2^n_bits],
    and is not buffered yet. *)
Definition accepted (r : t) (num : Z) : Prop :=
  1 <= (num - next r) mod 2 ^ n_bits r <= win r - 1
  /\ ~ In num (buffer_seq r).

(** The state with one more buffered segment. *)
Definition buffered_with (num : Z) (payload : payload) (r : t) : t :=
  set_buffer_seq (buffer_seq r ++ [num])
    (set_buffer (buffer r ++ [payload])
       (set_buffer_size (buffer_size r + 1) r)).

(** The number of places where the ordered list is split into blocks. *)
Definition splits (M_ : Z) (l : list Z) : nat :=
  length (filter (fun ab => is_split M_ (fst ab) (snd ab))
            (combine l (tl l))).

(** The DATA segments for the payloads [ps], numbered [start],
    [start + 1], ... modulo [M_]: what SEND puts on the wire for them. *)
Definition numbered (M_ o w start : Z) (ps : list payload) : list segment :=
  map (SenderTerms.data_entry o w)
    (combine (SenderSpec.modular_range M_ (start, Z.of_nat (length ps))) ps).

(** The payload is not shorter than a chunk. *)
Definition full (r : t) (p : payload) : Prop := p_size r <= plen p.


(** The state after the payloads [ps] were written one after the other,
    each advancing [next]. *)
Definition written (ps : list payload) (r : t) : t :=
  mk (win r) (n_bits r) (p_size r)
     ((next r + Z.of_nat (length ps)) mod 2 ^ n_bits r)
     (end_receiver r) (end_num r)
     (buffer r) (buffer_seq r) (buffer_size r) (out_file r ++ ps).


(** In the course of a drain that began with the entries [d0], the
    output [o0] and [next = start]: the [j] numbers from [start] on were
    all buffered, their payloads were appended in this order, and what
    is still buffered is [d0] without them. *)
Definition drained (d0 : Dict.t) (o0 : list payload) (start : Z) (j : nat)
  (x : t) : Prop :=
  let run := SenderSpec.modular_range (2 ^ n_bits x) (start, Z.of_nat j) in
  (forall k, In k run -> In k (Dict.keys d0))
  /\ out_file x = o0 ++ map (SenderSpec.payload_at d0) run
  /\ next x = (start + Z.of_nat j) mod 2 ^ n_bits x
  /\ assoc x = filter (fun kp => negb (mem (fst kp) run)) d0.

End ReceiverTerms.

(** * Lists, ranges and modular arithmetic *)
Module PyFacts.

Lemma mem_In (x : Z) (l : list Z) : mem x l = true <-> In x l.
Proof.
  induction l as [|y l IH]; simpl; [intuition discriminate|].
  rewrite orb_true_iff, Z.eqb_eq, IH. intuition.
Qed.

Lemma mem_false (x : Z) (l : list Z) : mem x l = false <-> ~ In x l.
Proof.
  rewrite <- mem_In. destruct (mem x l); intuition discriminate.
Qed.

Lemma In_firstn {A : Type} (n : nat) (l : list A) (x : A) :
  In x (firstn n l) -> In x l.
Proof.
  revert l. induction n as [|n IH]; intros [|y l]; simpl; try tauto.
  intros [H|H]; auto.
Qed.

Lemma filter_idem {A : Type} (f : A -> bool) (l : list A) :
  filter f (filter f l) = filter f l.
Proof.
  induction l as [|x l IH]; simpl; [reflexivity|].
  destruct (f x) eqn:E; simpl; [rewrite E, IH|]; auto.
Qed.

Lemma py_range_length (a b : Z) : length (py_range a b) = Z.to_nat (b - a).
Proof. unfold py_range. now rewrite length_map, length_seq. Qed.

Lemma seq_from (n len : nat) :
  seq n len = map (fun i => (n + i)%nat) (seq 0 len).
Proof.
  induction n as [|n IH]; simpl.
  - now rewrite map_id.
  - rewrite <- seq_shift, IH, map_map. reflexivity.
Qed.

Lemma py_range_split (a b c : Z) :
  a <= b <= c -> py_range a c = py_range a b ++ py_range b c.
Proof.
  intros H. unfold py_range.
  replace (Z.to_nat (c - a)) with (Z.to_nat (b - a) + Z.to_nat (c - b))%nat by lia.
  rewrite seq_app, map_app. f_equal.
  rewrite Nat.add_0_l, seq_from, map_map.
  apply map_ext. intros i. lia.
Qed.

Lemma py_range_map_eq {A : Type} (f g : Z -> A) (a b a' b' : Z) :
  b - a = b' - a' ->
  (forall i, 0 <= i < b - a -> f (a + i) = g (a' + i)) ->
  map f (py_range a b) = map g (py_range a' b').
Proof.
  intros Hlen Hfg. unfold py_range. rewrite !map_map, <- Hlen.
  apply map_ext_in. intros i Hi. apply in_seq in Hi. apply Hfg. lia.
Qed.

Lemma rev_last (l : list Z) : l <> [] -> exists r, rev l = last l 0 :: r.
Proof.
  intros H. destruct (exists_last H) as [l' [x E]]. subst l.
  rewrite rev_unit, last_last. eauto.
Qed.

Lemma In_py_range (a b i : Z) : In i (py_range a b) <-> a <= i < b.
Proof.
  unfold py_range. rewrite in_map_iff. split.
  - intros [j [Hj Hin]]. apply in_seq in Hin. lia.
  - intros H. exists (Z.to_nat (i - a)). split; [lia|]. apply in_seq. lia.
Qed.

Lemma filter_none {A : Type} (f : A -> bool) (l : list A) :
  (forall x, In x l -> f x = false) -> filter f l = [].
Proof.
  induction l as [|x l IH]; simpl; intros H; [reflexivity|].
  rewrite (H x) by tauto. apply IH. intros y Hy. apply H. tauto.
Qed.

Lemma filter_all {A : Type} (f : A -> bool) (l : list A) :
  (forall x, In x l -> f x = true) -> filter f l = l.
Proof.
  induction l as [|x l IH]; simpl; intros H; [reflexivity|].
  rewrite (H x) by tauto. f_equal. apply IH. intros y Hy. apply H. tauto.
Qed.

Lemma mod_shift (M_ x y q : Z) :
  x = y + q * M_ -> 0 <= y < M_ -> x mod M_ = y.
Proof. intros -> Hy. rewrite Z.mod_add by lia. apply Z.mod_small, Hy. Qed.

Lemma payload_eqb_refl (p : payload) : payload_eqb p p = true.
Proof.
  induction p as [|b p IH]; simpl; [reflexivity|].
  rewrite IH, (Byte.byte_dec_lb eq_refl). reflexivity.
Qed.

Lemma remove_first_length {A : Type} (eqb : A -> A -> bool) (x : A)
  (l : list A) :
  eqb x x = true -> In x l ->
  S (length (remove_first eqb x l)) = length l.
Proof.
  intros Hrefl. induction l as [|y l IH]; simpl; [tauto|].
  intros Hin. destruct (eqb x y) eqn:E; [reflexivity|].
  simpl. f_equal. apply IH. destruct Hin as [->|H]; [congruence | exact H].
Qed.

Lemma remove_first_length_le {A : Type} (eqb : A -> A -> bool) (x : A)
  (l : list A) :
  (length (remove_first eqb x l) <= length l)%nat.
Proof.
  induction l as [|y l IH]; simpl; [lia|].
  destruct (eqb x y); simpl; lia.
Qed.

Lemma remove_first_In (x k : Z) (l : list Z) :
  In k (remove_first Z.eqb x l) -> In k l.
Proof.
  induction l as [|y l IH]; simpl; [tauto|].
  destruct (x =? y); simpl; tauto.
Qed.

Lemma remove_first_NoDup (x : Z) (l : list Z) :
  NoDup l -> NoDup (remove_first Z.eqb x l) /\ ~ In x (remove_first Z.eqb x l).
Proof.
  induction l as [|y l IH]; simpl; intros Hnd.
  - split; [constructor | tauto].
  - inversion Hnd as [|? ? Hy Hl]; subst.
    destruct (x =? y) eqn:E.
    + apply Z.eqb_eq in E. subst. tauto.
    + apply Z.eqb_neq in E. destruct (IH Hl) as [IH1 IH2]. split.
      * constructor; [|exact IH1]. intros H. apply Hy.
        eapply remove_first_In; exact H.
      * simpl. intros [H|H]; [congruence | tauto].
Qed.

Lemma dist_pred (M_ k n : Z) :
  0 < M_ -> 1 <= (k - n) mod M_ ->
  (k - (n + 1) mod M_) mod M_ = (k - n) mod M_ - 1.
Proof.
  intros HM Hd. rewrite Zminus_mod_idemp_r.
  replace (k - (n + 1)) with (k - n - 1) by lia.
  rewrite <- Zminus_mod_idemp_l.
  pose proof (Z.mod_pos_bound (k - n) M_ HM).
  apply Z.mod_small. lia.
Qed.

Lemma dist_zero (M_ k n : Z) :
  0 <= k < M_ -> 0 <= n < M_ -> (k - n) mod M_ = 0 -> k = n.
Proof.
  intros Hk Hn. destruct (Z_lt_ge_dec k n) as [Hlt|Hge].
  - rewrite (mod_shift M_ (k - n) (k - n + M_) (-1)); lia.
  - rewrite Z.mod_small; lia.
Qed.

End PyFacts.

(** * Properties of the sender *)
Module SenderFacts.
Import Sender SenderSpec PyFacts.

(** ** Running the automaton stays within the reachable configurations *)

Lemma SEND_loop_reachable (c0 : config) (fuel : nat) :
  forall c, reachable c0 c -> reachable c0 (SEND_loop fuel c).
Proof.
  induction fuel as [|f IH]; intros [ctl s] H; simpl; [destruct ctl; exact H|].
  destruct ctl; try exact H.
  apply IH. eapply reach_step; [exact H | apply step_SEND].
Qed.

Lemma deliver_reachable (c0 : config) (e : event) (c : config) :
  reachable c0 c -> reachable c0 (deliver e c).
Proof.
  intros H. destruct c as [ctl s]. destruct ctl; simpl; try exact H.
  destruct e; apply SEND_loop_reachable;
    (eapply reach_step; [exact H|]); constructor.
Qed.

Lemma run_events_reachable (c0 : config) (evs : list event) :
  reachable c0 (run_events evs c0).
Proof.
  unfold run_events.
  assert (H : reachable c0 (settle c0))
    by (apply SEND_loop_reachable; constructor).
  revert H. generalize (settle c0).
  induction evs as [|e evs IH]; intros c H; simpl; [exact H|].
  apply IH. now apply deliver_reachable.
Qed.

(** ** The removal loop of ACK_IN *)

Lemma pops_filter (ks : list Z) :
  forall d,
    fold_left (fun d k => Dict.pop k d) ks d
    = filter (fun kv => negb (mem (fst kv) ks)) d.
Proof.
  induction ks as [|k ks IH]; intros d; simpl.
  - induction d as [|kv d IHd]; simpl; [reflexivity | now rewrite <- IHd].
  - rewrite IH. unfold Dict.pop.
    induction d as [|kv d IHd]; simpl; [reflexivity|].
    destruct (fst kv =? k) eqn:E; simpl.
    + exact IHd.
    + destruct (mem (fst kv) ks); simpl; now rewrite IHd.
Qed.

Lemma remove_loop_run (ack : Z) (idx : list Z) :
  forall s w,
    for_each idx (fun i =>
      update (fun s' =>
        set_buffer
          (Dict.pop (popped_key (2 ^ n_bits s') (receiver_win s') ack i)
                    (buffer s')) s')) s w
    = (Ret tt,
       set_buffer
         (fold_left (fun d k => Dict.pop k d)
            (map (popped_key (2 ^ n_bits s) (receiver_win s) ack) idx)
            (buffer s)) s,
       w).
Proof.
  induction idx as [|i idx IH]; intros s w; simpl.
  - destruct s; reflexivity.
  - unfold bind at 1, update at 1. rewrite IH. destruct s; reflexivity.
Qed.

Lemma remove_acked_run (ack : Z) (s : t) (w : list segment) :
  remove_acked ack s w
  = (Ret tt,
     set_buffer (evict (2 ^ n_bits s) (receiver_win s) ack (buffer s)) s,
     w).
Proof.
  unfold remove_acked, bind, self. rewrite remove_loop_run.
  unfold evict, popped_keys. now rewrite pops_filter.
Qed.

(** ** ACK_IN in three phases: adopt, retransmit, advance *)

(** Facts about [adopt] that hold in each of its three cases. *)
Ltac by_options pkt :=
  unfold adopt; destruct (GBN.options pkt =? 0); [reflexivity|];
  destruct (GBN.options pkt =? 1); reflexivity.

Lemma ACK_IN_run (pkt : GBN.t) (s : t) (w : list segment) :
  GBN.type pkt <> 0 ->
  ACK_IN pkt s w
  = match retransmit_mode pkt (adopt pkt s) w with
    | (Ret _, s', w') => (Ret ToSEND, advance pkt s', w')
    | (Raise e, s', w') => (Raise e, s', w')
    end.
Proof.
  intros Hty. apply Z.eqb_neq in Hty.
  unfold ACK_IN. rewrite Hty.
  unfold retransmit_mode, adopt, advance.
  unfold bind at 1, update at 1.
  unfold bind at 1.
  assert (E : forall s1 : t,
    (s0 <- self;;
     (if Q_4_2 s0 =? 1 then selective_repeat (GBN.num pkt)
      else if SACK s0 =? 1 then selective_ack pkt else ret tt);;
     update (set_unack (GBN.num pkt));; remove_acked (GBN.num pkt);; ret ToSEND)
      s1 w
    = match
        (if Q_4_2 s1 =? 1 then selective_repeat (GBN.num pkt)
         else if SACK s1 =? 1 then selective_ack pkt else ret tt) s1 w
      with
      | (Ret _, s', w') =>
          (Ret ToSEND,
           set_buffer
             (evict (2 ^ n_bits s') (receiver_win s') (GBN.num pkt) (buffer s'))
             (set_unack (GBN.num pkt) s'), w')
      | (Raise e, s', w') => (Raise e, s', w')
      end).
  { intros s1. unfold bind at 1, self at 1. unfold bind at 1.
    destruct ((if Q_4_2 s1 =? 1 then selective_repeat (GBN.num pkt)
               else if SACK s1 =? 1 then selective_ack pkt else ret tt) s1 w)
      as [[[a|e] s'] w']; [|reflexivity].
    unfold bind at 1, update at 1. unfold bind at 1.
    rewrite remove_acked_run. unfold ret. destruct s'; reflexivity. }
  destruct (GBN.options pkt =? 0).
  - unfold update. apply E.
  - destruct (GBN.options pkt =? 1).
    + unfold update. apply E.
    + unfold ret at 1. apply E.
Qed.

Lemma ACK_IN_data (pkt : GBN.t) (s : t) (w : list segment) :
  GBN.type pkt = 0 -> ACK_IN pkt s w = (Ret ToSEND, s, w).
Proof. intros H. unfold ACK_IN. now rewrite H. Qed.

(** ** The retransmission phase, in closed form *)

Lemma selective_repeat_run (ack : Z) (s : t) (w : list segment) :
  selective_repeat ack s w
  = let c := sr_counter ack (count_acks s) in
    if fst c >=? 2 then
      match Dict.get ack (buffer s) with
      | Some p => (Ret tt, set_count_acks (0, -1) s,
                   w ++ [(GBN.data 0 (plen p) ack (win s), p)])
      | None => (Raise KeyError, set_count_acks c s, w)
      end
    else (Ret tt, set_count_acks c s, w).
Proof.
  unfold selective_repeat, sr_counter.
  unfold bind at 1, self at 1. unfold bind at 1.
  destruct (ack =? snd (count_acks s)); unfold update at 1;
    unfold bind at 1, self at 1; cbn [count_acks set_count_acks fst snd];
    (destruct (_ >=? 2); [|reflexivity]);
    unfold bind at 1, getitem; cbn [buffer set_count_acks];
    (destruct (Dict.get ack (buffer s)); [|reflexivity]);
    unfold ret at 1, bind, send, update; reflexivity.
Qed.

Lemma get_In_keys (d : Dict.t) (k : Z) :
  In k (Dict.keys d) -> Dict.get k d = Some (payload_at d k).
Proof.
  unfold payload_at. induction d as [|[k' v] d IH]; simpl; [tauto|].
  destruct (k =? k') eqn:E; [reflexivity|].
  intros [H|H]; [apply Z.eqb_neq in E; congruence | auto].
Qed.


Lemma resend_loop_run (s : t) (flat : list Z) (ks : list Z) :
  (forall k, In k ks -> In k (Dict.keys (buffer s))) ->
  forall w,
    for_each ks (fun seqnum_appl =>
      if negb (mem seqnum_appl flat) then
        p <- getitem (buffer s) seqnum_appl ;;
        send (GBN.data 1 (plen p) seqnum_appl (win s), p)
      else ret tt) s w
    = (Ret tt, s,
       w ++ map (sack_segment s) (filter (fun k => negb (mem k flat)) ks)).
Proof.
  match goal with |- context [for_each ks ?b] => set (body := b) end.
  induction ks as [|k ks IH]; intros Hin w.
  - simpl. unfold ret. now rewrite app_nil_r.
  - cbn [for_each filter]. unfold bind at 1. unfold body at 1.
    destruct (negb (mem k flat)).
    + unfold bind at 1, getitem.
      rewrite (get_In_keys (buffer s) k) by (apply Hin; now left).
      unfold ret at 1, send at 1.
      rewrite IH by (intros k0 H0; apply Hin; now right).
      cbn [map]. rewrite <- app_assoc. reflexivity.
    + unfold ret at 1.
      now rewrite IH by (intros k0 H0; apply Hin; now right).
Qed.

Lemma selective_ack_run (pkt : GBN.t) (s : t) (w : list segment) :
  selective_ack pkt s w
  = if has_blocks pkt then
      let flat := flat_rec_acks (2 ^ n_bits s) pkt in
      match rev flat with
      | [] => (Raise IndexError, s, w)
      | x :: _ =>
          match index_of x (Dict.keys (buffer s)) with
          | None => (Raise ValueError, s, w)
          | Some final_index =>
              (Ret tt, s,
               w ++ map (sack_segment s)
                      (filter (fun k => negb (mem k flat))
                         (firstn final_index (Dict.keys (buffer s)))))
          end
      end
    else (Ret tt, s, w).
Proof.
  unfold selective_ack, has_blocks.
  destruct (_ || _); [|reflexivity].
  unfold sack_retransmit. unfold bind at 1, self at 1.
  unfold bind at 1, last_item.
  destruct (rev _) as [|x r]; [reflexivity|].
  unfold ret at 1. unfold bind at 1, index.
  destruct (index_of x _) as [i|]; [|reflexivity].
  unfold ret at 1. apply resend_loop_run.
  intros k. apply In_firstn.
Qed.

Lemma set_count_acks_same (s : t) : set_count_acks (count_acks s) s = s.
Proof. destruct s; reflexivity. Qed.

(** In every mode the phase leaves the object as it was, up to
    [count_acks], which only Selective Repeat writes. *)
Lemma retransmit_mode_frame (pkt : GBN.t) (s : t) (w : list segment) :
  exists c,
    snd (fst (retransmit_mode pkt s w)) = set_count_acks c s
    /\ (Q_4_2 s <> 1 -> c = count_acks s).
Proof.
  pose proof (set_count_acks_same s) as E.
  unfold retransmit_mode.
  destruct (Q_4_2 s =? 1) eqn:Esr.
  - apply Z.eqb_eq in Esr. rewrite selective_repeat_run. cbv zeta.
    destruct (_ >=? 2); [destruct (Dict.get _ _)|]; simpl;
      eexists; (split; [reflexivity | tauto]).
  - exists (count_acks s). split; [|reflexivity]. rewrite E.
    destruct (SACK s =? 1); [|reflexivity].
    rewrite selective_ack_run. cbv zeta.
    destruct (has_blocks pkt); [|reflexivity].
    destruct (rev _); [reflexivity|].
    destruct (index_of _ _); reflexivity.
Qed.

(** A handler that raised in the retransmission phase raises again when
    the same ACK is processed next: the counter has not been reset and
    the buffer is as it was. *)
Lemma retransmit_mode_raises_again (pkt : GBN.t) (s s' : t)
  (w w' : list segment) (e : exn) :
  retransmit_mode pkt s w = (Raise e, s', w') ->
  forall w2, exists e2 s2 w2',
    retransmit_mode pkt s' w2 = (Raise e2, s2, w2').
Proof.
  unfold retransmit_mode. intros H w2.
  destruct (Q_4_2 s =? 1) eqn:Esr.
  - rewrite selective_repeat_run in H. cbv zeta in H.
    destruct (fst (sr_counter _ _) >=? 2) eqn:Ec; [|discriminate].
    destruct (Dict.get _ _) eqn:Eg; [discriminate|].
    injection H as _ Hs _. subst s'.
    assert (Hq : Q_4_2 (set_count_acks (sr_counter (GBN.num pkt) (count_acks s)) s)
                 = Q_4_2 s) by reflexivity.
    rewrite Hq, Esr, selective_repeat_run. cbv zeta.
    cbn [count_acks buffer set_count_acks]. rewrite Eg.
    assert (Ec2 : (fst (sr_counter (GBN.num pkt)
                          (sr_counter (GBN.num pkt) (count_acks s))) >=? 2)
                  = true).
    { revert Ec. unfold sr_counter.
      destruct (GBN.num pkt =? snd (count_acks s)) eqn:E1; simpl.
      - rewrite E1. simpl. intros Hc. apply Z.geb_le in Hc. apply Z.geb_le. lia.
      - discriminate. }
    rewrite Ec2. eauto.
  - destruct (SACK s =? 1) eqn:Esack.
    + rewrite selective_ack_run in H. cbv zeta in H.
      destruct (has_blocks pkt) eqn:Eb; [|discriminate].
      destruct (rev _) as [|x r] eqn:Er.
      * injection H as _ Hs _. subst s'.
        rewrite Esr, Esack, selective_ack_run. cbv zeta. rewrite Eb, Er. eauto.
      * destruct (index_of _ _) eqn:Ei; [discriminate|].
        injection H as _ Hs _. subst s'.
        rewrite Esr, Esack, selective_ack_run. cbv zeta. rewrite Eb, Er, Ei.
        eauto.
    + discriminate.
Qed.

Lemma adopt_idem (pkt : GBN.t) (s : t) : adopt pkt (adopt pkt s) = adopt pkt s.
Proof.
  by_options pkt.
Qed.

Lemma adopt_set_count_acks (pkt : GBN.t) (c : Z * Z) (s : t) :
  adopt pkt (set_count_acks c s) = set_count_acks c (adopt pkt s).
Proof.
  by_options pkt.
Qed.

Lemma adopt_advance (pkt : GBN.t) (s : t) :
  adopt pkt (advance pkt (adopt pkt s)) = advance pkt (adopt pkt s).
Proof.
  by_options pkt.
Qed.

Lemma advance_set_count_acks (pkt : GBN.t) (c : Z * Z) (s : t) :
  advance pkt (set_count_acks c s) = set_count_acks c (advance pkt s).
Proof. reflexivity. Qed.

Lemma advance_idem (pkt : GBN.t) (s : t) :
  advance pkt (advance pkt s) = advance pkt s.
Proof.
  unfold advance. cbn [buffer n_bits receiver_win set_buffer set_unack].
  unfold evict. rewrite filter_idem. reflexivity.
Qed.

(** ** Processing the same ACK twice *)

Lemma Q_4_2_adopt (pkt : GBN.t) (s : t) : Q_4_2 (adopt pkt s) = Q_4_2 s.
Proof.
  by_options pkt.
Qed.

Lemma ACK_IN_twice_core (s : t) (pkt : GBN.t) :
  let s1 := state_after (ACK_IN pkt) s in
  exists c,
    state_after (ACK_IN pkt) s1 = set_count_acks c s1
    /\ (Q_4_2 s <> 1 -> c = count_acks s1).
Proof.
  cbv zeta. unfold state_after, run.
  destruct (Z.eq_dec (GBN.type pkt) 0) as [Hd|Ha].
  - rewrite !ACK_IN_data by exact Hd. cbn [fst snd].
    exists (count_acks s). split; [now rewrite set_count_acks_same | reflexivity].
  - rewrite (ACK_IN_run pkt s []) by exact Ha.
    destruct (retransmit_mode_frame pkt (adopt pkt s) []) as [c [Hc Hn]].
    rewrite Q_4_2_adopt in Hn.
    destruct (retransmit_mode pkt (adopt pkt s) []) as [[[u|e] a'] w'] eqn:Em;
      cbn [fst snd] in Hc |- *; subst a'.
    + rewrite ACK_IN_run by exact Ha.
      rewrite advance_set_count_acks, adopt_set_count_acks, adopt_advance.
      set (s1 := set_count_acks c (advance pkt (adopt pkt s))).
      destruct (retransmit_mode_frame pkt s1 []) as [c2 [Hc2 Hn2]].
      assert (Hq : Q_4_2 s1 = Q_4_2 s) by (unfold s1; cbn; apply Q_4_2_adopt).
      rewrite Hq in Hn2.
      destruct (retransmit_mode pkt s1 []) as [[[u2|e2] a2] w2];
        cbn [fst snd] in Hc2 |- *; subst a2.
      * exists c2. split; [|exact Hn2].
        rewrite advance_set_count_acks. unfold s1.
        rewrite advance_set_count_acks, advance_idem. reflexivity.
      * exists c2. split; [reflexivity | exact Hn2].
    + rewrite ACK_IN_run by exact Ha.
      rewrite adopt_set_count_acks, adopt_idem.
      set (s1 := set_count_acks c (adopt pkt s)) in *.
      destruct (retransmit_mode_raises_again _ _ _ _ _ _ Em []) as [e2 [a2 [w2 Hr]]].
      destruct (retransmit_mode_frame pkt s1 []) as [c2 [Hc2 Hn2]].
      assert (Hq : Q_4_2 s1 = Q_4_2 s) by (unfold s1; cbn; apply Q_4_2_adopt).
      rewrite Hq in Hn2.
      rewrite Hr in Hc2 |- *. cbn [fst snd] in Hc2 |- *.
      exists c2. split; [exact Hc2 | exact Hn2].
Qed.

(** C8.  For every sender state and every packet, processing the packet
    a second time right after the first leaves [unack], [current] and the
    in-flight buffer as the first processing left them; the two resulting
    objects differ at most in [count_acks], and not at all when Selective
    Repeat is off.  This holds whether or not a processing raises. *)
Theorem ACK_IN_twice_same_window (s : t) (pkt : GBN.t) :
  let s1 := state_after (ACK_IN pkt) s in
  let s2 := state_after (ACK_IN pkt) s1 in
  unack s2 = unack s1 /\ current s2 = current s1 /\ buffer s2 = buffer s1
  /\ s2 = set_count_acks (count_acks s2) s1
  /\ (Q_4_2 s <> 1 -> s2 = s1).
Proof.
  cbv zeta.
  destruct (ACK_IN_twice_core s pkt) as [c [Hc Hn]].
  rewrite Hc. cbn. repeat split.
  intros H. rewrite (Hn H). apply set_count_acks_same.
Qed.

(** ** Selective Repeat: the third identical ACK *)

Lemma ACK_IN_selective_repeat_run (s : t) (pkt : GBN.t) :
  GBN.type pkt <> 0 -> Q_4_2 s = 1 ->
  run (ACK_IN pkt) s
  = match selective_repeat (GBN.num pkt) (adopt pkt s) [] with
    | (Ret _, s', w') => (Ret ToSEND, advance pkt s', w')
    | (Raise e, s', w') => (Raise e, s', w')
    end.
Proof.
  intros Hty Hsr. unfold run. rewrite ACK_IN_run by exact Hty.
  unfold retransmit_mode. rewrite Q_4_2_adopt, Hsr. reflexivity.
Qed.

Lemma count_acks_adopt (pkt : GBN.t) (s : t) :
  count_acks (adopt pkt s) = count_acks s.
Proof.
  by_options pkt.
Qed.

Lemma buffer_adopt (pkt : GBN.t) (s : t) : buffer (adopt pkt s) = buffer s.
Proof.
  by_options pkt.
Qed.

Lemma win_adopt (pkt : GBN.t) (s : t) : win (adopt pkt s) = win s.
Proof.
  by_options pkt.
Qed.

Lemma adopt_fields (pkt : GBN.t) (s : t) :
  unack (adopt pkt s) = unack s /\ buffer (adopt pkt s) = buffer s.
Proof.
  unfold adopt. destruct (GBN.options pkt =? 0); [split; reflexivity|].
  destruct (GBN.options pkt =? 1); split; reflexivity.
Qed.

Lemma stale_state_reached :
  run_events stale_events stale_start = (Waiting, stale_state).
Proof. reflexivity. Qed.

(** C5, as stated, fails: the configuration below is reachable with
    valid arguments and has seen ACK 1 twice in a row; the next ACK 1 is
    the third identical one and brings the count to 2, yet 1 is no key of
    the buffer: nothing is retransmitted and the pair is not reset but
    left at [(2, 1)]. *)
Lemma third_ack_without_retransmission :
  valid_args 3 1 1 0
  /\ reachable stale_start (Waiting, stale_state)
  /\ Q_4_2 stale_state = 1
  /\ count_acks stale_state = (1, 1)
  /\ GBN.num (GBN.ack 1 1) = 1
  /\ sent_by (ACK_IN (GBN.ack 1 1)) stale_state = []
  /\ count_acks (state_after (ACK_IN (GBN.ack 1 1)) stale_state) = (2, 1).
Proof.
  split; [unfold valid_args; lia|].
  split; [rewrite <- stale_state_reached; apply run_events_reachable|].
  repeat split.
Qed.

(** C5, amended.  With Selective Repeat on ([Q_4_2 = 1]), an ACK
    numbered like the recorded value increments the count and any other
    ACK sets the count to 0 and records its number.  If the count is then
    below 2 nothing is sent and the pair is kept.  If it has reached 2
    and [ack] is a key of the buffer, the sender sends exactly one DATA
    segment, number [ack] with payload [buffer[ack]], and resets the pair
    to [(0, -1)]; if [ack] is not a key, the lookup raises [KeyError]:
    nothing is sent, the pair stays as just updated and [unack] and the
    buffer are not touched.  From a count of 0 or 1 the count reaches 2
    exactly when it was 1 and the ACK repeats the recorded value: the
    third identical ACK in a row. *)
Theorem selective_repeat_third_ack (s : t) (pkt : GBN.t) :
  GBN.type pkt <> 0 -> Q_4_2 s = 1 ->
  let ack := GBN.num pkt in
  let count := fst (count_acks s) in
  let value := snd (count_acks s) in
  let count' := if ack =? value then count + 1 else 0 in
  let value' := if ack =? value then value else ack in
  let s' := state_after (ACK_IN pkt) s in
  (count' < 2 ->
     result_of (ACK_IN pkt) s = Ret ToSEND
     /\ sent_by (ACK_IN pkt) s = []
     /\ count_acks s' = (count', value'))
  /\ (2 <= count' ->
      forall p, Dict.get ack (buffer s) = Some p ->
        result_of (ACK_IN pkt) s = Ret ToSEND
        /\ sent_by (ACK_IN pkt) s = [(GBN.data 0 (plen p) ack (win s), p)]
        /\ count_acks s' = (0, -1))
  /\ (2 <= count' ->
      Dict.get ack (buffer s) = None ->
        result_of (ACK_IN pkt) s = Raise KeyError
        /\ sent_by (ACK_IN pkt) s = []
        /\ count_acks s' = (count', value')
        /\ unack s' = unack s /\ buffer s' = buffer s)
  /\ (0 <= count <= 1 -> (2 <= count' <-> count = 1 /\ ack = value)).
Proof.
  intros Hty Hsr. cbv zeta.
  unfold result_of, sent_by, state_after.
  rewrite ACK_IN_selective_repeat_run by assumption.
  rewrite selective_repeat_run. cbv zeta.
  rewrite count_acks_adopt, buffer_adopt, win_adopt.
  unfold sr_counter.
  destruct (GBN.num pkt =? snd (count_acks s)) eqn:E; cbn [fst snd].
  - apply Z.eqb_eq in E. split; [|split; [|split]].
    + intros Hlt.
      replace (fst (count_acks s) + 1 >=? 2) with false
        by (symmetry; rewrite Z.geb_leb; apply Z.leb_gt; exact Hlt).
      repeat split.
    + intros Hge p Hp.
      replace (fst (count_acks s) + 1 >=? 2) with true
        by (symmetry; apply Z.geb_le; exact Hge).
      rewrite Hp. repeat split.
    + intros Hge Hp.
      replace (fst (count_acks s) + 1 >=? 2) with true
        by (symmetry; apply Z.geb_le; exact Hge).
      rewrite Hp. cbn [fst snd count_acks set_count_acks unack buffer].
      destruct (adopt_fields pkt s) as [Hu Hb].
      repeat split; assumption.
    + intros Hc. split; [intros H2; split; [lia | exact E] | intros [H1 _]; lia].
  - split; [|split; [|split]].
    + intros _. repeat split.
    + intros Hge. lia.
    + intros Hge. lia.
    + intros Hc. apply Z.eqb_neq in E. split; [lia | intros [_ H2]; contradiction].
Qed.

Lemma selective_repeat_third_ack_witness :
  GBN.type (GBN.ack 1 4) <> 0 /\ Q_4_2 sr_example = 1
  /\ sent_by (ACK_IN (GBN.ack 1 4)) sr_example
     = [(GBN.data 0 1 1 4, ["b"%byte])]
  /\ count_acks (state_after (ACK_IN (GBN.ack 1 4)) sr_example) = (0, -1)
  /\ result_of (ACK_IN (GBN.ack 1 1)) stale_state = Raise KeyError
  /\ buffer (state_after (ACK_IN (GBN.ack 1 1)) stale_state)
     = buffer stale_state.
Proof.
  assert (Hty : GBN.type (GBN.ack 1 4) <> 0) by (simpl; lia).
  assert (Hsr : Q_4_2 sr_example = 1) by reflexivity.
  destruct (selective_repeat_third_ack sr_example (GBN.ack 1 4) Hty Hsr)
    as [_ [Hfire _]].
  assert (Hc : 2 <= (if GBN.num (GBN.ack 1 4) =? snd (count_acks sr_example)
                     then fst (count_acks sr_example) + 1 else 0))
    by (simpl; lia).
  destruct (Hfire Hc ["b"%byte] eq_refl) as [_ [Hsent Hcount]].
  assert (Hty1 : GBN.type (GBN.ack 1 1) <> 0) by (simpl; lia).
  assert (Hsr1 : Q_4_2 stale_state = 1) by reflexivity.
  destruct (selective_repeat_third_ack stale_state (GBN.ack 1 1) Hty1 Hsr1)
    as [_ [_ [Hmiss _]]].
  assert (Hc1 : 2 <= (if GBN.num (GBN.ack 1 1) =? snd (count_acks stale_state)
                      then fst (count_acks stale_state) + 1 else 0))
    by (simpl; lia).
  destruct (Hmiss Hc1 eq_refl) as [Hres [_ [_ [_ Hbuf]]]].
  repeat split; assumption.
Defined.

(** ** SACK: what is retransmitted *)

(** A block whose left edge and length fit the sequence space expands
    to its modular range, split at [M_] when it wraps. *)
Lemma block_ranges_modular (M_ left length : Z) :
  0 <= left < M_ -> 0 <= length <= M_ ->
  concat (block_ranges M_ left length) = modular_range M_ (left, length).
Proof.
  intros Hl Hn. unfold block_ranges, modular_range. cbn [fst snd].
  destruct (left + length >=? M_) eqn:E.
  - apply Z.geb_le in E. cbn [concat]. rewrite app_nil_r, py_range_length.
    rewrite (@py_range_split 0 (M_ - left) length) by lia.
    rewrite map_app. f_equal.
    + rewrite <- (map_id (py_range left M_)).
      apply py_range_map_eq; [lia|]. intros i Hi.
      rewrite Z.add_0_l, Z.mod_small; lia.
    + rewrite <- (map_id (py_range 0 _)).
      apply py_range_map_eq; [lia|]. intros i Hi.
      replace (left + (M_ - left + i)) with (i + 1 * M_) by lia.
      rewrite Z.mod_add, Z.mod_small; lia.
  - rewrite Z.geb_leb in E. apply Z.leb_gt in E. cbn [concat].
    rewrite app_nil_r, <- (map_id (py_range left _)).
    apply py_range_map_eq; [lia|]. intros i Hi.
    rewrite Z.add_0_l, Z.mod_small; lia.
Qed.

Lemma flat_rec_acks_modular (M_ : Z) (pkt : GBN.t) :
  (forall b, In b (carried_blocks pkt) ->
     0 <= fst b < M_ /\ 0 <= snd b <= M_) ->
  flat_rec_acks M_ pkt = flat_map (modular_range M_) (carried_blocks pkt).
Proof.
  unfold flat_rec_acks, rec_acks, carried_blocks. intros H.
  assert (Hb : forall l n,
             In (l, n) (if GBN.blen pkt =? 1
                        then [(GBN.left_1 pkt, GBN.length_1 pkt)]
                        else if GBN.blen pkt =? 2
                        then [(GBN.left_1 pkt, GBN.length_1 pkt);
                              (GBN.left_2 pkt, GBN.length_2 pkt)]
                        else if GBN.blen pkt =? 3
                        then [(GBN.left_1 pkt, GBN.length_1 pkt);
                              (GBN.left_2 pkt, GBN.length_2 pkt);
                              (GBN.left_3 pkt, GBN.length_3 pkt)]
                        else []) ->
             concat (block_ranges M_ l n) = modular_range M_ (l, n)).
  { intros l n Hin. destruct (H _ Hin). now apply block_ranges_modular. }
  destruct (GBN.blen pkt =? 1); [|destruct (GBN.blen pkt =? 2);
    [|destruct (GBN.blen pkt =? 3); [|reflexivity]]];
    cbn [flat_map]; rewrite ?concat_app, ?app_nil_r;
    rewrite !Hb by (simpl; tauto); reflexivity.
Qed.

Lemma SACK_adopt (pkt : GBN.t) (s : t) :
  GBN.options pkt = 1 \/ (GBN.options pkt <> 0 /\ SACK s = 1) ->
  SACK (adopt pkt s) = 1.
Proof.
  unfold adopt. intros [H|[H1 H2]].
  - rewrite H. reflexivity.
  - apply Z.eqb_neq in H1. rewrite H1.
    destruct (GBN.options pkt =? 1); [reflexivity | exact H2].
Qed.

Lemma n_bits_adopt (pkt : GBN.t) (s : t) : n_bits (adopt pkt s) = n_bits s.
Proof.
  by_options pkt.
Qed.

Lemma late_sack_state_reached :
  run_events late_sack_events late_sack_start = (Waiting, late_sack_state).
Proof. reflexivity. Qed.

(** C7, as stated, fails: the configuration below is reachable with
    valid arguments in SACK mode, the SACK that arrives carries one block
    and [R = [1]], but 1 is no key of the buffer [L = [2; 3]]: there is
    no index of the last element of [R] in [L], the handler raises
    [ValueError] and retransmits nothing. *)
Lemma late_sack_has_no_final_index :
  valid_args 3 2 0 1
  /\ reachable late_sack_start (Waiting, late_sack_state)
  /\ Q_4_2 late_sack_state <> 1 /\ SACK late_sack_state = 1
  /\ GBN.type late_sack = 1 /\ GBN.options late_sack = 1
  /\ GBN.blen late_sack = 1
  /\ flat_rec_acks (2 ^ n_bits late_sack_state) late_sack = [1]
  /\ Dict.keys (buffer late_sack_state) = [2; 3]
  /\ (forall final_idx : nat,
        index_of (last (flat_rec_acks (2 ^ n_bits late_sack_state) late_sack) 0)
          (Dict.keys (buffer late_sack_state)) <> Some final_idx)
  /\ result_of (ACK_IN late_sack) late_sack_state = Raise ValueError
  /\ sent_by (ACK_IN late_sack) late_sack_state = [].
Proof.
  split; [unfold valid_args; lia|].
  split; [rewrite <- late_sack_state_reached; apply run_events_reachable|].
  split; [cbn; lia|].
  repeat (split; [reflexivity|]).
  split; [|split; reflexivity].
  intros final_idx. vm_compute. discriminate.
Qed.

(** C7, amended.  In SACK mode (Selective Repeat off, SACK adopted from
    the packet's options), on an ACK with [blen] 1, 2 or 3: let [R] be the
    flattened expansion of the carried blocks (each block its modular
    range, split at [2^n_bits] where it wraps) and [L] the buffer keys in
    insertion order.  When [R] is not empty and its last element is a key
    of the buffer, at index [final_idx] of [L], the handler returns and
    has sent, as DATA with options 1 and in [L]'s order, exactly the keys
    of [L] at indices below [final_idx] that are not in [R]; nothing at
    or beyond [final_idx] is sent.  When the last element of [R] is not a
    key the handler raises [ValueError], and when [R] is empty
    [IndexError]; in both cases nothing is sent and [unack] and the
    buffer are not touched. *)
Theorem sack_retransmits_gaps_below_last (s : t) (pkt : GBN.t) :
  let M_ := 2 ^ n_bits s in
  let R := flat_rec_acks M_ pkt in
  let L := Dict.keys (buffer s) in
  let s' := state_after (ACK_IN pkt) s in
  GBN.type pkt <> 0 ->
  Q_4_2 s <> 1 ->
  GBN.options pkt = 1 \/ (GBN.options pkt <> 0 /\ SACK s = 1) ->
  GBN.blen pkt = 1 \/ GBN.blen pkt = 2 \/ GBN.blen pkt = 3 ->
  ((forall b, In b (carried_blocks pkt) ->
      0 <= fst b < M_ /\ 0 <= snd b <= M_) ->
   R = flat_map (modular_range M_) (carried_blocks pkt))
  /\ (forall final_idx : nat,
        R <> [] -> index_of (last R 0) L = Some final_idx ->
        result_of (ACK_IN pkt) s = Ret ToSEND
        /\ sent_by (ACK_IN pkt) s
           = map (sack_segment s)
               (filter (fun k => negb (mem k R)) (firstn final_idx L)))
  /\ (R <> [] -> index_of (last R 0) L = None ->
      result_of (ACK_IN pkt) s = Raise ValueError
      /\ sent_by (ACK_IN pkt) s = []
      /\ unack s' = unack s /\ buffer s' = buffer s)
  /\ (R = [] ->
      result_of (ACK_IN pkt) s = Raise IndexError
      /\ sent_by (ACK_IN pkt) s = []
      /\ unack s' = unack s /\ buffer s' = buffer s).
Proof.
  intros M_ R L s' Hty Hsr Hopt Hblen.
  split; [apply flat_rec_acks_modular|].
  unfold s', result_of, sent_by, state_after, run.
  rewrite ACK_IN_run by exact Hty.
  unfold retransmit_mode. rewrite Q_4_2_adopt.
  apply Z.eqb_neq in Hsr. rewrite Hsr.
  rewrite (SACK_adopt pkt s Hopt). cbn [Z.eqb Pos.eqb].
  rewrite selective_ack_run. cbv zeta.
  assert (Hb : has_blocks pkt = true).
  { unfold has_blocks. destruct Hblen as [H|[H|H]]; rewrite H; reflexivity. }
  rewrite Hb, n_bits_adopt, buffer_adopt.
  fold M_ R L.
  destruct (adopt_fields pkt s) as [Hu Hbuf].
  split; [|split].
  - intros final_idx HR Hidx.
    destruct (rev_last R HR) as [r Hr]. rewrite Hr, Hidx.
    cbn [fst snd app]. split; [reflexivity|].
    unfold sack_segment. rewrite buffer_adopt, win_adopt. reflexivity.
  - intros HR Hidx.
    destruct (rev_last R HR) as [r Hr]. rewrite Hr, Hidx.
    cbn [fst snd]. repeat split; assumption.
  - intros HR. rewrite HR. cbn [rev fst snd]. repeat split; assumption.
Qed.

Lemma sack_retransmits_gaps_below_last_witness :
  flat_rec_acks (2 ^ 5) sack_example_ack = [3; 4; 6; 8; 9]
  /\ index_of 9 (Dict.keys (buffer sack_example)) = Some 7%nat
  /\ sent_by (ACK_IN sack_example_ack) sack_example
     = [(GBN.data 1 1 2 10, ["c"%byte]); (GBN.data 1 1 5 10, ["f"%byte]);
        (GBN.data 1 1 7 10, ["h"%byte])]
  /\ result_of (ACK_IN late_sack) late_sack_state = Raise ValueError
  /\ buffer (state_after (ACK_IN late_sack) late_sack_state)
     = buffer late_sack_state.
Proof.
  split; [reflexivity|]. split; [reflexivity|].
  destruct (@sack_retransmits_gaps_below_last sack_example sack_example_ack)
    as [_ [Hsome _]].
  - simpl; lia.
  - simpl; lia.
  - left; reflexivity.
  - right; right; reflexivity.
  - destruct (@sack_retransmits_gaps_below_last late_sack_state late_sack)
      as [_ [_ [Hnone _]]].
    + simpl; lia.
    + simpl; lia.
    + left; reflexivity.
    + left; reflexivity.
    + destruct (Hsome 7%nat) as [_ Hsent];
        [vm_compute; discriminate | reflexivity |].
      destruct Hnone as [Hres [_ [_ Hbuf]]];
        [vm_compute; discriminate | reflexivity |].
      split; [rewrite Hsent; reflexivity|].
      split; [exact Hres | exact Hbuf].
Defined.

(** ** Stale ACKs *)




(** ** The in-flight window *)

Lemma reordered_state_reached :
  run_events reordered_events reordered_start = (Waiting, reordered_state).
Proof. reflexivity. Qed.

(** C2, as stated, fails: after ACK 1, ACK 2 and a late copy of ACK 1
    the sender waits in SEND with [unack = 1], [current = 3] and the
    single key 2, so 1 lies in the range and is not a key. *)
Lemma late_ack_breaks_window :
  valid_args 3 1 0 0
  /\ reachable reordered_start (Waiting, reordered_state)
  /\ in_modular_range (2 ^ n_bits reordered_state) (unack reordered_state)
       (current reordered_state) 1
  /\ ~ In 1 (Dict.keys (buffer reordered_state))
  /\ ~ window_keys reordered_state.
Proof.
  assert (Hr : in_modular_range (2 ^ n_bits reordered_state)
                 (unack reordered_state) (current reordered_state) 1)
    by (unfold in_modular_range; repeat split; vm_compute;
        first [reflexivity | discriminate]).
  assert (Hn : ~ In 1 (Dict.keys (buffer reordered_state)))
    by (simpl; intros [H|[]]; discriminate).
  split; [unfold valid_args; lia|].
  split; [rewrite <- reordered_state_reached; apply run_events_reachable|].
  split; [exact Hr|]. split; [exact Hn|].
  intros Hw. apply Hn, Hw, Hr.
Qed.

(** ** The wrap-around branch of the removal loop *)

Lemma wrap_state_reached :
  run_events wrap_events wrap_start = (Waiting, wrap_state).
Proof. reflexivity. Qed.

(** C1, on the code: with [n_bits = 2] and a window of 2, ACK 1 arrives
    while 3 and 0 are in flight.  For [i = 2] the specification removes key
    [(1 - 2) mod 4 = 3]; the loop pops [1 - 2 % 2 + 4 - 1 = 4] instead, and
    key 3 stays in the buffer although it is acknowledged. *)
Theorem wrap_branch_keeps_acked_key :
  valid_args 2 2 0 0
  /\ reachable wrap_start (Waiting, wrap_state)
  /\ window_keys wrap_state
  /\ (1 - 2) mod 2 ^ n_bits wrap_state = 3
  /\ popped_keys (2 ^ n_bits wrap_state) 2 1 = [0; 4]
  /\ result_of (ACK_IN (GBN.ack 1 2)) wrap_state = Ret ToSEND
  /\ buffer (state_after (ACK_IN (GBN.ack 1 2)) wrap_state) = [(3, p3)].
Proof.
  split; [unfold valid_args; lia|].
  split; [rewrite <- wrap_state_reached; apply run_events_reachable|].
  split; [|repeat split; reflexivity].
  intros k. unfold in_modular_range. simpl.
  change (2 ^ 2) with 4.
  split.
  - intros [H|[H|[]]]; subst k; (split; [lia | vm_compute; reflexivity]).
  - intros [Hk Hm].
    assert (Hc : k = 0 \/ k = 1 \/ k = 2 \/ k = 3) by lia.
    destruct Hc as [H|[H|[H|H]]]; subst k;
      first [ left; reflexivity | right; left; reflexivity
            | exfalso; vm_compute in Hm; discriminate ].
Qed.

(** ** What SEND and ACK_IN do to an intact window *)

Lemma SEND_run (s : t) (w : list segment) :
  SEND s w
  = if Z.of_nat (length (buffer s)) <? Z.min (win s) (receiver_win s) then
      match q s with
      | payload :: rest =>
          (Ret ToSEND,
           set_current ((current s + 1) mod 2 ^ n_bits s)
             (set_buffer (Dict.set (current s) payload (buffer s))
                (set_q rest s)),
           w ++ [(GBN.data (if SACK s =? 0 then 0 else 1) (plen payload)
                           (current s) (win s), payload)])
      | [] => (if unack s =? current s then Ret ToEND else Ret Stay, s, w)
      end
    else (Ret Stay, s, w).
Proof.
  unfold SEND. unfold bind at 1, self at 1.
  destruct (_ <? _); [|reflexivity].
  destruct (q s) as [|payload rest]; [destruct (_ =? _); reflexivity|].
  reflexivity.
Qed.

Lemma modular_range_length (M_ lo n : Z) :
  length (modular_range M_ (lo, n)) = Z.to_nat n.
Proof.
  unfold modular_range. cbn [fst snd].
  rewrite length_map, py_range_length. f_equal. lia.
Qed.

Lemma modular_range_In (M_ lo n k : Z) :
  0 < M_ -> n <= M_ ->
  In k (modular_range M_ (lo, n)) <-> 0 <= k < M_ /\ (k - lo) mod M_ < n.
Proof.
  intros HM Hn. unfold modular_range. cbn [fst snd].
  rewrite in_map_iff. split.
  - intros [j [Hj Hin]]. apply In_py_range in Hin. subst k.
    split; [apply Z.mod_pos_bound; lia|].
    rewrite Zminus_mod_idemp_l.
    replace (lo + j - lo) with j by lia.
    rewrite Z.mod_small; lia.
  - intros [Hk Hlt]. exists ((k - lo) mod M_). split.
    + rewrite Zplus_mod_idemp_r.
      replace (lo + (k - lo)) with k by lia. apply Z.mod_small. lia.
    + apply In_py_range. split; [apply Z.mod_pos_bound; lia | lia].
Qed.

Lemma modular_range_snoc (M_ lo n : Z) :
  0 <= n ->
  modular_range M_ (lo, n + 1) = modular_range M_ (lo, n) ++ [(lo + n) mod M_].
Proof.
  intros Hn. unfold modular_range. cbn [fst snd].
  rewrite (@py_range_split 0 n (n + 1)) by lia.
  rewrite map_app. f_equal.
  unfold py_range. replace (Z.to_nat (n + 1 - n)) with 1%nat by lia.
  simpl. now rewrite Z.add_0_r.
Qed.

Lemma window_list_keys (s : t) :
  0 <= n_bits s -> window_list s -> window_keys s.
Proof.
  intros Hn Hl k. rewrite Hl.
  assert (HM : 0 < 2 ^ n_bits s) by (apply Z.pow_pos_nonneg; lia).
  pose proof (Z.mod_pos_bound (current s - unack s) _ HM).
  unfold in_modular_range. apply modular_range_In; lia.
Qed.

Lemma keys_set_new (k : Z) (v : payload) (d : Dict.t) :
  ~ In k (Dict.keys d) -> Dict.keys (Dict.set k v d) = Dict.keys d ++ [k].
Proof.
  induction d as [|[k' v'] d IH]; simpl; [reflexivity|].
  intros H. destruct (k =? k') eqn:E.
  - apply Z.eqb_eq in E. subst. tauto.
  - simpl. rewrite IH by tauto. reflexivity.
Qed.

Lemma SEND_keeps_window (s : t) :
  0 <= n_bits s -> win s < 2 ^ n_bits s ->
  0 <= current s < 2 ^ n_bits s ->
  window_list s ->
  let s' := state_after SEND s in
  window_list s' /\ 0 <= current s' < 2 ^ n_bits s'
  /\ n_bits s' = n_bits s /\ win s' = win s /\ unack s' = unack s.
Proof.
  intros Hn Hw Hc Hl. cbv zeta. unfold state_after, run.
  rewrite SEND_run.
  assert (HM : 0 < 2 ^ n_bits s) by (apply Z.pow_pos_nonneg; lia).
  destruct (_ <? _) eqn:Hguard; [|cbn; tauto].
  destruct (q s) as [|payload rest]; [cbn; tauto|].
  cbn [fst snd]. apply Z.ltb_lt in Hguard.
  set (M_ := 2 ^ n_bits s) in *.
  set (n := (current s - unack s) mod M_).
  assert (Hlen : Z.of_nat (length (buffer s)) = n).
  { unfold Dict.t in *. rewrite <- (length_map fst (buffer s)).
    change (map fst (buffer s)) with (Dict.keys (buffer s)).
    rewrite Hl, modular_range_length.
    pose proof (Z.mod_pos_bound (current s - unack s) _ HM). fold M_. fold n. lia. }
  assert (Hn1 : 0 <= n /\ n + 1 < M_) by lia.
  assert (Hcur : (unack s + n) mod M_ = current s).
  { unfold n. rewrite Zplus_mod_idemp_r.
    replace (unack s + (current s - unack s)) with (current s) by lia.
    apply Z.mod_small. exact Hc. }
  assert (Hnew : ~ In (current s) (Dict.keys (buffer s))).
  { rewrite Hl. fold M_. fold n. rewrite modular_range_In by lia.
    fold n. lia. }
  split; [|cbn; repeat split; try apply Z.mod_pos_bound; exact HM].
  unfold window_list. cbn. fold M_.
  rewrite keys_set_new by exact Hnew. rewrite Hl. fold M_. fold n.
  rewrite Zminus_mod_idemp_l.
  replace (current s + 1 - unack s) with ((current s - unack s) + 1) by lia.
  rewrite <- Zplus_mod_idemp_l. fold n.
  rewrite (Z.mod_small (n + 1)) by lia.
  rewrite modular_range_snoc by lia. now rewrite Hcur.
Qed.

Lemma adopt_shape (pkt : GBN.t) (s : t) :
  exists x, adopt pkt s = set_SACK x (set_receiver_win (GBN.win pkt) s).
Proof.
  unfold adopt. destruct (GBN.options pkt =? 0); [eauto|].
  destruct (GBN.options pkt =? 1); [eauto|].
  exists (SACK s). destruct s; reflexivity.
Qed.

Lemma keys_evict (M_ W ack : Z) (d : Dict.t) :
  Dict.keys (evict M_ W ack d)
  = filter (fun k => negb (mem k (popped_keys M_ W ack))) (Dict.keys d).
Proof.
  unfold evict. induction d as [|[k v] d IH]; simpl; [reflexivity|].
  destruct (negb _); simpl; now rewrite IH.
Qed.

(** The keys the loop pops: [ack-1] down to [ack-W] as far as they are
    not negative and, when the loop goes below 0, what the second branch
    computes. *)
Lemma popped_keys_exact (M_ W ack k : Z) :
  0 <= ack ->
  In k (popped_keys M_ W ack)
  <-> (0 <= k /\ ack - W <= k <= ack - 1)
      \/ (ack < W /\ (M_ + ack - W <= k <= M_ - 2 \/ k = M_ - 1 + ack)).
Proof.
  intros Hack. unfold popped_keys. rewrite in_map_iff. split.
  - intros [i [Hk Hi]]. apply In_py_range in Hi. unfold popped_key in Hk.
    destruct (ack - i >=? 0) eqn:E.
    + apply Z.geb_le in E. left. lia.
    + rewrite Z.geb_leb in E. apply Z.leb_gt in E. right.
      split; [lia|].
      destruct (Z.eq_dec i W) as [->|Hne].
      * rewrite Z_mod_same_full in Hk. right. lia.
      * rewrite Z.mod_small in Hk by lia. left. lia.
  - intros [[Hk0 Hk]|[HW [Hk|Hk]]].
    + exists (ack - k). split; [|apply In_py_range; lia].
      unfold popped_key.
      replace (ack - (ack - k) >=? 0) with true
        by (symmetry; apply Z.geb_le; lia).
      lia.
    + exists (ack + M_ - 1 - k). split; [|apply In_py_range; lia].
      unfold popped_key.
      replace (ack - (ack + M_ - 1 - k) >=? 0) with false
        by (symmetry; rewrite Z.geb_leb; apply Z.leb_gt; lia).
      rewrite Z.mod_small by lia. lia.
    + exists W. split; [|apply In_py_range; lia].
      unfold popped_key.
      replace (ack - W >=? 0) with false
        by (symmetry; rewrite Z.geb_leb; apply Z.leb_gt; lia).
      rewrite Z_mod_same_full. lia.
Qed.

(** Removing the popped keys from the keys [lo], [lo+1], ... leaves the
    keys from [ack] on, unless the loop goes below 0 after a positive
    [ack] and [M_ - 1] is among the acknowledged keys. *)
Lemma evict_modular_range (M_ W lo ack n : Z) :
  let a := (ack - lo) mod M_ in
  0 < M_ -> a <= n -> a <= W -> 0 <= ack < M_ -> W + (n - a) <= M_ ->
  (0 < ack < W -> ~ In (M_ - 1) (modular_range M_ (lo, a))) ->
  filter (fun k => negb (mem k (popped_keys M_ W ack)))
    (modular_range M_ (lo, n))
  = modular_range M_ (ack, n - a).
Proof.
  intros a HM Han HaW Hack Hfit Hlast.
  assert (Ha : 0 <= a < M_) by (apply Z.mod_pos_bound; lia).
  assert (Hq : ack - lo = M_ * ((ack - lo) / M_) + a)
    by (apply Z.div_mod; lia).
  assert (Hlast' : 0 < ack < W ->
            forall j, 0 <= j < a -> (lo + j) mod M_ <> M_ - 1).
  { intros H j Hj E. apply (Hlast H).
    unfold modular_range. cbn [fst snd]. apply in_map_iff.
    exists j. split; [exact E | apply In_py_range; lia]. }
  clear Hlast.
  unfold modular_range. cbn [fst snd].
  rewrite (@py_range_split 0 a n) by lia.
  rewrite map_app, filter_app.
  rewrite filter_none, filter_all.
  - cbn [app]. apply py_range_map_eq; [lia|]. intros i Hi.
    rewrite Z.add_0_l.
    replace (lo + (a + i)) with (ack + i + (- ((ack - lo) / M_)) * M_) by lia.
    apply Z.mod_add. lia.
  - (* the keys from [ack] on are not popped *)
    intros k Hk. apply in_map_iff in Hk. destruct Hk as [j [Hj Hin]].
    apply In_py_range in Hin. apply negb_true_iff, mem_false.
    rewrite popped_keys_exact by lia. subst k.
    destruct (Z_lt_ge_dec (ack + (j - a)) M_) as [Hlt|Hge].
    + rewrite (@mod_shift M_ (lo + j) (ack + (j - a)) (- ((ack - lo) / M_)));
        lia.
    + rewrite (@mod_shift M_ (lo + j) (ack + (j - a) - M_)
                 (1 - (ack - lo) / M_)); lia.
  - (* the acknowledged keys are popped *)
    intros k Hk. apply in_map_iff in Hk. destruct Hk as [j [Hj Hin]].
    apply In_py_range in Hin. apply negb_false_iff, mem_In.
    rewrite popped_keys_exact by lia.
    destruct (Z_le_gt_dec (a - j) ack) as [Hle|Hgt].
    + assert (E : (lo + j) mod M_ = ack - (a - j))
        by (apply (@mod_shift M_ (lo + j) (ack - (a - j))
                     (- ((ack - lo) / M_))); lia).
      subst k. rewrite E. left. lia.
    + assert (E : (lo + j) mod M_ = ack - (a - j) + M_)
        by (apply (@mod_shift M_ (lo + j) (ack - (a - j) + M_)
                     (- ((ack - lo) / M_) - 1)); lia).
      subst k. rewrite E. right. split; [lia|].
      destruct (Z.eq_dec ack 0) as [H0|Hpos]; [lia|].
      assert (Hne : (lo + j) mod M_ <> M_ - 1)
        by (apply Hlast'; lia).
      rewrite E in Hne. left. lia.
Qed.

Lemma SEND_adds_current (s : t) :
  0 <= n_bits s -> window_list s ->
  result_of SEND s = Ret ToSEND ->
  let s' := state_after SEND s in
  Dict.keys (buffer s') = Dict.keys (buffer s) ++ [current s]
  /\ current s' = (current s + 1) mod 2 ^ n_bits s.
Proof.
  intros Hn Hl. cbv zeta. unfold result_of, state_after, run.
  rewrite SEND_run.
  destruct (_ <? _); [|discriminate].
  destruct (q s) as [|payload rest];
    [destruct (_ =? _); discriminate|].
  intros _. cbn. split; [|reflexivity].
  apply keys_set_new. rewrite Hl.
  assert (HM : 0 < 2 ^ n_bits s) by (apply Z.pow_pos_nonneg; lia).
  pose proof (Z.mod_pos_bound (current s - unack s) _ HM).
  rewrite modular_range_In by lia. lia.
Qed.

Lemma ACK_IN_restores_window (s : t) (pkt : GBN.t) :
  let M_ := 2 ^ n_bits s in
  let ack := GBN.num pkt in
  let W := GBN.win pkt in
  let acked := (ack - unack s) mod M_ in
  let in_flight := (current s - unack s) mod M_ in
  0 <= n_bits s -> window_list s -> GBN.type pkt <> 0 ->
  acked <= in_flight -> acked <= W -> 0 <= ack < M_ ->
  W + (in_flight - acked) <= M_ ->
  (0 < ack < W -> ~ In (M_ - 1) (modular_range M_ (unack s, acked))) ->
  let s' := state_after (ACK_IN pkt) s in
  window_list s'
  /\ (result_of (ACK_IN pkt) s = Ret ToSEND -> unack s' = ack)
  /\ current s' = current s /\ n_bits s' = n_bits s.
Proof.
  intros M_ ack W acked in_flight Hn Hl Hty Hle HaW Hack Hfit Hlast.
  cbv zeta. unfold result_of, state_after, run.
  rewrite ACK_IN_run by exact Hty.
  destruct (retransmit_mode_frame pkt (adopt pkt s) []) as [c [Hc _]].
  destruct (adopt_shape pkt s) as [x Hx].
  assert (HM : 0 < M_) by (apply Z.pow_pos_nonneg; lia).
  destruct (retransmit_mode pkt (adopt pkt s) []) as [[[u|e] a'] w'];
    cbn [fst snd] in Hc |- *; subst a'; rewrite Hx.
  - split; [|cbn; auto].
    unfold window_list, advance.
    cbn [buffer unack current n_bits receiver_win set_buffer set_unack
         set_count_acks set_SACK set_receiver_win].
    rewrite keys_evict, Hl.
    fold M_ ack W. fold in_flight.
    rewrite evict_modular_range by assumption. fold acked.
    f_equal. f_equal.
    assert (Hq : ack - unack s = M_ * ((ack - unack s) / M_) + acked)
      by (apply Z.div_mod; lia).
    assert (Hr : current s - unack s
                 = M_ * ((current s - unack s) / M_) + in_flight)
      by (apply Z.div_mod; lia).
    assert (Ha : 0 <= acked < M_) by (apply Z.mod_pos_bound; exact HM).
    assert (Hi : 0 <= in_flight < M_) by (apply Z.mod_pos_bound; exact HM).
    clearbody acked in_flight M_. symmetry.
    apply (@mod_shift M_ (current s - ack) (in_flight - acked)
             ((current s - unack s) / M_ - (ack - unack s) / M_)); lia.
  - split; [exact Hl|]. split; [discriminate|]. cbn. auto.
Qed.

(** C2, amended.  Let the buffer keys be, in insertion order, [unack],
    [unack+1], ..., [current-1] modulo [2^n_bits].  Then SEND keeps them
    so, and when it sends it adds the key [current] at the end and
    advances [current].  ACK_IN keeps them so, with [unack = ack] when it
    returns, for an ACK whose number is a sequence number between [unack]
    and [current], that acknowledges at most [W] segments ([W] the window
    it carries) and whose window [W] together with the segments still in
    flight fits the sequence space; the one case left out is a removal
    loop that goes below 0 after a positive [ack] ([0 < ack < W]) while
    the key [2^n_bits - 1] is among the acknowledged ones.  In both cases
    the keys are also, as a set, exactly the range from [unack] to
    [current]. *)
Theorem window_kept_by_SEND_and_fresh_ACK (s : t) :
  0 <= n_bits s -> win s < 2 ^ n_bits s ->
  0 <= current s < 2 ^ n_bits s ->
  window_list s ->
  (let s' := state_after SEND s in
   window_list s' /\ window_keys s'
   /\ (result_of SEND s = Ret ToSEND ->
       Dict.keys (buffer s') = Dict.keys (buffer s) ++ [current s]
       /\ current s' = (current s + 1) mod 2 ^ n_bits s))
  /\ (forall pkt : GBN.t,
        let M_ := 2 ^ n_bits s in
        let ack := GBN.num pkt in
        let W := GBN.win pkt in
        let acked := (ack - unack s) mod M_ in
        let in_flight := (current s - unack s) mod M_ in
        GBN.type pkt <> 0 ->
        acked <= in_flight -> acked <= W -> 0 <= ack < M_ ->
        W + (in_flight - acked) <= M_ ->
        (0 < ack < W ->
         ~ In (M_ - 1) (modular_range M_ (unack s, acked))) ->
        let s' := state_after (ACK_IN pkt) s in
        window_list s' /\ window_keys s'
        /\ (result_of (ACK_IN pkt) s = Ret ToSEND -> unack s' = ack)).
Proof.
  intros Hn Hw Hc Hl. split.
  - cbv zeta.
    destruct (SEND_keeps_window s Hn Hw Hc Hl) as [Hl' [_ [Hn' _]]].
    split; [exact Hl'|]. split.
    + apply window_list_keys; [rewrite Hn'; exact Hn | exact Hl'].
    + intros Hr. now apply SEND_adds_current.
  - intros pkt M_ ack W acked in_flight Hty Hle HaW Hack Hfit Hlast.
    cbv zeta.
    destruct (@ACK_IN_restores_window s pkt Hn Hl Hty Hle HaW Hack Hfit
                Hlast) as [Hl' [Hu [_ Hn']]].
    split; [exact Hl'|]. split; [|exact Hu].
    apply window_list_keys; [rewrite Hn'; exact Hn | exact Hl'].
Qed.

Lemma window_kept_by_SEND_and_fresh_ACK_witness :
  window_list window_example
  /\ Dict.keys (buffer (state_after (ACK_IN (GBN.ack 3 2)) window_example)) = [3]
  /\ window_keys (state_after (ACK_IN (GBN.ack 3 2)) window_example)
  /\ unack (state_after (ACK_IN (GBN.ack 3 2)) window_example) = 3
  /\ Dict.keys (buffer (state_after (ACK_IN (GBN.ack 3 4)) window_example)) = [3]
  /\ window_list (state_after (ACK_IN (GBN.ack 3 4)) window_example)
  /\ unack (state_after (ACK_IN (GBN.ack 3 4)) window_example) = 3.
Proof.
  assert (Hl : window_list window_example) by reflexivity.
  assert (Hn : 0 <= n_bits window_example) by (simpl; lia).
  assert (Hw : win window_example < 2 ^ n_bits window_example)
    by (vm_compute; reflexivity).
  assert (Hc : 0 <= current window_example < 2 ^ n_bits window_example)
    by (split; vm_compute; [discriminate | reflexivity]).
  destruct (@window_kept_by_SEND_and_fresh_ACK window_example Hn Hw Hc Hl)
    as [_ Hack].
  split; [exact Hl|].
  destruct (Hack (GBN.ack 3 2)) as [_ [Hk Hu]].
  - simpl; lia.
  - vm_compute; discriminate.
  - vm_compute; discriminate.
  - split; vm_compute; [discriminate | reflexivity].
  - vm_compute; discriminate.
  - cbn [GBN.num GBN.win GBN.ack]. lia.
  - destruct (Hack (GBN.ack 3 4)) as [Hl4 [_ Hu4]].
    + simpl; lia.
    + vm_compute; discriminate.
    + vm_compute; discriminate.
    + split; vm_compute; [discriminate | reflexivity].
    + vm_compute; discriminate.
    + intros _. vm_compute. intros [H|[]]. discriminate H.
    + split; [reflexivity|]. split; [exact Hk|].
      split; [apply Hu; reflexivity|].
      split; [reflexivity|]. split; [exact Hl4|].
      apply Hu4. reflexivity.
Defined.

End SenderFacts.

(** * Properties of the receiver *)
Module ReceiverFacts.
Import Receiver ReceiverSpec PyFacts.

(** ** Running the automaton stays within the reachable configurations *)

Lemma receive_reachable (c0 : config) (seg : segment) (c c' : config) :
  reachable c0 c -> receive seg (Some c) = Some c' -> reachable c0 c'.
Proof.
  intros Hr. destruct c as [[|] r]; unfold receive;
    [|intros [= <-]; exact Hr].
  destruct (_ && _) eqn:Hwf; [|intros; discriminate].
  destruct (DATA_IN seg false false r) as [[[g r'] sent]|] eqn:E;
    [|intros; discriminate].
  intros [= <-]. eapply reach_step; [exact Hr|].
  eapply step_packet_in; [|exact E].
  apply andb_true_iff in Hwf. destruct Hwf as [H1 H2].
  apply Z.leb_le in H1. apply Z.ltb_lt in H2. split; assumption.
Qed.

Lemma run_segments_reachable (c0 : config) (segs : list segment) (c : config) :
  run_segments segs c0 = Some c -> reachable c0 c.
Proof.
  unfold run_segments.
  assert (H : forall (o : option config),
             (forall c1, o = Some c1 -> reachable c0 c1) ->
             fold_left (fun c seg => receive seg c) segs o = Some c ->
             reachable c0 c).
  { induction segs as [|seg segs IH]; intros o Ho; simpl; [apply Ho|].
    apply IH. intros c1 Hc1. destruct o as [c2|]; [|discriminate].
    eapply receive_reachable; [apply Ho; reflexivity | exact Hc1]. }
  apply H. intros c1 [= <-]. constructor.
Qed.

(** ** The receive window *)

(** The [for] loop is stopped by its index, never by its fuel: with the
    length of [buffer_seq] as fuel, more fuel changes nothing. *)
Lemma for_zip_fuel_enough (fuel extra : nat) :
  forall (i : nat) (r : t),
    (length (buffer_seq r) <= i + fuel)%nat ->
    for_zip (fuel + extra) i r = for_zip fuel i r.
Proof.
  induction fuel as [|fuel IH]; intros i r Hlen.
  - destruct extra as [|extra]; [reflexivity|]. cbn [Nat.add for_zip].
    rewrite (proj2 (nth_error_None (buffer_seq r) i)) by lia. reflexivity.
  - cbn [Nat.add for_zip].
    destruct (nth_error (buffer_seq r) i) as [itemSeq|]; [|reflexivity].
    destruct (nth_error (buffer r) i) as [item|]; [|reflexivity].
    destruct (itemSeq =? next r); apply IH; [|lia].
    unfold deliver.
    cbn [write set_buffer_size set_buffer set_buffer_seq set_next
         buffer buffer_seq buffer_size next n_bits win].
    destruct (mem itemSeq (buffer_seq r));
      cbn [write set_buffer_size set_buffer set_buffer_seq set_next
           buffer_seq].
    + pose proof (remove_first_length_le Z.eqb itemSeq (buffer_seq r)). lia.
    + lia.
Qed.

Lemma deliver_buffered (r : t) (i : nat) (item : payload) :
  buffered 1 r ->
  nth_error (buffer_seq r) i = Some (next r) ->
  nth_error (buffer r) i = Some item ->
  let r' := deliver (next r) item r in
  buffered 1 r'
  /\ S (length (buffer_seq r')) = length (buffer_seq r)
  /\ n_bits r' = n_bits r /\ win r' = win r.
Proof.
  intros [Hnext Hal Hsz Hnd Hwin] Hseq Hbuf. cbv zeta.
  assert (Hin : In (next r) (buffer_seq r)) by (eapply nth_error_In; eauto).
  assert (Hitem : In item (buffer r)) by (eapply nth_error_In; eauto).
  unfold deliver.
  cbn [write set_buffer_size set_buffer set_buffer_seq set_next
       buffer buffer_seq buffer_size next n_bits win].
  rewrite (proj2 (mem_In _ _) Hin).
  cbn [write set_buffer_size set_buffer set_buffer_seq set_next
       buffer buffer_seq buffer_size next n_bits win].
  assert (HM : 0 < 2 ^ n_bits r) by lia.
  pose proof (remove_first_length Z.eqb (next r) (buffer_seq r)
                (Z.eqb_refl _) Hin) as Hlen.
  pose proof (remove_first_length payload_eqb item (buffer r)
                (payload_eqb_refl _) Hitem) as Hlenb.
  destruct (remove_first_NoDup (next r) (buffer_seq r) Hnd) as [Hnd' Hout].
  split; [|auto]. constructor;
    cbn [write set_buffer_size set_buffer set_buffer_seq set_next
         buffer buffer_seq buffer_size next n_bits win].
  - apply Z.mod_pos_bound. exact HM.
  - lia.
  - lia.
  - exact Hnd'.
  - intros k Hk.
    assert (Hk0 : In k (buffer_seq r)) by (eapply remove_first_In; eauto).
    destruct (Hwin k Hk0) as [Hkr Hd]. split; [exact Hkr|].
    assert (Hne : k <> next r) by (intros ->; tauto).
    assert (Hd1 : 1 <= (k - next r) mod 2 ^ n_bits r).
    { destruct (Z.eq_dec ((k - next r) mod 2 ^ n_bits r) 0) as [H0|H0]; [|lia].
      exfalso. apply Hne. eapply dist_zero; eauto. }
    rewrite dist_pred by assumption. lia.
Qed.

Lemma for_zip_buffered (fuel : nat) :
  forall (i : nat) (r : t),
    buffered 1 r ->
    let r' := for_zip fuel i r in
    buffered 1 r'
    /\ (length (buffer_seq r') <= length (buffer_seq r))%nat
    /\ n_bits r' = n_bits r /\ win r' = win r
    /\ ((exists j, (i <= j < i + fuel)%nat
                   /\ nth_error (buffer_seq r) j = Some (next r)) ->
        (length (buffer_seq r') < length (buffer_seq r))%nat).
Proof.
  induction fuel as [|fuel IH]; intros i r Hb; cbv zeta.
  - simpl. split; [exact Hb|]. split; [lia|].
    split; [reflexivity|]. split; [reflexivity|].
    intros [j [Hj _]]. lia.
  - cbn [for_zip].
    destruct (nth_error (buffer_seq r) i) as [itemSeq|] eqn:Eseq.
    + destruct (nth_error (buffer r) i) as [item|] eqn:Ebuf.
      * destruct (itemSeq =? next r) eqn:E.
        -- apply Z.eqb_eq in E. subst itemSeq.
           destruct (deliver_buffered r i item Hb Eseq Ebuf)
             as [Hb1 [Hlen [Hn Hw]]].
           destruct (IH (S i) _ Hb1) as [Hb' [Hle [Hn' [Hw' _]]]].
           split; [exact Hb'|]. split; [lia|].
           split; [congruence|]. split; [congruence|]. intros _. lia.
        -- destruct (IH (S i) r Hb) as [Hb' [Hle [Hn' [Hw' Hp]]]].
           split; [exact Hb'|]. split; [exact Hle|].
           split; [exact Hn'|]. split; [exact Hw'|].
           intros [j [Hj Hnth]]. apply Hp.
           exists j. split; [|exact Hnth].
           assert (j <> i) by (intros ->; rewrite Eseq in Hnth;
                               injection Hnth as ->; rewrite Z.eqb_refl in E;
                               discriminate).
           lia.
      * exfalso. apply nth_error_None in Ebuf.
        assert (i < length (buffer_seq r))%nat
          by (apply nth_error_Some; congruence).
        pose proof (aligned _ _ Hb). lia.
    + split; [exact Hb|]. split; [lia|].
      split; [reflexivity|]. split; [reflexivity|].
      intros [j [Hj Hnth]].
      apply nth_error_None in Eseq.
      assert (j < length (buffer_seq r))%nat
        by (apply nth_error_Some; congruence).
      lia.
Qed.

Lemma drain_buffered (fuel : nat) :
  forall r : t,
    buffered 1 r -> (length (buffer_seq r) < fuel)%nat ->
    exists r', drain fuel r = Some r'
               /\ buffered 1 r' /\ ~ In (next r') (buffer_seq r')
               /\ n_bits r' = n_bits r /\ win r' = win r.
Proof.
  induction fuel as [|fuel IH]; intros r Hb Hfuel; [lia|].
  cbn [drain].
  destruct ((buffer_size r >? 0) && mem (next r) (buffer_seq r)) eqn:E.
  - apply andb_true_iff in E. destruct E as [_ Hm].
    apply mem_In in Hm.
    destruct (In_nth_error _ _ Hm) as [j Hj].
    assert (Hjlt : (j < length (buffer_seq r))%nat)
      by (apply nth_error_Some; congruence).
    destruct (for_zip_buffered (length (buffer_seq r)) 0 r Hb)
      as [Hb1 [_ [Hn [Hw Hp]]]].
    assert (Hlt : (length (buffer_seq (for_zip (length (buffer_seq r)) 0 r))
                   < length (buffer_seq r))%nat).
    { apply Hp. exists j. split; [lia | exact Hj]. }
    destruct (IH _ Hb1) as [r' [Hd [Hb' [Hout [Hn' Hw']]]]]; [lia|].
    exists r'. split; [exact Hd|]. split; [exact Hb'|].
    split; [exact Hout|]. split; congruence.
  - exists r. split; [reflexivity|]. split; [exact Hb|].
    split; [|split; reflexivity].
    apply andb_false_iff in E. destruct E as [E|E].
    + rewrite (sized _ _ Hb) in E.
      destruct (buffer_seq r); [tauto|].
      simpl length in E. rewrite Z.gtb_ltb in E. apply Z.ltb_ge in E. lia.
    + apply mem_false. exact E.
Qed.

Lemma buffered_after_drain (r : t) :
  buffered 1 r -> ~ In (next r) (buffer_seq r) -> buffered 0 r.
Proof.
  intros [Hnext Hal Hsz Hnd Hwin] Hout. constructor; auto.
  intros k Hk. destruct (Hwin k Hk) as [Hkr Hd]. split; [exact Hkr|].
  assert ((k - next r) mod 2 ^ n_bits r <> 0).
  { intros H0. apply Hout. rewrite <- (dist_zero _ k (next r) Hkr Hnext H0).
    exact Hk. }
  lia.
Qed.

Lemma in_order_buffered (payload : payload) (r : t) :
  buffered 0 r ->
  exists r', in_order payload r = Some r' /\ buffered 0 r'
             /\ n_bits r' = n_bits r /\ win r' = win r.
Proof.
  intros [Hnext Hal Hsz Hnd Hwin]. unfold in_order. cbv zeta.
  set (r2 := set_next ((next (write payload r) + 1)
                       mod 2 ^ n_bits (write payload r)) (write payload r)).
  assert (HM : 0 < 2 ^ n_bits r) by lia.
  assert (Hb2 : buffered 1 r2).
  { constructor; cbn; auto.
    - apply Z.mod_pos_bound. exact HM.
    - intros k Hk. destruct (Hwin k Hk) as [Hkr Hd]. split; [exact Hkr|].
      rewrite dist_pred by lia. lia. }
  destruct (drain_buffered (S (Z.to_nat (buffer_size r2))) r2 Hb2)
    as [r' [Hd [Hb' [Hout [Hn Hw]]]]].
  { rewrite (sized _ _ Hb2). lia. }
  exists r'. split; [exact Hd|]. split; [|split; assumption].
  now apply buffered_after_drain.
Qed.

Lemma out_of_order_buffered (num : Z) (payload : payload) (r : t) :
  buffered 0 r -> win r <= 2 ^ n_bits r ->
  0 <= num < 2 ^ n_bits r -> num <> next r ->
  buffered 0 (out_of_order num payload r).
Proof.
  intros Hb HwM Hnum Hne. pose proof Hb as [Hnext Hal Hsz Hnd Hwin].
  unfold out_of_order. cbv zeta.
  destruct (_ && _) eqn:Hacc; [|exact Hb].
  destruct (negb _) eqn:Hnew; [|exact Hb].
  apply negb_true_iff, mem_false in Hnew.
  apply andb_true_iff in Hacc. destruct Hacc as [Hhi Hlo].
  apply Z.geb_le in Hhi. apply Z.geb_le in Hlo.
  constructor; cbn; auto.
  - rewrite !length_app. simpl. lia.
  - rewrite Hsz, length_app. simpl. lia.
  - apply NoDup_app; [exact Hnd | repeat constructor; tauto |].
    intros k Hk [<-|[]]. tauto.
  - intros k Hk. apply in_app_or in Hk. destruct Hk as [Hk|[<-|[]]]; [auto|].
    split; [exact Hnum|].
    destruct (num <? next r) eqn:Hlt.
    + apply Z.ltb_lt in Hlt.
      rewrite (mod_shift _ (num - next r)
                 (num - next r + 2 ^ n_bits r) (-1)); lia.
    + apply Z.ltb_ge in Hlt. rewrite Z.mod_small; lia.
Qed.

Lemma buffered_set_end (shift : Z) (b : bool) (x : Z) (r : t) :
  buffered shift r -> buffered shift (set_end b x r).
Proof. intros [? ? ? ? ?]. constructor; assumption. Qed.

Lemma DATA_IN_buffered (seg : segment) (data_lost ack_lost : bool) (r : t) :
  buffered 0 r -> win r <= 2 ^ n_bits r -> well_formed r seg ->
  exists g r' sent,
    DATA_IN seg data_lost ack_lost r = Some (g, r', sent)
    /\ buffered 0 r' /\ n_bits r' = n_bits r /\ win r' = win r.
Proof.
  intros Hb HwM Hwf. unfold DATA_IN. cbv zeta.
  destruct data_lost; [eauto 10|].
  destruct (GBN.type (fst seg) =? 0); [|eauto 10].
  set (r1 := if plen (snd seg) <? p_size r
             then set_end true ((GBN.num (fst seg) + 1) mod 2 ^ n_bits r) r
             else r).
  assert (Hb1 : buffered 0 r1)
    by (unfold r1; destruct (_ <? _); [apply buffered_set_end|]; exact Hb).
  assert (Hn1 : n_bits r1 = n_bits r) by (unfold r1; destruct (_ <? _); reflexivity).
  assert (Hw1 : win r1 = win r) by (unfold r1; destruct (_ <? _); reflexivity).
  destruct (GBN.num (fst seg) =? next r1) eqn:E.
  - destruct (in_order_buffered (snd seg) r1 Hb1) as [r' [Hio [Hb' [Hn Hw]]]].
    rewrite Hio. destruct ack_lost; do 3 eexists;
      (split; [reflexivity|]); (split; [exact Hb'|]); split; congruence.
  - apply Z.eqb_neq in E.
    assert (Hb' : buffered 0 (out_of_order (GBN.num (fst seg)) (snd seg) r1)).
    { apply out_of_order_buffered; try assumption; rewrite ?Hn1, ?Hw1; assumption. }
    assert (Hf : n_bits (out_of_order (GBN.num (fst seg)) (snd seg) r1) = n_bits r1
                 /\ win (out_of_order (GBN.num (fst seg)) (snd seg) r1) = win r1).
    { unfold out_of_order. cbv zeta.
      destruct (_ && _); [destruct (negb _)|]; split; reflexivity. }
    destruct Hf as [Hn Hw].
    destruct ack_lost; do 3 eexists;
      (split; [reflexivity|]); (split; [exact Hb'|]); split; congruence.
Qed.

Lemma reachable_buffered (nbits window chunk_size : Z) (c : config) :
  valid_args nbits window ->
  reachable (BEGIN nbits window chunk_size) c ->
  buffered 0 (snd c) /\ n_bits (snd c) = nbits /\ win (snd c) = window.
Proof.
  intros [Hn Hw] Hr. induction Hr as [|c c' Hr IH Hstep].
  - simpl. split; [|auto]. constructor; simpl; try tauto.
    + split; [lia|]. apply Z.pow_pos_nonneg; lia.
    + constructor.
  - destruct IH as [Hb [Hnb Hwin]].
    destruct Hstep as [r seg dl al g r' sent Hwf HD]. simpl in *.
    destruct (DATA_IN_buffered seg dl al r Hb) as [g2 [r2 [sent2 [HD2 [Hb2 [Hn2 Hw2]]]]]];
      [rewrite Hnb, Hwin; exact Hw | exact Hwf |].
    rewrite HD in HD2. injection HD2 as -> -> ->.
    split; [exact Hb2|]. split; congruence.
Qed.

(** C3.  In every reachable receiver state (segments carry sequence
    numbers, arguments pass [parse_args]) each buffered number [k] has
    [1 <= (k - next) mod 2^n_bits <= win - 1], and [next] is not
    buffered.  From such a state the handler returns on every segment,
    lost or not, in order (drain included) or out of order, and the
    state it leaves satisfies the same. *)
Theorem out_of_order_buffer_within_window
  (nbits window chunk_size : Z) (g : goto) (r : t) :
  valid_args nbits window ->
  reachable (BEGIN nbits window chunk_size) (g, r) ->
  (forall k, In k (buffer_seq r) ->
     1 <= (k - next r) mod 2 ^ nbits <= window - 1)
  /\ ~ In (next r) (buffer_seq r)
  /\ (forall seg data_lost ack_lost,
        well_formed r seg ->
        exists g' r' sent,
          DATA_IN seg data_lost ack_lost r = Some (g', r', sent)
          /\ (forall k, In k (buffer_seq r') ->
                1 <= (k - next r') mod 2 ^ nbits <= window - 1)
          /\ ~ In (next r') (buffer_seq r')).
Proof.
  intros Hv Hr.
  assert (Hkeys : forall r0 : t,
            buffered 0 r0 -> n_bits r0 = nbits -> win r0 = window ->
            (forall k, In k (buffer_seq r0) ->
               1 <= (k - next r0) mod 2 ^ nbits <= window - 1)
            /\ ~ In (next r0) (buffer_seq r0)).
  { intros r0 Hb Hn Hw. split.
    - intros k Hk. destruct (in_window _ _ Hb k Hk) as [_ Hd].
      rewrite Hn, Hw in Hd. lia.
    - intros Hin. destruct (in_window _ _ Hb _ Hin) as [_ Hd].
      rewrite Z.sub_diag, Z.mod_0_l in Hd; [lia|].
      pose proof (next_in_range _ _ Hb). lia. }
  destruct (reachable_buffered nbits window chunk_size (g, r) Hv Hr)
    as [Hb [Hn Hw]]. simpl in Hb, Hn, Hw.
  destruct (Hkeys r Hb Hn Hw) as [H1 H2].
  split; [exact H1|]. split; [exact H2|].
  intros seg dl al Hwf.
  destruct (DATA_IN_buffered seg dl al r Hb) as [g' [r' [sent [HD [Hb' [Hn' Hw']]]]]];
    [rewrite Hn, Hw; apply Hv | exact Hwf |].
  exists g', r', sent. split; [exact HD|].
  apply Hkeys; congruence.
Qed.

Lemma gap_state_reached :
  run_segments [data_segment 0 0 (chunk "a"); data_segment 0 2 (chunk "c")]
    (BEGIN 3 4 64)
  = Some (WAIT_SEGMENT, gap_state).
Proof. vm_compute. reflexivity. Qed.

Lemma out_of_order_buffer_within_window_witness :
  valid_args 3 4
  /\ (forall k, In k (buffer_seq gap_state) ->
        1 <= (k - next gap_state) mod 2 ^ 3 <= 4 - 1)
  /\ ~ In (next gap_state) (buffer_seq gap_state).
Proof.
  assert (Hv : valid_args 3 4) by (unfold valid_args; lia).
  assert (Hr : reachable (BEGIN 3 4 64) (WAIT_SEGMENT, gap_state))
    by (apply (run_segments_reachable _ _ _ gap_state_reached)).
  destruct (out_of_order_buffer_within_window 3 4 64 WAIT_SEGMENT gap_state Hv Hr)
    as [H1 [H2 _]].
  split; [exact Hv|]. split; [exact H1 | exact H2].
Defined.

(** ** The drain and equal payloads *)

Lemma twin_state_reached :
  run_segments
    [data_segment 0 0 (chunk "0"); data_segment 0 3 (chunk "A");
     data_segment 0 4 (chunk "B"); data_segment 0 2 (chunk "A")]
    (BEGIN 3 5 64)
  = Some (WAIT_SEGMENT, twin_state).
Proof. vm_compute. reflexivity. Qed.

(** C6, on the code: in the state above 2, 3 and 4 are buffered with
    the chunks A, A and B.  When segment 1 arrives the drain writes A for
    2, then removes the first payload equal to A, which is the one stored
    for 3; the lists no longer correspond, and it writes B for 3 and A for
    4.  The run delivered is not the buffered run in sequence order. *)
Theorem drain_removes_payload_by_value :
  valid_args 3 5
  /\ reachable (BEGIN 3 5 64) (WAIT_SEGMENT, twin_state)
  /\ combine (buffer_seq twin_state) (buffer twin_state)
     = [(3, chunk "A"); (4, chunk "B"); (2, chunk "A")]
  /\ exists g r' sent,
       DATA_IN (data_segment 0 1 (chunk "1")) false false twin_state
       = Some (g, r', sent)
       /\ next r' = 5 /\ buffer_seq r' = []
       /\ out_file r'
          = [chunk "0"; chunk "1"; chunk "A"; chunk "B"; chunk "A"]
       /\ out_file r'
          <> [chunk "0"; chunk "1"; chunk "A"; chunk "A"; chunk "B"].
Proof.
  split; [unfold valid_args; lia|].
  split; [apply (run_segments_reachable _ _ _ twin_state_reached)|].
  split; [reflexivity|].
  do 3 eexists. split; [vm_compute; reflexivity|].
  split; [reflexivity|]. split; [reflexivity|]. split; [reflexivity|].
  vm_compute. discriminate.
Qed.

(** ** SACK blocks across the wrap *)

Lemma wrap_gap_state_reached :
  run_segments
    [data_segment 1 0 (chunk "0"); data_segment 1 1 (chunk "1");
     data_segment 1 2 (chunk "2"); data_segment 1 3 (chunk "3");
     data_segment 1 4 (chunk "4"); data_segment 1 5 (chunk "5");
     data_segment 1 7 (chunk "7")]
    (BEGIN 3 6 64)
  = Some (WAIT_SEGMENT, wrap_gap_state).
Proof. vm_compute. reflexivity. Qed.

(** C4, on the code: with 7 buffered and 6 expected, segment 2 arrives
    (0 and 1 are still missing).  The ordered list is [7; 2]; 2 is not
    [(7 + 1) mod 8], so the specification splits here, but the test
    [a != 2**n_bits - 1] fails for every successor of 7 and not only for
    0.  The receiver sends one block, left 7 of length 4, which reports 0
    and 1 as received. *)
Theorem sack_no_split_after_last_number :
  valid_args 3 6
  /\ reachable (BEGIN 3 6 64) (WAIT_SEGMENT, wrap_gap_state)
  /\ exists g r' sent,
       DATA_IN (data_segment 1 2 (chunk "2")) false false wrap_gap_state
       = Some (g, r', sent)
       /\ next r' = 6
       /\ sorted_buffer_seq r' = [7; 2]
       /\ 2 <> (7 + 1) mod 2 ^ n_bits r'
       /\ is_split (2 ^ n_bits r') 7 2 = false
       /\ ranges (2 ^ n_bits r') (sorted_buffer_seq r') = []
       /\ sent = [(GBN.sack 9 6 6 1 7 4 0 0 0 0, [])].
Proof.
  split; [unfold valid_args; lia|].
  split; [apply (run_segments_reachable _ _ _ wrap_gap_state_reached)|].
  do 3 eexists. split; [vm_compute; reflexivity|].
  split; [reflexivity|]. split; [reflexivity|].
  split; [vm_compute; discriminate|].
  repeat split; reflexivity.
Qed.

End ReceiverFacts.

(** * Segments of the wrong type *)
Module Endpoints.

(** C9.  A sender handed a segment of type DATA, and a receiver handed
    a segment of type ACK that was not dropped by the loss test, only
    log: the handler returns to SEND, respectively WAIT_SEGMENT, with the
    whole object unchanged (so [unack], [current] and the buffer,
    respectively [next], the out-of-order lists and the end-of-stream
    fields) and nothing is sent. *)
Theorem wrong_type_is_discarded
  (s : Sender.t) (pkt : GBN.t) (r : Receiver.t) (seg : segment)
  (ack_lost : bool) :
  GBN.type pkt = 0 ->
  GBN.type (fst seg) <> 0 ->
  Sender.run (Sender.ACK_IN pkt) s = (Ret Sender.ToSEND, s, [])
  /\ Receiver.DATA_IN seg false ack_lost r
     = Some (Receiver.WAIT_SEGMENT, r, []).
Proof.
  intros Hd Ha. split.
  - unfold Sender.run. now apply SenderFacts.ACK_IN_data.
  - unfold Receiver.DATA_IN. cbv zeta.
    apply Z.eqb_neq in Ha. now rewrite Ha.
Qed.

Lemma wrong_type_is_discarded_witness :
  Sender.run (Sender.ACK_IN (GBN.data 0 1 3 4)) SenderSpec.sr_example
  = (Ret Sender.ToSEND, SenderSpec.sr_example, [])
  /\ Receiver.DATA_IN (GBN.ack 1 4, []) false false ReceiverSpec.gap_state
     = Some (Receiver.WAIT_SEGMENT, ReceiverSpec.gap_state, []).
Proof.
  apply wrong_type_is_discarded.
  - reflexivity.
  - simpl. lia.
Defined.

End Endpoints.

(** * The header layout *)
Module LayoutFacts.
Import Layout.

Lemma header_bits_in_range (h : Z) :
  6 <= h <= 15 -> header_bits h = 8 * h.
Proof.
  intros Hh. unfold header_bits, fields_desc, present.
  cbn [filter snd fst fold_right].
  repeat match goal with
         | |- context [h >=? ?b] =>
             let E := fresh "E" in
             destruct (h >=? b) eqn:E;
             [apply Z.geb_le in E | rewrite Z.geb_leb in E; apply Z.leb_gt in E]
         end;
    cbn [filter snd fst fold_right]; lia.
Qed.

(** X1.  A header whose [hlen] field is between 6 and 15 occupies exactly
    [hlen] bytes; below 6 it still has the 6 fixed bytes and above 15
    never more than 15. *)
Theorem header_bits_hlen (h : Z) :
  (6 <= h <= 15 -> header_bits h = 8 * h)
  /\ (h <= 6 -> header_bits h = 8 * 6)
  /\ (15 <= h -> header_bits h = 8 * 15).
Proof.
  unfold header_bits, fields_desc, present. cbn [filter snd fst fold_right].
  repeat match goal with
         | |- context [h >=? ?b] =>
             let E := fresh "E" in
             destruct (h >=? b) eqn:E;
             [apply Z.geb_le in E | rewrite Z.geb_leb in E; apply Z.leb_gt in E]
         end;
    cbn [filter snd fst fold_right]; repeat split; intros; lia.
Qed.

End LayoutFacts.

(** * Reading the input file *)
Module DriverFacts.
Import Driver.

Lemma firstn_nil_inv {A : Type} (n : nat) (l : list A) :
  (0 < n)%nat -> firstn n l = [] -> l = [].
Proof.
  intros Hn. destruct n as [|n]; [lia|]. destruct l; [reflexivity|].
  simpl. discriminate.
Qed.

(** Fuel beyond the length of the file changes nothing. *)
Lemma read_chunks_fuel (size : nat) (fuel : nat) :
  forall (extra : nat) (file_in : list byte),
    (0 < size)%nat -> (length file_in < fuel)%nat ->
    read_chunks (fuel + extra) size file_in = read_chunks fuel size file_in.
Proof.
  induction fuel as [|fuel IH]; intros extra file_in Hs Hlen; [lia|].
  cbn [Nat.add read_chunks].
  destruct (firstn size file_in) as [|b chunk] eqn:E; [reflexivity|].
  f_equal. apply IH; [exact Hs|].
  rewrite length_skipn.
  destruct file_in as [|b0 file_in]; [destruct size; discriminate|].
  simpl length in *. lia.
Qed.

Lemma read_chunks_shape (size : nat) (fuel : nat) :
  forall file_in : list byte,
    (0 < size)%nat -> (length file_in < fuel)%nat ->
    let chunks := read_chunks fuel size file_in in
    concat chunks = file_in
    /\ ((length file_in mod size = 0)%nat ->
        Forall (fun c => length c = size) chunks)
    /\ ((length file_in mod size <> 0)%nat ->
        exists full last,
          chunks = full ++ [last]
          /\ Forall (fun c => length c = size) full
          /\ length last = (length file_in mod size)%nat).
Proof.
  induction fuel as [|fuel IH]; intros file_in Hs Hlen; [lia|].
  cbv zeta. cbn [read_chunks].
  destruct (firstn size file_in) as [|b chunk] eqn:E.
  - apply firstn_nil_inv in E; [|exact Hs]. subst file_in. simpl.
    rewrite Nat.Div0.mod_0_l. split; [reflexivity|]. split; [constructor|].
    intros H. exfalso. apply H. reflexivity.
  - assert (Hne : file_in <> []) by (intros ->; rewrite firstn_nil in E; discriminate).
    assert (Hpos : (0 < length file_in)%nat)
      by (destruct file_in; [congruence | simpl; lia]).
    assert (Hrest : (length (skipn size file_in) < fuel)%nat)
      by (rewrite length_skipn; lia).
    destruct (IH (skipn size file_in) Hs Hrest) as [Hcat [Hfull Hshort]].
    rewrite <- E. cbn [concat]. rewrite Hcat, firstn_skipn.
    split; [reflexivity|].
    destruct (Nat.le_gt_cases size (length file_in)) as [Hge|Hlt].
    + (* a full chunk, then the rest of the file *)
      assert (Hc : length (firstn size file_in) = size)
        by (rewrite length_firstn; lia).
      assert (Hmod : (length (skipn size file_in) mod size
                      = length file_in mod size)%nat).
      { rewrite length_skipn.
        replace (length file_in) with (length file_in - size + 1 * size)%nat
          at 2 by lia.
        now rewrite Nat.Div0.mod_add. }
      rewrite Hmod in Hfull, Hshort. split.
      * intros H0. constructor; [exact Hc | auto].
      * intros Hn0. destruct (Hshort Hn0) as [full [last [Hcs [Hf Hl]]]].
        exists (firstn size file_in :: full), last.
        rewrite Hcs. split; [reflexivity|]. split; [|exact Hl].
        constructor; assumption.
    + (* the whole file is one short chunk *)
      rewrite Nat.mod_small by exact Hlt.
      rewrite firstn_all2 by lia. rewrite skipn_all2 by lia.
      destruct fuel as [|fuel']; [lia|]. cbn [read_chunks].
      rewrite firstn_nil.
      split; [lia|]. intros _. exists [], file_in. repeat split. constructor.
Qed.

Lemma chunks_shape (file_in : list byte) :
  let chunks := payload_to_send_bin file_in in
  concat chunks = file_in
  /\ ((length file_in mod chunk_size = 0)%nat ->
      Forall (fun c => length c = chunk_size) chunks)
  /\ ((length file_in mod chunk_size <> 0)%nat ->
      exists full last,
        chunks = full ++ [last]
        /\ Forall (fun c => length c = chunk_size) full
        /\ length last = (length file_in mod chunk_size)%nat
        /\ (0 < length last < chunk_size)%nat).
Proof.
  cbv zeta. unfold payload_to_send_bin.
  assert (Hs : (0 < chunk_size)%nat) by (unfold chunk_size; lia).
  destruct (read_chunks_shape chunk_size (S (length file_in)) file_in Hs)
    as [Hcat [Hfull Hshort]]; [lia|].
  split; [exact Hcat|]. split; [exact Hfull|].
  intros Hn0. destruct (Hshort Hn0) as [full [last [Hcs [Hf Hl]]]].
  exists full, last. repeat split; try assumption; rewrite Hl; [lia|].
  apply Nat.mod_upper_bound. lia.
Qed.

(** X2.  The chunks read from a file: concatenated they are the file;
    each holds between 1 and 64 bytes; when the length of the file is a
    multiple of 64 every chunk is full, and otherwise every chunk but
    the last is full and the last holds the remaining length modulo 64.
    An empty file gives no chunk. *)
Theorem payload_to_send_bin_chunks (file_in : list byte) :
  let chunks := payload_to_send_bin file_in in
  concat chunks = file_in
  /\ Forall (fun c => (1 <= length c <= chunk_size)%nat) chunks
  /\ ((length file_in mod chunk_size = 0)%nat ->
      Forall (fun c => length c = chunk_size) chunks)
  /\ ((length file_in mod chunk_size <> 0)%nat ->
      exists full last,
        chunks = full ++ [last]
        /\ Forall (fun c => length c = chunk_size) full
        /\ length last = (length file_in mod chunk_size)%nat
        /\ (0 < length last < chunk_size)%nat)
  /\ (file_in = [] <-> chunks = []).
Proof.
  cbv zeta.
  destruct (chunks_shape file_in) as [Hcat [Hfull Hlast]].
  set (chunks := payload_to_send_bin file_in) in *.
  split; [exact Hcat|]. split; [|split; [exact Hfull|split; [exact Hlast|]]].
  - destruct (Nat.eq_dec (length file_in mod chunk_size) 0) as [H0|Hn0].
    + eapply Forall_impl; [|apply Hfull, H0]. simpl. intros c Hc.
      unfold chunk_size in *. lia.
    + destruct (Hlast Hn0) as [full [last [Hcs [Hf [Hl Hb]]]]].
      rewrite Hcs. apply Forall_app. split.
      * eapply Forall_impl; [|exact Hf]. simpl. intros c Hc.
        unfold chunk_size in *. lia.
      * constructor; [lia | constructor].
  - split.
    + intros ->. reflexivity.
    + intros Hc. rewrite <- Hcat, Hc. reflexivity.
Qed.

End DriverFacts.

(** * More on the sender *)
Module SenderMore.
Import Sender SenderSpec SenderTerms PyFacts SenderFacts.

(** ** SEND *)

Lemma set_new (k : Z) (v : payload) (d : Dict.t) :
  ~ In k (Dict.keys d) -> Dict.set k v d = d ++ [(k, v)].
Proof.
  induction d as [|[k' v'] d IH]; simpl; [reflexivity|].
  intros H. destruct (k =? k') eqn:E.
  - apply Z.eqb_eq in E. subst. tauto.
  - rewrite IH by tauto. reflexivity.
Qed.

Lemma set_length (k : Z) (v : payload) (d : Dict.t) :
  (length d <= length (Dict.set k v d) <= S (length d))%nat.
Proof.
  induction d as [|[k' v'] d IH]; simpl; [lia|].
  destruct (k =? k'); simpl; lia.
Qed.

(** X3.  SEND never overfills the window: whatever the state, the buffer
    after SEND holds at most [min(win, receiver_win)] entries or as many
    as before, and at most one segment is sent. *)
Theorem SEND_within_window (s : t) :
  Z.of_nat (length (buffer (state_after SEND s)))
  <= Z.max (Z.of_nat (length (buffer s))) (Z.min (win s) (receiver_win s))
  /\ (length (sent_by SEND s) <= 1)%nat.
Proof.
  unfold state_after, sent_by, run. rewrite SEND_run.
  destruct (_ <? _) eqn:G; [|simpl; lia].
  apply Z.ltb_lt in G.
  destruct (q s) as [|payload rest]; [simpl; lia|].
  cbn. pose proof (set_length (current s) payload (buffer s)). lia.
Qed.

Lemma modular_range_nil (M_ lo : Z) : modular_range M_ (lo, 0) = [].
Proof. reflexivity. Qed.

Lemma modular_range_cons (M_ lo n : Z) :
  0 <= lo < M_ -> 0 <= n ->
  modular_range M_ (lo, n + 1)
  = lo :: modular_range M_ ((lo + 1) mod M_, n).
Proof.
  intros Hlo Hn. unfold modular_range. cbn [fst snd].
  rewrite (py_range_split 0 1 (n + 1)) by lia.
  rewrite map_app. change (py_range 0 1) with [0]. cbn [map app].
  rewrite Z.add_0_r, Z.mod_small by lia. f_equal.
  apply py_range_map_eq; [lia|]. intros i Hi.
  rewrite Z.add_0_l, Zplus_mod_idemp_l. f_equal. lia.
Qed.

Lemma room_zero (s : t) :
  (Z.of_nat (length (buffer s)) <? Z.min (win s) (receiver_win s)) = false ->
  room s = 0%nat.
Proof. intros G. apply Z.ltb_ge in G. unfold room. lia. Qed.

Lemma room_pos (s : t) :
  (Z.of_nat (length (buffer s)) <? Z.min (win s) (receiver_win s)) = true ->
  (0 < room s)%nat.
Proof. intros G. apply Z.ltb_lt in G. unfold room. lia. Qed.

Lemma SEND_rounds_run (fuel : nat) :
  forall (s : t) (w : list segment),
    (length (q s) < fuel)%nat ->
    0 <= n_bits s -> win s < 2 ^ n_bits s ->
    0 <= current s < 2 ^ n_bits s ->
    window_list s ->
    let M_ := 2 ^ n_bits s in
    let k := Nat.min (length (q s)) (room s) in
    let new := combine (modular_range M_ (current s, Z.of_nat k))
                 (firstn k (q s)) in
    let current' := (current s + Z.of_nat k) mod M_ in
    SEND_rounds fuel s w
    = (if Nat.ltb (length (q s)) (room s)
       then (if unack s =? current' then Ended else Waiting)
       else Waiting,
       set_current current'
         (set_buffer (buffer s ++ new) (set_q (skipn k (q s)) s)),
       w ++ map (data_entry (sack_bit s) (win s)) new).
Proof.
  induction fuel as [|fuel IH]; intros s w Hfuel Hn Hw Hc Hl; [lia|].
  cbv zeta. cbn [SEND_rounds]. rewrite SEND_run.
  destruct (_ <? _) eqn:G.
  - pose proof (room_pos s G) as Hroom.
    destruct (q s) as [|payload rest] eqn:Q.
    + (* nothing queued *)
      cbn [length Nat.min firstn skipn combine map].
      rewrite modular_range_nil. cbn [combine map].
      rewrite Z.add_0_r, Z.mod_small, !app_nil_r by exact Hc.
      replace (Nat.ltb 0 (room s)) with true
        by (symmetry; apply Nat.ltb_lt; exact Hroom).
      replace (set_current (current s) (set_buffer (buffer s) (set_q [] s)))
        with s by (destruct s; cbn in Q |- *; now rewrite Q).
      destruct (unack s =? current s); reflexivity.
    + (* one payload goes out, then the rest *)
      set (s1 := set_current ((current s + 1) mod 2 ^ n_bits s)
                   (set_buffer (Dict.set (current s) payload (buffer s))
                      (set_q rest s))).
      assert (Hs1 : state_after SEND s = s1).
      { unfold state_after, run. rewrite SEND_run, G, Q. reflexivity. }
      destruct (SEND_keeps_window s Hn Hw Hc Hl) as [Hl1 [Hc1 _]].
      rewrite Hs1 in Hl1, Hc1.
      assert (Hfresh : ~ In (current s) (Dict.keys (buffer s))).
      { rewrite Hl.
        assert (HM : 0 < 2 ^ n_bits s) by lia.
        pose proof (Z.mod_pos_bound (current s - unack s) _ HM).
        rewrite modular_range_In by lia. lia. }
      assert (Hbuf : buffer s1 = buffer s ++ [(current s, payload)])
        by (apply set_new; exact Hfresh).
      assert (Hroom1 : room s = S (room s1)).
      { unfold room in *. rewrite Hbuf, length_app. cbn [length win receiver_win s1
          set_current set_buffer set_q]. lia. }
      rewrite (IH s1) by (try assumption; cbn; simpl in Hfuel; lia).
      cbv zeta.
      change (q s1) with rest. change (n_bits s1) with (n_bits s).
      change (current s1) with ((current s + 1) mod 2 ^ n_bits s).
      change (unack s1) with (unack s). change (win s1) with (win s).
      change (sack_bit s1) with (sack_bit s).
      rewrite Hbuf, Hroom1.
      cbn [length]. rewrite <- Nat.succ_min_distr.
      cbn [firstn skipn].
      replace (Z.of_nat (S (Nat.min (length rest) (room s1))))
        with (Z.of_nat (Nat.min (length rest) (room s1)) + 1) by lia.
      rewrite modular_range_cons by lia.
      cbn [combine map]. rewrite <- !app_assoc. cbn [app].
      rewrite Zplus_mod_idemp_l.
      replace (current s + 1 + Z.of_nat (Nat.min (length rest) (room s1)))
        with (current s + (Z.of_nat (Nat.min (length rest) (room s1)) + 1))
        by lia.
      reflexivity.
  - (* the window is full *)
    rewrite (room_zero s G). rewrite Nat.min_0_r.
    cbn [firstn skipn]. rewrite modular_range_nil. cbn [combine map].
    rewrite Z.add_0_r, Z.mod_small, !app_nil_r by exact Hc.
    replace (Nat.ltb (length (q s)) 0) with false
      by (symmetry; apply Nat.ltb_ge; lia).
    cbn [after_goto]. f_equal. f_equal. destruct s; reflexivity.
Qed.

(** X4.  From a state whose buffer holds the window in order, SEND
    entered repeatedly sends the first [k] queued payloads, in queue
    order, numbered [current], [current + 1], ... modulo [2^n_bits], where
    [k] is the smaller of the queue length and the free places of the
    window; they are appended to the buffer under these numbers, the queue
    loses them and [current] advances by [k].  The automaton then waits,
    or ends when the queue ran out with room left and [unack = current]. *)
Theorem SEND_sends_queue_in_order (s : t) :
  0 <= n_bits s -> win s < 2 ^ n_bits s ->
  0 <= current s < 2 ^ n_bits s ->
  window_list s ->
  let M_ := 2 ^ n_bits s in
  let k := Nat.min (length (q s)) (room s) in
  let new := combine (modular_range M_ (current s, Z.of_nat k))
               (firstn k (q s)) in
  let current' := (current s + Z.of_nat k) mod M_ in
  SEND_rounds (S (length (q s))) s []
  = (if Nat.ltb (length (q s)) (room s)
     then (if unack s =? current' then Ended else Waiting)
     else Waiting,
     set_current current'
       (set_buffer (buffer s ++ new) (set_q (skipn k (q s)) s)),
     map (data_entry (sack_bit s) (win s)) new).
Proof.
  intros Hn Hw Hc Hl. cbv zeta.
  rewrite (SEND_rounds_run (S (length (q s))) s []) by (try assumption; lia).
  reflexivity.
Qed.

Lemma SEND_sends_queue_in_order_witness :
  window_list fresh_example
  /\ SEND_rounds 7 fresh_example []
     = (Waiting,
        mk 4 5 [["4"%byte]; ["5"%byte]]
           [(0, p0); (1, p1); (2, p2); (3, p3)] 4 0 4 0 0 0 (0, -1),
        [(GBN.data 0 1 0 4, p0); (GBN.data 0 1 1 4, p1);
         (GBN.data 0 1 2 4, p2); (GBN.data 0 1 3 4, p3)]).
Proof.
  assert (Hl : window_list fresh_example) by reflexivity.
  split; [exact Hl|].
  assert (Hn : 0 <= n_bits fresh_example) by (simpl; lia).
  assert (Hw : win fresh_example < 2 ^ n_bits fresh_example)
    by (vm_compute; reflexivity).
  assert (Hc : 0 <= current fresh_example < 2 ^ n_bits fresh_example)
    by (split; vm_compute; [discriminate | reflexivity]).
  pose proof (SEND_sends_queue_in_order fresh_example Hn Hw Hc Hl) as H.
  cbv zeta in H. etransitivity; [exact H|]. vm_compute. reflexivity.
Defined.

(** ** The removal loop *)

Lemma In_evict (M_ W ack : Z) (d : Dict.t) (kp : Z * payload) :
  In kp (evict M_ W ack d)
  <-> In kp d /\ ~ In (fst kp) (popped_keys M_ W ack).
Proof.
  unfold evict. rewrite filter_In, negb_true_iff, mem_false. tauto.
Qed.

Lemma ACK_IN_returned (s : t) (pkt : GBN.t) :
  GBN.type pkt <> 0 ->
  result_of (ACK_IN pkt) s = Ret ToSEND ->
  exists c,
    state_after (ACK_IN pkt) s
    = advance pkt (set_count_acks c (adopt pkt s)).
Proof.
  intros Hty. unfold result_of, state_after, run.
  rewrite ACK_IN_run by exact Hty.
  destruct (retransmit_mode_frame pkt (adopt pkt s) []) as [c [Hc _]].
  destruct (retransmit_mode pkt (adopt pkt s) []) as [[[u|e] a'] w'];
    cbn [fst snd] in Hc |- *; [|discriminate].
  intros _. exists c. now rewrite Hc.
Qed.

Lemma ACK_IN_kept_entries (s : t) (pkt : GBN.t) :
  GBN.type pkt <> 0 -> 0 <= GBN.num pkt ->
  result_of (ACK_IN pkt) s = Ret ToSEND ->
  let M_ := 2 ^ n_bits s in
  let ack := GBN.num pkt in
  let W := GBN.win pkt in
  forall kp, In kp (buffer (state_after (ACK_IN pkt) s))
    <-> In kp (buffer s)
        /\ ~ ((0 <= fst kp /\ ack - W <= fst kp <= ack - 1)
              \/ (ack < W /\ (M_ + ack - W <= fst kp <= M_ - 2
                              \/ fst kp = M_ - 1 + ack))).
Proof.
  intros Hty Hack Hret. cbv zeta.
  destruct (ACK_IN_returned s pkt Hty Hret) as [c ->].
  destruct (adopt_shape pkt s) as [x ->].
  intros kp. unfold advance.
  cbn [buffer unack current n_bits receiver_win set_buffer set_unack
       set_count_acks set_SACK set_receiver_win].
  rewrite In_evict, popped_keys_exact by exact Hack. reflexivity.
Qed.

(** X5.  When ACK_IN returns on an ACK numbered [ack >= 0] carrying the
    window [W], [unack] is [ack] and an entry stays in the buffer exactly
    when its key is none of: the numbers from [ack - W] to [ack - 1] that
    are not negative; and, when [ack < W], the numbers from
    [M + ack - W] to [M - 2] and the number [M - 1 + ack]
    ([M = 2^n_bits]). *)
Theorem ACK_IN_removed_keys (s : t) (pkt : GBN.t) :
  GBN.type pkt <> 0 -> 0 <= GBN.num pkt ->
  result_of (ACK_IN pkt) s = Ret ToSEND ->
  let M_ := 2 ^ n_bits s in
  let ack := GBN.num pkt in
  let W := GBN.win pkt in
  let s' := state_after (ACK_IN pkt) s in
  unack s' = ack
  /\ forall kp, In kp (buffer s')
       <-> In kp (buffer s)
           /\ ~ ((0 <= fst kp /\ ack - W <= fst kp <= ack - 1)
                 \/ (ack < W /\ (M_ + ack - W <= fst kp <= M_ - 2
                                 \/ fst kp = M_ - 1 + ack))).
Proof.
  intros Hty Hack Hret. cbv zeta.
  split; [|exact (ACK_IN_kept_entries s pkt Hty Hack Hret)].
  destruct (ACK_IN_returned s pkt Hty Hret) as [c ->].
  destruct (adopt_shape pkt s) as [x ->]. reflexivity.
Qed.

(** X6.  The removal loop against the modular window: when ACK_IN
    returns on an ACK with [0 <= ack < M], [0 <= W <= M] and either
    [ack = 0] or [W <= ack], the entries removed are exactly those whose
    key is [(ack - i) mod M] for some [i] from 1 to [W]; when
    [0 < ack < W] an entry under the key [M - 1] is never removed, though
    [M - 1 = (ack - (ack + 1)) mod M]. *)
Theorem ACK_IN_removes_modular_window (s : t) (pkt : GBN.t) :
  GBN.type pkt <> 0 ->
  result_of (ACK_IN pkt) s = Ret ToSEND ->
  let M_ := 2 ^ n_bits s in
  let ack := GBN.num pkt in
  let W := GBN.win pkt in
  let s' := state_after (ACK_IN pkt) s in
  0 <= ack < M_ -> 0 <= W <= M_ ->
  (ack = 0 \/ W <= ack ->
   forall kp, In kp (buffer s')
     <-> In kp (buffer s)
         /\ ~ exists i, 1 <= i <= W /\ fst kp = (ack - i) mod M_)
  /\ (0 < ack < W ->
      forall p, In (M_ - 1, p) (buffer s) -> In (M_ - 1, p) (buffer s')).
Proof.
  intros Hty Hret M_ ack W s' Hack HW.
  pose proof (ACK_IN_kept_entries s pkt Hty (proj1 Hack) Hret) as Hkeys.
  cbv zeta in Hkeys. fold M_ ack W s' in Hkeys. split.
  - intros Hcase kp. rewrite Hkeys.
    apply and_iff_compat_l. apply not_iff_compat. split.
    + intros [[Hk0 Hk]|[HaW Hk]].
      * exists (ack - fst kp). split; [lia|].
        replace (ack - (ack - fst kp)) with (fst kp) by lia.
        symmetry. apply Z.mod_small. lia.
      * assert (ack = 0) by lia.
        exists (M_ - fst kp). split; [lia|]. symmetry.
        apply (mod_shift M_ (ack - (M_ - fst kp)) (fst kp) (-1)); lia.
    + intros [i [Hi Hk]].
      destruct (Z_le_gt_dec i ack) as [Hle|Hgt].
      * left. rewrite Z.mod_small in Hk by lia. lia.
      * right. assert (ack = 0) by lia.
        rewrite (mod_shift M_ (ack - i) (ack - i + M_) (-1)) in Hk by lia.
        lia.
  - intros Hwrap p Hin. apply Hkeys. split; [exact Hin|].
    cbn [fst]. lia.
Qed.

(** X7.  An ACK that advertises a window of 0 (or less) removes nothing
    from the buffer, and the SEND that follows neither sends nor ends,
    whatever is queued and whatever is acknowledged: the sender is left
    waiting for a packet or the timeout. *)
Theorem zero_window_stalls (s : t) (pkt : GBN.t) :
  GBN.type pkt <> 0 -> GBN.win pkt <= 0 ->
  let s' := state_after (ACK_IN pkt) s in
  buffer s' = buffer s
  /\ run SEND s' = (Ret Stay, s', []).
Proof.
  intros Hty HW. cbv zeta.
  assert (H : buffer (state_after (ACK_IN pkt) s) = buffer s
              /\ receiver_win (state_after (ACK_IN pkt) s) = GBN.win pkt).
  { unfold state_after, run. rewrite ACK_IN_run by exact Hty.
    destruct (retransmit_mode_frame pkt (adopt pkt s) []) as [c [Hc _]].
    destruct (adopt_shape pkt s) as [x Hx].
    destruct (retransmit_mode pkt (adopt pkt s) []) as [[[u|e] a'] w'];
      cbn [fst snd] in Hc |- *; subst a'; rewrite Hx; [|split; reflexivity].
    unfold advance.
    cbn [buffer unack current n_bits receiver_win set_buffer set_unack
         set_count_acks set_SACK set_receiver_win].
    split; [|reflexivity].
    unfold evict, popped_keys, py_range.
    replace (Z.to_nat (GBN.win pkt + 1 - 1)) with 0%nat by lia.
    cbn [seq map mem negb]. apply filter_all. reflexivity. }
  destruct H as [Hb Hr]. split; [exact Hb|].
  unfold run. rewrite SEND_run.
  replace (_ <? _) with false; [reflexivity|].
  symmetry. apply Z.ltb_ge. rewrite Hr. lia.
Qed.

Lemma zero_window_stalls_witness :
  buffer (state_after (ACK_IN (GBN.ack 2 0)) window_example)
  = buffer window_example
  /\ result_of SEND (state_after (ACK_IN (GBN.ack 2 0)) window_example)
     = Ret Stay.
Proof.
  destruct (zero_window_stalls window_example (GBN.ack 2 0)) as [Hb Hs].
  - simpl. lia.
  - simpl. lia.
  - split; [exact Hb|]. unfold result_of. rewrite Hs. reflexivity.
Defined.

Lemma ACK_IN_removed_keys_witness :
  unack (state_after (ACK_IN (GBN.ack 3 2)) window_example) = 3
  /\ ~ In (2, p2) (buffer (state_after (ACK_IN (GBN.ack 3 2)) window_example))
  /\ In (3, p3) (buffer (state_after (ACK_IN (GBN.ack 3 2)) window_example)).
Proof.
  assert (Hty : GBN.type (GBN.ack 3 2) <> 0) by (simpl; lia).
  assert (Hack : 0 <= GBN.num (GBN.ack 3 2)) by (simpl; lia).
  destruct (ACK_IN_removed_keys window_example (GBN.ack 3 2) Hty Hack eq_refl)
    as [Hu Hk].
  split; [exact Hu|]. split.
  - intros Hin. apply Hk in Hin. destruct Hin as [_ Hn]. apply Hn.
    left. simpl. lia.
  - apply Hk. split; [simpl; tauto|]. simpl. change (2 ^ 3) with 8. lia.
Defined.

Lemma ACK_IN_removes_modular_window_witness :
  In (3, p3) (buffer (state_after (ACK_IN (GBN.ack 1 2)) wrap_state))
  /\ ~ In (0, ["4"%byte])
         (buffer (state_after (ACK_IN (GBN.ack 3 2)) window_example)).
Proof.
  assert (Hty1 : GBN.type (GBN.ack 1 2) <> 0) by (simpl; lia).
  assert (Hty3 : GBN.type (GBN.ack 3 2) <> 0) by (simpl; lia).
  split.
  - destruct (ACK_IN_removes_modular_window wrap_state (GBN.ack 1 2) Hty1 eq_refl)
      as [_ Hwrap].
    + split; vm_compute; [discriminate | reflexivity].
    + split; vm_compute; discriminate.
    + apply (Hwrap ltac:(simpl; lia) p3). simpl. tauto.
  - destruct (ACK_IN_removes_modular_window window_example (GBN.ack 3 2)
                Hty3 eq_refl) as [Hmod _].
    + split; vm_compute; [discriminate | reflexivity].
    + split; vm_compute; discriminate.
    + intros Hin. apply (Hmod ltac:(right; simpl; lia)) in Hin.
      destruct Hin as [Hin _]. simpl in Hin.
      destruct Hin as [H|[H|[]]]; discriminate.
Defined.

(** ** What ACK_IN leaves alone, and what it sends *)

Lemma get_In (d : Dict.t) (k : Z) (p : payload) :
  Dict.get k d = Some p -> In (k, p) d.
Proof.
  induction d as [|[k' v] d IH]; simpl; [discriminate|].
  destruct (k =? k') eqn:E.
  - apply Z.eqb_eq in E. intros [= ->]. left. now subst.
  - auto.
Qed.

Lemma payload_at_In (d : Dict.t) (k : Z) :
  In k (Dict.keys d) -> In (k, payload_at d k) d.
Proof.
  intros H. apply get_In. now apply get_In_keys.
Qed.

Lemma retransmit_mode_sent (pkt : GBN.t) (s : t) :
  forall seg, In seg (snd (retransmit_mode pkt s [])) ->
    In (GBN.num (fst seg), snd seg) (buffer s)
    /\ fst seg = GBN.data (GBN.options (fst seg)) (plen (snd seg))
                   (GBN.num (fst seg)) (win s)
    /\ 0 <= GBN.options (fst seg) <= 1.
Proof.
  intros seg. unfold retransmit_mode.
  destruct (Q_4_2 s =? 1).
  - rewrite selective_repeat_run. cbv zeta.
    destruct (_ >=? 2); [|simpl; tauto].
    destruct (Dict.get _ _) as [p|] eqn:Eg; [|simpl; tauto].
    cbn [snd app]. intros [<-|[]]. cbn. split; [now apply get_In|]. split; [reflexivity | lia].
  - destruct (SACK s =? 1); [|simpl; tauto].
    rewrite selective_ack_run. cbv zeta.
    destruct (has_blocks pkt); [|simpl; tauto].
    destruct (rev _); [simpl; tauto|].
    destruct (index_of _ _) as [i|]; [|simpl; tauto].
    cbn [snd app]. intros Hin. apply in_map_iff in Hin.
    destruct Hin as [k [<- Hk]]. apply filter_In in Hk.
    destruct Hk as [Hk _]. apply In_firstn in Hk.
    unfold sack_segment. cbn. split; [now apply payload_at_In|].
    split; [reflexivity | lia].
Qed.

(** What ACK_IN leaves alone, and what it sends. *)
Lemma ACK_IN_effect (s : t) (pkt : GBN.t) :
  let s' := state_after (ACK_IN pkt) s in
  (q s' = q s /\ current s' = current s /\ win s' = win s
   /\ n_bits s' = n_bits s /\ Q_4_2 s' = Q_4_2 s)
  /\ (forall kp, In kp (buffer s') -> In kp (buffer s))
  /\ (forall seg, In seg (sent_by (ACK_IN pkt) s) ->
        In (GBN.num (fst seg), snd seg) (buffer s)
        /\ fst seg = GBN.data (GBN.options (fst seg)) (plen (snd seg))
                       (GBN.num (fst seg)) (win s)
        /\ 0 <= GBN.options (fst seg) <= 1).
Proof.
  cbv zeta. unfold state_after, sent_by, run.
  destruct (Z.eq_dec (GBN.type pkt) 0) as [Hd|Ha].
  - rewrite ACK_IN_data by exact Hd. cbn. repeat split; tauto.
  - rewrite ACK_IN_run by exact Ha.
    destruct (retransmit_mode_frame pkt (adopt pkt s) []) as [c [Hc _]].
    pose proof (retransmit_mode_sent pkt (adopt pkt s)) as Hsent.
    destruct (adopt_shape pkt s) as [x Hx]. rewrite Hx in *.
    destruct (retransmit_mode pkt _ []) as [[[u|e] a'] w'];
      cbn [fst snd] in Hc, Hsent |- *; subst a'.
    + unfold advance. cbn. repeat split; try reflexivity.
      * intros kp Hin. apply In_evict in Hin. tauto.
      * apply Hsent. assumption.
      * apply Hsent. assumption.
      * apply Hsent. assumption.
      * apply Hsent. assumption.
    + cbn. repeat split; try reflexivity; try tauto; apply Hsent; assumption.
Qed.

(** X8.  ACK_IN, on any packet and whether or not it raises, never
    touches the queue, [current], the windows' configuration or the mode;
    it adds nothing to the buffer and alters no buffered payload (every
    entry left was there before); and whatever it sends is a DATA segment
    for an entry of the buffer: that entry's number and payload, [len] the
    payload's length, a 6-byte header and the sender's window. *)
Theorem ACK_IN_only_removes_and_resends (s : t) (pkt : GBN.t) :
  let s' := state_after (ACK_IN pkt) s in
  q s' = q s /\ current s' = current s /\ win s' = win s
  /\ n_bits s' = n_bits s /\ Q_4_2 s' = Q_4_2 s
  /\ (forall kp, In kp (buffer s') -> In kp (buffer s))
  /\ (forall seg, In seg (sent_by (ACK_IN pkt) s) ->
        In (GBN.num (fst seg), snd seg) (buffer s)
        /\ fst seg = GBN.data (GBN.options (fst seg)) (plen (snd seg))
                       (GBN.num (fst seg)) (win s)
        /\ 0 <= GBN.options (fst seg) <= 1).
Proof.
  cbv zeta.
  destruct (ACK_IN_effect s pkt) as [[Hq [Hc [Hw [Hn Hm]]]] [Hsub Hsent]].
  repeat (split; [assumption|]). exact Hsent.
Qed.

(** ** Timeout *)

Lemma retransmit_loop_run (s : t) (ks : list Z) :
  (forall k, In k ks -> In k (Dict.keys (buffer s))) ->
  forall w,
    for_each ks (fun seqnum =>
      p <- getitem (buffer s) seqnum ;;
      send (GBN.data (if SACK s =? 0 then 0 else 1) (plen p) seqnum (win s), p))
      s w
    = (Ret tt, s,
       w ++ map (fun k => data_entry (sack_bit s) (win s)
                            (k, payload_at (buffer s) k)) ks).
Proof.
  match goal with |- context [for_each ks ?b] => set (body := b) end.
  induction ks as [|k ks IH]; intros Hin w.
  - simpl. unfold ret. now rewrite app_nil_r.
  - cbn [for_each map]. unfold bind at 1. unfold body at 1.
    unfold bind at 1, getitem.
    rewrite (get_In_keys (buffer s) k) by (apply Hin; now left).
    unfold ret at 1, send at 1.
    rewrite IH by (intros k0 H0; apply Hin; now right).
    rewrite <- app_assoc. reflexivity.
Qed.

Lemma entries_of_keys (d : Dict.t) :
  NoDup (Dict.keys d) ->
  map (fun k => (k, payload_at d k)) (Dict.keys d) = d.
Proof.
  induction d as [|[k v] d IH]; simpl; intros Hnd; [reflexivity|].
  inversion Hnd as [|? ? Hk Hd]; subst.
  unfold payload_at at 1. simpl. rewrite Z.eqb_refl. f_equal.
  rewrite <- (IH Hd) at 2. apply map_ext_in. intros k0 Hk0.
  unfold payload_at. simpl.
  destruct (k0 =? k) eqn:E; [|reflexivity].
  apply Z.eqb_eq in E. subst. contradiction.
Qed.

Lemma timeout_run (s : t) :
  run (timeout_reached ;; RETRANSMIT) s
  = (Ret ToSEND, set_count_acks (0, -1) s,
     map (fun k => data_entry (sack_bit s) (win s)
                     (k, payload_at (buffer s) k))
         (Dict.keys (buffer s))).
Proof.
  unfold run, timeout_reached, RETRANSMIT.
  unfold bind at 1, update at 1. unfold bind at 1, self at 1.
  unfold bind at 1.
  rewrite (retransmit_loop_run (set_count_acks (0, -1) s))
    by (intros k Hk; exact Hk).
  reflexivity.
Qed.

(** X9.  The timeout resets the duplicate-ACK pair to [(0, -1)] and
    RETRANSMIT then sends one DATA segment for every key of the buffer, in
    insertion order, with the buffered payload and with [options] 1
    exactly when SACK is on; nothing else changes, nothing is raised, and
    control goes back to SEND.  With distinct keys these are the buffer's
    entries one by one. *)
Theorem timeout_retransmits_buffer (s : t) :
  run (timeout_reached ;; RETRANSMIT) s
  = (Ret ToSEND, set_count_acks (0, -1) s,
     map (fun k => data_entry (sack_bit s) (win s)
                     (k, payload_at (buffer s) k))
         (Dict.keys (buffer s)))
  /\ (NoDup (Dict.keys (buffer s)) ->
      sent_by (timeout_reached ;; RETRANSMIT) s
      = map (data_entry (sack_bit s) (win s)) (buffer s)).
Proof.
  pose proof (timeout_run s) as H.
  split; [exact H|]. intros Hnd. unfold sent_by. rewrite H. cbn [snd].
  rewrite <- (entries_of_keys (buffer s) Hnd) at 2.
  now rewrite map_map.
Qed.

(** ** Sequence numbers on the wire *)

Lemma keys_set_In (k x : Z) (v : payload) (d : Dict.t) :
  In x (Dict.keys (Dict.set k v d)) -> x = k \/ In x (Dict.keys d).
Proof.
  induction d as [|[k' v'] d IH]; simpl.
  - intros [H|[]]. now left.
  - destruct (k =? k') eqn:E; simpl.
    + apply Z.eqb_eq in E. subst. tauto.
    + intros [H|H]; [tauto | specialize (IH H); tauto].
Qed.

Lemma In_keys (d : Dict.t) (k : Z) (p : payload) :
  In (k, p) d -> In k (Dict.keys d).
Proof. intros H. apply (in_map fst) in H. exact H. Qed.

Lemma numbers_in_range_SEND (s : t) :
  0 <= n_bits s -> numbers_in_range s ->
  numbers_in_range (state_after SEND s)
  /\ n_bits (state_after SEND s) = n_bits s
  /\ win (state_after SEND s) = win s
  /\ forall seg, In seg (sent_by SEND s) ->
       proper_data (2 ^ n_bits s) (win s) seg.
Proof.
  intros Hn [Hc Hk]. unfold state_after, sent_by, run. rewrite SEND_run.
  assert (HM : 0 < 2 ^ n_bits s) by (apply Z.pow_pos_nonneg; lia).
  assert (Hsame : numbers_in_range s) by (split; assumption).
  destruct (_ <? _);
    [|cbn [fst snd]; split; [exact Hsame|]; split; [reflexivity|];
      split; [reflexivity|]; intros seg []].
  destruct (q s) as [|payload rest];
    [destruct (_ =? _); cbn [fst snd]; (split; [exact Hsame|]);
     (split; [reflexivity|]); (split; [reflexivity|]); intros seg []|].
  cbn [fst snd app]. split; [|split; [reflexivity|split; [reflexivity|]]].
  - split; cbn.
    + apply Z.mod_pos_bound. exact HM.
    + intros k Hin. apply keys_set_In in Hin. destruct Hin as [->|Hin]; auto.
  - intros seg [<-|[]]. unfold proper_data. cbn.
    destruct (SACK s =? 0); repeat split; try lia; apply Hc.
Qed.

Lemma numbers_in_range_ACK_IN (s : t) (pkt : GBN.t) :
  numbers_in_range s ->
  numbers_in_range (state_after (ACK_IN pkt) s)
  /\ n_bits (state_after (ACK_IN pkt) s) = n_bits s
  /\ win (state_after (ACK_IN pkt) s) = win s
  /\ forall seg, In seg (sent_by (ACK_IN pkt) s) ->
       proper_data (2 ^ n_bits s) (win s) seg.
Proof.
  intros [Hc Hk].
  destruct (ACK_IN_effect s pkt)
    as [[_ [Hcur [Hw [Hn _]]]] [Hsub Hsent]].
  split; [|split; [exact Hn|split; [exact Hw|]]].
  - split; rewrite Hn; [rewrite Hcur; exact Hc|].
    intros k Hin. apply in_map_iff in Hin. destruct Hin as [[k' p] [<- Hin]].
    apply Hk. eapply In_keys. apply Hsub. exact Hin.
  - intros seg Hin. destruct (Hsent seg Hin) as [Hbuf [Hh Ho]].
    unfold proper_data. rewrite Hh. cbn.
    repeat split; try lia; eapply Hk, In_keys; exact Hbuf.
Qed.

Lemma numbers_in_range_timeout (s : t) :
  numbers_in_range s ->
  numbers_in_range (state_after (timeout_reached ;; RETRANSMIT) s)
  /\ n_bits (state_after (timeout_reached ;; RETRANSMIT) s) = n_bits s
  /\ win (state_after (timeout_reached ;; RETRANSMIT) s) = win s
  /\ forall seg, In seg (sent_by (timeout_reached ;; RETRANSMIT) s) ->
       proper_data (2 ^ n_bits s) (win s) seg.
Proof.
  intros [Hc Hk]. pose proof (timeout_run s) as Hrun.
  unfold state_after, sent_by. rewrite Hrun. cbn [fst snd].
  split; [split; [exact Hc | exact Hk]|]. split; [reflexivity|].
  split; [reflexivity|].
  intros seg Hin. apply in_map_iff in Hin. destruct Hin as [k [<- Hin]].
  unfold proper_data, data_entry, sack_bit. cbn.
  destruct (SACK s =? 0); repeat split; try lia; apply Hk; exact Hin.
Qed.

Lemma reachable_numbers_in_range (n_bits0 : Z) (payloads : list payload)
  (win0 Q_4_2 Q_4_3 Q_4_4 : Z) (c : config) :
  0 <= n_bits0 ->
  reachable (BEGIN n_bits0 payloads win0 Q_4_2 Q_4_3 Q_4_4) c ->
  numbers_in_range (snd c) /\ n_bits (snd c) = n_bits0 /\ win (snd c) = win0.
Proof.
  intros Hn Hr. induction Hr as [|c c' Hr IH Hstep].
  - split; [|split; reflexivity]. split; cbn.
    + split; [lia | apply Z.pow_pos_nonneg; lia].
    + intros k [].
  - destruct IH as [Hnum [Hnb Hw]].
    destruct Hstep as [s|s pkt|s]; cbn [snd handle] in *.
    + destruct (numbers_in_range_SEND s) as [H1 [H2 [H3 _]]];
        [lia | exact Hnum |]. split; [exact H1|]. split; congruence.
    + destruct (numbers_in_range_ACK_IN s pkt Hnum) as [H1 [H2 [H3 _]]].
      split; [exact H1|]. split; congruence.
    + destruct (numbers_in_range_timeout s Hnum) as [H1 [H2 [H3 _]]].
      split; [exact H1|]. split; congruence.
Qed.

(** X10.  In every configuration the sender automaton can reach from
    BEGIN (with [n_bits >= 0]), [current] and every key of the buffer are
    sequence numbers of [n_bits] bits, and every segment that SEND, ACK_IN
    (on any packet) or the timeout with RETRANSMIT sends from there is a
    DATA segment with a 6-byte header, such a sequence number, [len] the
    length of its payload, [options] 0 or 1 and the sender's window. *)
Theorem sender_sends_proper_data (n_bits0 : Z) (payloads : list payload)
  (win0 Q_4_2 Q_4_3 Q_4_4 : Z) (ctl : control) (s : t) :
  0 <= n_bits0 ->
  reachable (BEGIN n_bits0 payloads win0 Q_4_2 Q_4_3 Q_4_4) (ctl, s) ->
  numbers_in_range s
  /\ forall seg,
       In seg (sent_by SEND s)
       \/ (exists pkt, In seg (sent_by (ACK_IN pkt) s))
       \/ In seg (sent_by (timeout_reached ;; RETRANSMIT) s) ->
       proper_data (2 ^ n_bits0) win0 seg.
Proof.
  intros Hn Hr.
  destruct (reachable_numbers_in_range _ _ _ _ _ _ _ Hn Hr) as [Hnum [Hnb Hw]].
  cbn [snd] in *. split; [exact Hnum|].
  rewrite <- Hnb, <- Hw.
  intros seg [H|[[pkt H]|H]].
  - apply numbers_in_range_SEND; [lia | exact Hnum | exact H].
  - eapply numbers_in_range_ACK_IN; [exact Hnum | exact H].
  - apply numbers_in_range_timeout; [exact Hnum | exact H].
Qed.

Lemma sender_sends_proper_data_witness :
  numbers_in_range wrap_state
  /\ proper_data (2 ^ 2) 2 (GBN.data 0 1 3 2, p3).
Proof.
  assert (Hn : 0 <= 2) by lia.
  assert (Hr : reachable wrap_start (Waiting, wrap_state))
    by (rewrite <- wrap_state_reached; apply run_events_reachable).
  destruct (sender_sends_proper_data 2 _ 2 0 0 0 Waiting wrap_state Hn Hr)
    as [Hnum Hsent].
  split; [exact Hnum|]. apply Hsent. right. right.
  vm_compute. tauto.
Defined.

End SenderMore.

(** * More on the receiver *)
Module ReceiverMore.
Import Receiver ReceiverSpec ReceiverTerms PyFacts ReceiverFacts.

(** ** Out-of-order segments *)

(** X11.  For sequence numbers [num] and [next] of [n_bits] bits and a
    window of at most [2^n_bits], the out-of-order branch buffers the
    segment exactly when [num] lies 1 to [win - 1] places after [next]
    modulo [2^n_bits] and is not buffered yet; then number and payload go
    to the end of the two lists and the size grows by one.  In every
    other case (a duplicate, a number outside the window, [num = next])
    the state is unchanged. *)
Theorem out_of_order_accepts_window (num : Z) (payload : payload) (r : t) :
  0 <= next r < 2 ^ n_bits r -> 0 <= num < 2 ^ n_bits r ->
  win r <= 2 ^ n_bits r ->
  (accepted r num ->
   out_of_order num payload r = buffered_with num payload r)
  /\ (~ accepted r num -> out_of_order num payload r = r).
Proof.
  intros Hnext Hnum Hwin. unfold accepted, out_of_order, buffered_with.
  cbv zeta.
  assert (Hd : (num <? next r) = true
               /\ (num - next r) mod 2 ^ n_bits r = num - next r + 2 ^ n_bits r
               \/ (num <? next r) = false
                  /\ (num - next r) mod 2 ^ n_bits r = num - next r).
  { destruct (num <? next r) eqn:E.
    - left. split; [reflexivity|]. apply Z.ltb_lt in E.
      apply (mod_shift _ _ _ (-1)); lia.
    - right. split; [reflexivity|]. apply Z.ltb_ge in E.
      apply Z.mod_small. lia. }
  destruct Hd as [[-> ->]|[-> ->]];
    (destruct (_ && _) eqn:G;
     [apply andb_true_iff in G; destruct G as [G1 G2];
      apply Z.geb_le in G1; apply Z.geb_le in G2
     |apply andb_false_iff in G;
      rewrite !Z.geb_leb, !Z.leb_gt in G]);
    (destruct (mem num (buffer_seq r)) eqn:Hm;
     [apply mem_In in Hm | apply mem_false in Hm]);
    cbn [negb]; split; intros H; try reflexivity;
    try (exfalso; apply H; split; [lia | assumption]);
    try (exfalso; destruct H as [H1 H2]; first [contradiction | lia]).
Qed.

Lemma out_of_order_accepts_window_witness :
  out_of_order 3 (chunk "d") gap_state = buffered_with 3 (chunk "d") gap_state
  /\ out_of_order 2 (chunk "x") gap_state = gap_state
  /\ out_of_order 5 (chunk "f") gap_state = gap_state.
Proof.
  assert (Hnext : 0 <= next gap_state < 2 ^ n_bits gap_state)
    by (split; vm_compute; [discriminate | reflexivity]).
  assert (Hwin : win gap_state <= 2 ^ n_bits gap_state)
    by (vm_compute; discriminate).
  assert (Hrange : forall k, 0 <= k < 8 -> 0 <= k < 2 ^ n_bits gap_state)
    by (intros k Hk; change (2 ^ n_bits gap_state) with 8; exact Hk).
  split; [|split].
  - apply (out_of_order_accepts_window 3 (chunk "d") gap_state Hnext);
      [apply Hrange; lia | exact Hwin |].
    split; [vm_compute; split; discriminate|].
    simpl. intros [H|[]]. discriminate.
  - apply (out_of_order_accepts_window 2 (chunk "x") gap_state Hnext);
      [apply Hrange; lia | exact Hwin |].
    intros [_ H]. apply H. simpl. tauto.
  - apply (out_of_order_accepts_window 5 (chunk "f") gap_state Hnext);
      [apply Hrange; lia | exact Hwin |].
    intros [[_ H] _]. vm_compute in H. apply H. reflexivity.
Defined.

(** ** Rules for the two loops of the drain *)

(** What every matching round of the [for] loop keeps, the loop keeps. *)
Lemma for_zip_rule (Q : t -> Prop) :
  (forall r i item,
      Q r ->
      nth_error (buffer_seq r) i = Some (next r) ->
      nth_error (buffer r) i = Some item ->
      Q (deliver (next r) item r)) ->
  forall fuel i r, Q r -> Q (for_zip fuel i r).
Proof.
  intros Hstep. induction fuel as [|fuel IH]; intros i r HQ; [exact HQ|].
  cbn [for_zip].
  destruct (nth_error (buffer_seq r) i) as [itemSeq|] eqn:Eseq; [|exact HQ].
  destruct (nth_error (buffer r) i) as [item|] eqn:Ebuf; [|exact HQ].
  destruct (itemSeq =? next r) eqn:E; [|apply IH; exact HQ].
  apply Z.eqb_eq in E. subst itemSeq. apply IH. eapply Hstep; eauto.
Qed.

(** And so does the [while] loop, which ends with [buffer_size <= 0] or
    [next] not buffered. *)
Lemma drain_rule (Q : t -> Prop) :
  (forall r i item,
      Q r ->
      nth_error (buffer_seq r) i = Some (next r) ->
      nth_error (buffer r) i = Some item ->
      Q (deliver (next r) item r)) ->
  forall fuel r r',
    Q r -> drain fuel r = Some r' ->
    Q r' /\ ((buffer_size r' >? 0) && mem (next r') (buffer_seq r') = false).
Proof.
  intros Hstep. induction fuel as [|fuel IH]; intros r r' HQ; [discriminate|].
  cbn [drain].
  destruct ((buffer_size r >? 0) && mem (next r) (buffer_seq r)) eqn:E.
  - apply IH. now apply for_zip_rule.
  - intros [= <-]. split; assumption.
Qed.

(** ** The output file and the end of the stream *)

Lemma out_of_order_frame (num : Z) (payload : payload) (r : t) :
  out_file (out_of_order num payload r) = out_file r
  /\ next (out_of_order num payload r) = next r
  /\ end_receiver (out_of_order num payload r) = end_receiver r
  /\ end_num (out_of_order num payload r) = end_num r
  /\ n_bits (out_of_order num payload r) = n_bits r
  /\ win (out_of_order num payload r) = win r.
Proof.
  unfold out_of_order. cbv zeta.
  destruct (_ && _); [destruct (negb _)|]; repeat split.
Qed.

Lemma in_order_rule (Q : t -> Prop) (payload : payload) (r r' : t) :
  (forall r i item,
      Q r ->
      nth_error (buffer_seq r) i = Some (next r) ->
      nth_error (buffer r) i = Some item ->
      Q (deliver (next r) item r)) ->
  Q (set_next ((next r + 1) mod 2 ^ n_bits r) (write payload r)) ->
  in_order payload r = Some r' ->
  Q r' /\ ((buffer_size r' >? 0) && mem (next r') (buffer_seq r') = false).
Proof.
  intros Hstep HQ. unfold in_order. cbv zeta. apply drain_rule; assumption.
Qed.

(** X12.  DATA_IN only ever appends to the output: the writes so far stay
    a prefix.  A lost segment, a segment of type ACK and an out-of-order
    segment append nothing; an in-order DATA segment appends its own
    payload first. *)
Theorem DATA_IN_appends (seg : segment) (data_lost ack_lost : bool)
  (r r' : t) (g : goto) (sent : list segment) :
  DATA_IN seg data_lost ack_lost r = Some (g, r', sent) ->
  exists written,
    out_file r' = out_file r ++ written
    /\ (data_lost = true \/ GBN.type (fst seg) <> 0
        \/ GBN.num (fst seg) <> next r -> written = [])
    /\ (data_lost = false -> GBN.type (fst seg) = 0 ->
        GBN.num (fst seg) = next r ->
        exists rest, written = snd seg :: rest).
Proof.
  unfold DATA_IN. cbv zeta.
  destruct data_lost.
  { intros [= _ <- _]. exists []. rewrite app_nil_r.
    split; [reflexivity|]. split; [reflexivity | discriminate]. }
  destruct (GBN.type (fst seg) =? 0) eqn:Ety.
  2:{ intros [= _ <- _]. exists []. rewrite app_nil_r. apply Z.eqb_neq in Ety.
      split; [reflexivity|]. split; [reflexivity | contradiction]. }
  apply Z.eqb_eq in Ety.
  set (r1 := if plen (snd seg) <? p_size r
             then set_end true ((GBN.num (fst seg) + 1) mod 2 ^ n_bits r) r
             else r).
  assert (Hout1 : out_file r1 = out_file r)
    by (unfold r1; destruct (_ <? _); reflexivity).
  assert (Hnext1 : next r1 = next r)
    by (unfold r1; destruct (_ <? _); reflexivity).
  rewrite Hnext1.
  destruct (GBN.num (fst seg) =? next r) eqn:Enum.
  - apply Z.eqb_eq in Enum.
    destruct (in_order (snd seg) r1) as [r2|] eqn:Eio; [|discriminate].
    intros H.
    assert (Hr2 : r2 = r') by (destruct ack_lost; congruence). subst r2.
    destruct (in_order_rule
                (fun x => exists rest,
                     out_file x = out_file r ++ snd seg :: rest)
                (snd seg) r1 r') as [[rest Hrest] _]; [| |exact Eio|].
    + intros x i item [rest0 Hx] _ _. exists (rest0 ++ [item]).
      unfold deliver. cbv zeta.
      destruct (mem _ _); cbn; rewrite Hx, <- app_assoc; reflexivity.
    + exists []. cbn. now rewrite Hout1.
    + exists (snd seg :: rest). split; [exact Hrest|].
      split; [intros [Hc|[Hc|Hc]]; [discriminate | contradiction | contradiction]|].
      intros _ _ _. eauto.
  - apply Z.eqb_neq in Enum. intros H.
    assert (Hr' : r' = out_of_order (GBN.num (fst seg)) (snd seg) r1)
      by (destruct ack_lost; congruence).
    exists []. rewrite app_nil_r. split; [|split; [reflexivity | contradiction]].
    rewrite Hr', <- Hout1. apply (out_of_order_frame _ _ r1).
Qed.

Lemma DATA_IN_appends_witness :
  DATA_IN (data_segment 0 1 (chunk "b")) false false gap_state
  = Some (WAIT_SEGMENT,
          mk 4 3 64 3 false (-1) [] [] 0 [chunk "a"; chunk "b"; chunk "c"],
          [(GBN.ack 3 4, [])])
  /\ exists written,
       [chunk "a"; chunk "b"; chunk "c"] = out_file gap_state ++ written
       /\ exists rest, written = chunk "b" :: rest.
Proof.
  assert (E : DATA_IN (data_segment 0 1 (chunk "b")) false false gap_state
              = Some (WAIT_SEGMENT,
                      mk 4 3 64 3 false (-1) [] [] 0
                         [chunk "a"; chunk "b"; chunk "c"],
                      [(GBN.ack 3 4, [])]))
    by (vm_compute; reflexivity).
  split; [exact E|].
  destruct (DATA_IN_appends _ _ _ _ _ _ _ E) as [written [Hout [_ Hfirst]]].
  exists written. split; [exact Hout | apply Hfirst; reflexivity].
Defined.

Lemma deliver_frame (itemSeq : Z) (item : payload) (r : t) :
  end_receiver (deliver itemSeq item r) = end_receiver r
  /\ end_num (deliver itemSeq item r) = end_num r
  /\ n_bits (deliver itemSeq item r) = n_bits r
  /\ win (deliver itemSeq item r) = win r
  /\ p_size (deliver itemSeq item r) = p_size r.
Proof.
  unfold deliver. cbv zeta. destruct (mem _ _); repeat split.
Qed.

(** X13.  While no short segment has been seen ([end_receiver] false), a
    segment whose payload is not shorter than [p_size] never ends the
    receiver and records no end: whatever its type and number and whether
    or not it or its ACK is lost, DATA_IN goes back to WAIT_SEGMENT with
    [end_receiver] still false.  A stream without a short last segment
    therefore never ends the receiver. *)
Theorem full_segment_never_ends (seg : segment) (data_lost ack_lost : bool)
  (r r' : t) (g : goto) (sent : list segment) :
  end_receiver r = false ->
  full r (snd seg) ->
  DATA_IN seg data_lost ack_lost r = Some (g, r', sent) ->
  g = WAIT_SEGMENT /\ end_receiver r' = false.
Proof.
  intros Hend Hfull. unfold full in Hfull. unfold DATA_IN. cbv zeta.
  destruct data_lost; [intros [= <- <- _]; tauto|].
  destruct (GBN.type (fst seg) =? 0); [|intros [= <- <- _]; tauto].
  replace (plen (snd seg) <? p_size r) with false
    by (symmetry; apply Z.ltb_ge; exact Hfull).
  assert (Hr2 : forall r2,
             (if GBN.num (fst seg) =? next r
              then in_order (snd seg) r
              else Some (out_of_order (GBN.num (fst seg)) (snd seg) r))
             = Some r2 ->
             end_receiver r2 = false).
  { intros r2. destruct (_ =? _).
    - intros Hio.
      apply (in_order_rule (fun x => end_receiver x = false)
               (snd seg) r r2); [| exact Hend | exact Hio].
      intros x i item Hx _ _.
      now rewrite (proj1 (deliver_frame (next x) item x)).
    - intros [= <-].
      destruct (out_of_order_frame (GBN.num (fst seg)) (snd seg) r)
        as [_ [_ [He _]]]. congruence. }
  destruct (if GBN.num (fst seg) =? next r then _ else _) as [r2|];
    [|discriminate].
  specialize (Hr2 r2 eq_refl).
  destruct ack_lost; [intros [= <- <- _]; tauto|].
  rewrite Hr2. cbn [andb]. intros [= <- <- _]. tauto.
Qed.

Lemma full_segment_never_ends_witness :
  DATA_IN (data_segment 0 1 (chunk "b")) false false gap_state
  = Some (WAIT_SEGMENT,
          mk 4 3 64 3 false (-1) [] [] 0 [chunk "a"; chunk "b"; chunk "c"],
          [(GBN.ack 3 4, [])])
  /\ end_receiver
       (mk 4 3 64 3 false (-1) [] [] 0 [chunk "a"; chunk "b"; chunk "c"])
     = false.
Proof.
  assert (E : DATA_IN (data_segment 0 1 (chunk "b")) false false gap_state
              = Some (WAIT_SEGMENT,
                      mk 4 3 64 3 false (-1) [] [] 0
                         [chunk "a"; chunk "b"; chunk "c"],
                      [(GBN.ack 3 4, [])]))
    by (vm_compute; reflexivity).
  split; [exact E|].
  assert (Hfull : full gap_state (snd (data_segment 0 1 (chunk "b"))))
    by (vm_compute; discriminate).
  assert (Hend : end_receiver gap_state = false) by reflexivity.
  exact (proj2 (full_segment_never_ends _ _ _ gap_state _ _ _ Hend Hfull E)).
Defined.

(** ** The acknowledgement *)

Lemma sack_header_fields (r : t) :
  let h := sack_header r in
  GBN.type h = 1 /\ GBN.options h = 1 /\ GBN.len h = 0
  /\ GBN.num h = next r /\ GBN.win h = win r
  /\ 0 <= GBN.blen h <= 3 /\ GBN.hlen h = 6 + 3 * GBN.blen h.
Proof.
  cbv zeta. unfold sack_header. cbv zeta.
  destruct (Nat.eqb _ 2); [cbn; lia|].
  destruct (Nat.eqb _ 4); [cbn; lia|].
  destruct (Nat.leb 6 _); cbn; lia.
Qed.

(** X14.  DATA_IN sends at most one segment, and none for a lost segment,
    a segment of type ACK or a lost ACK.  What it sends is an ACK without
    payload whose number is [next] as the handler leaves it and whose
    window is the receiver's; its [options] are 0 when the DATA segment
    had [options] 0 and 1 otherwise; it carries 0 to 3 blocks, none when
    [options] is 0, and its [hlen] is [6 + 3 * blen], which is the number
    of bytes the layout gives a header with that [hlen]. *)
Theorem DATA_IN_acknowledges (seg : segment) (data_lost ack_lost : bool)
  (r r' : t) (g : goto) (sent : list segment) :
  DATA_IN seg data_lost ack_lost r = Some (g, r', sent) ->
  (sent = []
   \/ exists h, sent = [(h, [])]
        /\ data_lost = false /\ ack_lost = false /\ GBN.type (fst seg) = 0
        /\ GBN.type h = 1 /\ GBN.len h = 0
        /\ GBN.num h = next r' /\ GBN.win h = win r'
        /\ GBN.options h = (if GBN.options (fst seg) =? 0 then 0 else 1)
        /\ 0 <= GBN.blen h <= 3
        /\ (GBN.options (fst seg) = 0 -> GBN.blen h = 0)
        /\ GBN.hlen h = 6 + 3 * GBN.blen h
        /\ Layout.header_bits (GBN.hlen h) = 8 * GBN.hlen h)
  /\ (data_lost = true \/ ack_lost = true \/ GBN.type (fst seg) <> 0 ->
      sent = []).
Proof.
  unfold DATA_IN. cbv zeta.
  destruct data_lost; [intros [= _ _ <-]; tauto|].
  destruct (GBN.type (fst seg) =? 0) eqn:Ety;
    [|intros [= _ _ <-]; tauto].
  apply Z.eqb_eq in Ety.
  destruct (if GBN.num (fst seg) =? next _ then _ else _) as [r2|];
    [|discriminate].
  destruct ack_lost; [intros [= _ _ <-]; tauto|].
  intros [= _ <- <-]. split.
  - right. exists (ack_header (fst seg) r2).
    split; [reflexivity|]. repeat (split; [reflexivity|]).
    unfold ack_header.
    destruct (GBN.options (fst seg) =? 0) eqn:Eo.
    + cbn. repeat split; try lia.
    + destruct (sack_header_fields r2) as [H1 [H2 [H3 [H4 [H5 [H6 H7]]]]]].
      apply Z.eqb_neq in Eo.
      repeat split; try assumption; try lia; try contradiction.
      rewrite H7. apply LayoutFacts.header_bits_in_range. lia.
  - intros [H|[H|H]]; [discriminate | discriminate | contradiction].
Qed.

Lemma DATA_IN_acknowledges_witness :
  DATA_IN (data_segment 1 2 (chunk "2")) false false wrap_gap_state
  = Some (WAIT_SEGMENT,
          buffered_with 2 (chunk "2") wrap_gap_state,
          [(GBN.sack 9 6 6 1 7 4 0 0 0 0, [])])
  /\ GBN.hlen (GBN.sack 9 6 6 1 7 4 0 0 0 0)
     = 6 + 3 * GBN.blen (GBN.sack 9 6 6 1 7 4 0 0 0 0).
Proof.
  assert (E : DATA_IN (data_segment 1 2 (chunk "2")) false false wrap_gap_state
              = Some (WAIT_SEGMENT,
                      buffered_with 2 (chunk "2") wrap_gap_state,
                      [(GBN.sack 9 6 6 1 7 4 0 0 0 0, [])]))
    by (vm_compute; reflexivity).
  split; [exact E|].
  destruct (proj1 (DATA_IN_acknowledges _ _ _ _ _ _ _ E))
    as [H|[h [Hs [_ [_ [_ [_ [_ [_ [_ [_ [_ [_ [Hh _]]]]]]]]]]]]]];
    [discriminate|].
  injection Hs as <-. exact Hh.
Defined.

(** ** Ordering the buffered numbers *)

Lemma insert_sorted_perm (x : Z) (l : list Z) :
  Permutation (insert_sorted x l) (x :: l).
Proof.
  induction l as [|y l IH]; simpl; [reflexivity|].
  destruct (x <=? y); [reflexivity|].
  rewrite IH. apply perm_swap.
Qed.

Lemma sorted_perm (l : list Z) : Permutation (sorted l) l.
Proof.
  induction l as [|x l IH]; simpl; [reflexivity|].
  rewrite insert_sorted_perm. now constructor.
Qed.

Lemma insert_sorted_Sorted (x : Z) (l : list Z) :
  Sorted Z.le l -> Sorted Z.le (insert_sorted x l).
Proof.
  induction l as [|y l IH]; simpl; intros Hs.
  - repeat constructor.
  - destruct (x <=? y) eqn:E.
    + apply Z.leb_le in E. constructor; [exact Hs | constructor; exact E].
    + apply Z.leb_gt in E. inversion Hs as [|? ? Hl Hhd]; subst.
      constructor; [apply IH; exact Hl|].
      destruct l as [|z l]; simpl.
      * constructor. lia.
      * destruct (x <=? z); constructor; [lia|].
        inversion Hhd; subst. assumption.
Qed.

Lemma sorted_Sorted (l : list Z) : Sorted Z.le (sorted l).
Proof.
  induction l as [|x l IH]; simpl; [constructor|].
  now apply insert_sorted_Sorted.
Qed.

Lemma filter_split_perm {A : Type} (f : A -> bool) (l : list A) :
  Permutation (filter f l ++ filter (fun x => negb (f x)) l) l.
Proof.
  induction l as [|x l IH]; simpl; [reflexivity|].
  destruct (f x); simpl.
  - now constructor.
  - rewrite <- Permutation_middle. now constructor.
Qed.

(** X15.  The ordered list from which the SACK blocks are cut holds
    exactly the buffered numbers, each as often as it is buffered: the
    split at half the sequence space and the two sorts lose and invent
    nothing.  When all buffered numbers are on one side of the half, the
    list is in ascending order. *)
Theorem sorted_buffer_seq_permutes (r : t) :
  Permutation (sorted_buffer_seq r) (buffer_seq r)
  /\ ((forall k, In k (buffer_seq r) -> 2 ^ n_bits r <= 2 * k)
      \/ (forall k, In k (buffer_seq r) -> 2 * k < 2 ^ n_bits r) ->
      Sorted Z.le (sorted_buffer_seq r)).
Proof.
  unfold sorted_buffer_seq. cbv zeta.
  set (over := filter (fun i => 2 * i >=? 2 ^ n_bits r) (buffer_seq r)).
  set (under := filter (fun i => negb (2 * i >=? 2 ^ n_bits r)) (buffer_seq r)).
  assert (HO : Permutation (sorted over) over) by apply sorted_perm.
  assert (HU : Permutation (sorted under) under) by apply sorted_perm.
  assert (Hl : Permutation (over ++ under) (buffer_seq r))
    by apply filter_split_perm.
  assert (HsO : Sorted Z.le (sorted over)) by apply sorted_Sorted.
  assert (HsU : Sorted Z.le (sorted under)) by apply sorted_Sorted.
  split.
  - apply Permutation_trans with (over ++ under); [|exact Hl].
    apply Permutation_trans with (sorted over ++ sorted under);
      [|apply Permutation_app; assumption].
    destruct (sorted over) as [|o O], (sorted under) as [|u U];
      rewrite ?app_nil_r; try reflexivity.
    destruct (_ && _); [reflexivity | apply Permutation_app_comm].
  - intros [Hall|Hall].
    + assert (Hu : under = []).
      { unfold under. apply filter_none. intros k Hk.
        apply negb_false_iff, Z.geb_le. auto. }
      rewrite Hu in *. simpl in *. destruct (sorted over); assumption.
    + assert (Ho : over = []).
      { unfold over. apply filter_none. intros k Hk.
        rewrite Z.geb_leb. apply Z.leb_gt. auto. }
      rewrite Ho in *. simpl in *. destruct (sorted under); assumption.
Qed.

(** ** The blocks *)

Lemma ranges_length (M_ : Z) (l : list Z) :
  length (ranges M_ l) = (2 * splits M_ l)%nat.
Proof.
  unfold ranges, splits. induction (combine l (tl l)) as [|ab ps IH];
    simpl; [reflexivity|].
  destruct (is_split M_ (fst ab) (snd ab)); simpl; rewrite IH; lia.
Qed.

Lemma start_end_ranges_length (M_ : Z) (l : list Z) :
  l <> [] ->
  length (start_end_ranges M_ l) = (2 + 2 * splits M_ l)%nat.
Proof.
  intros Hne. unfold start_end_ranges.
  rewrite !length_app, ranges_length, length_skipn.
  destruct l as [|x l]; [congruence|]. simpl length. lia.
Qed.

(** X16.  The SACK header reports no block when nothing is buffered, and
    otherwise one block more than there are split places in the ordered
    list, but never more than 3: further runs are left out. *)
Theorem sack_header_block_count (r : t) :
  let l := sorted_buffer_seq r in
  GBN.blen (sack_header r)
  = match l with
    | [] => 0
    | _ :: _ => Z.min 3 (Z.of_nat (S (splits (2 ^ n_bits r) l)))
    end.
Proof.
  cbv zeta. unfold sack_header. cbv zeta.
  destruct (sorted_buffer_seq r) as [|x l] eqn:E; [reflexivity|].
  rewrite start_end_ranges_length by discriminate.
  destruct (splits (2 ^ n_bits r) (x :: l)) as [|[|n]]; [reflexivity..|].
  replace (Nat.eqb (2 + 2 * S (S n)) 2) with false
    by (symmetry; apply Nat.eqb_neq; lia).
  replace (Nat.eqb (2 + 2 * S (S n)) 4) with false
    by (symmetry; apply Nat.eqb_neq; lia).
  replace (Nat.leb 6 (2 + 2 * S (S n))) with true
    by (symmetry; apply Nat.leb_le; lia).
  cbn [GBN.blen GBN.sack]. lia.
Qed.

Lemma ranges_cons2 (M_ a b : Z) (l : list Z) :
  ranges M_ (a :: b :: l)
  = (if is_split M_ a b then [a; b] else []) ++ ranges M_ (b :: l).
Proof. reflexivity. Qed.

Lemma is_split_next (M_ a : Z) :
  0 <= a < M_ -> is_split M_ a ((a + 1) mod M_) = false.
Proof.
  intros Ha. unfold is_split.
  destruct (Z.eq_dec a (M_ - 1)) as [->|Hne].
  - rewrite Z.eqb_refl, andb_false_r. reflexivity.
  - rewrite Z.mod_small by lia. now rewrite Z.eqb_refl.
Qed.

Lemma ranges_run (M_ : Z) (n : nat) :
  forall a, 0 <= a < M_ ->
    ranges M_ (SenderSpec.modular_range M_ (a, Z.of_nat n)) = [].
Proof.
  induction n as [|n IH]; intros a Ha; [reflexivity|].
  replace (Z.of_nat (S n)) with (Z.of_nat n + 1) by lia.
  rewrite SenderMore.modular_range_cons by lia.
  destruct n as [|m]; [reflexivity|].
  assert (Hb : 0 <= (a + 1) mod M_ < M_) by (apply Z.mod_pos_bound; lia).
  specialize (IH _ Hb). revert IH.
  replace (Z.of_nat (S m)) with (Z.of_nat m + 1) by lia.
  rewrite SenderMore.modular_range_cons by lia.
  intros IH. rewrite ranges_cons2, is_split_next by exact Ha. exact IH.
Qed.

Lemma start_end_ranges_run (M_ a : Z) (m : nat) :
  0 <= a < M_ ->
  start_end_ranges M_ (SenderSpec.modular_range M_ (a, Z.of_nat (S m)))
  = [a; (a + Z.of_nat m) mod M_].
Proof.
  intros Ha. unfold start_end_ranges.
  rewrite ranges_run by exact Ha.
  rewrite SenderFacts.modular_range_length.
  replace (Z.to_nat (Z.of_nat (S m)) - 1)%nat with m by lia.
  replace (Z.of_nat (S m)) with (Z.of_nat m + 1) by lia.
  rewrite SenderMore.modular_range_cons at 1 by lia. cbn [firstn app].
  rewrite SenderFacts.modular_range_snoc by lia.
  f_equal.
  rewrite skipn_app, skipn_all2, SenderFacts.modular_range_length
    by (rewrite SenderFacts.modular_range_length; lia).
  replace (m - Z.to_nat (Z.of_nat m))%nat with 0%nat by lia.
  reflexivity.
Qed.

(** X17.  When the ordered list of buffered numbers is one run [a],
    [a + 1], ... of [n] numbers modulo [2^n_bits] (with [1 <= n <
    2^n_bits]), whether or not it passes from [2^n_bits - 1] to 0, the
    SACK header carries the single block with left edge [a] and length
    [n]; and the sender's expansion of that header's blocks is the run
    again. *)
Theorem single_run_single_block (r : t) (a n : Z) :
  let M_ := 2 ^ n_bits r in
  0 <= a < M_ -> 1 <= n < M_ ->
  sorted_buffer_seq r = SenderSpec.modular_range M_ (a, n) ->
  sack_header r = GBN.sack 9 (next r) (win r) 1 a n 0 0 0 0
  /\ Sender.flat_rec_acks M_ (sack_header r)
     = SenderSpec.modular_range M_ (a, n).
Proof.
  intros M_ Ha Hn Hrun.
  assert (Hh : sack_header r = GBN.sack 9 (next r) (win r) 1 a n 0 0 0 0).
  { unfold sack_header. cbv zeta. fold M_. rewrite Hrun.
    replace n with (Z.of_nat (S (Z.to_nat (n - 1)))) by lia.
    rewrite start_end_ranges_run by exact Ha.
    cbn [length Nat.eqb nth]. f_equal.
    unfold block_len. cbv zeta.
    destruct (Z_lt_ge_dec (a + Z.of_nat (Z.to_nat (n - 1))) M_) as [Hlt|Hge].
    - rewrite Z.mod_small by lia.
      replace (_ <? 0) with false by (symmetry; apply Z.ltb_ge; lia). lia.
    - rewrite (mod_shift M_ _ (a + Z.of_nat (Z.to_nat (n - 1)) - M_) 1) by lia.
      replace (_ <? 0) with true by (symmetry; apply Z.ltb_lt; lia). lia. }
  split; [exact Hh|]. rewrite Hh.
  rewrite SenderFacts.flat_rec_acks_modular.
  - cbn. now rewrite app_nil_r.
  - cbn. intros b [<-|[]]. cbn. lia.
Qed.

Lemma single_run_single_block_witness :
  sorted_buffer_seq (buffered_with 0 (chunk "0") wrap_gap_state) = [7; 0]
  /\ sack_header (buffered_with 0 (chunk "0") wrap_gap_state)
     = GBN.sack 9 6 6 1 7 2 0 0 0 0
  /\ Sender.flat_rec_acks 8
       (sack_header (buffered_with 0 (chunk "0") wrap_gap_state))
     = [7; 0].
Proof.
  split; [reflexivity|].
  destruct (single_run_single_block
              (buffered_with 0 (chunk "0") wrap_gap_state) 7 2)
    as [Hh Hf].
  - split; vm_compute; [discriminate | reflexivity].
  - split; vm_compute; [discriminate | reflexivity].
  - reflexivity.
  - split; [exact Hh | exact Hf].
Defined.


(** ** A stream received in order *)

Lemma numbered_nil (M_ o w start : Z) : numbered M_ o w start [] = [].
Proof. reflexivity. Qed.

Lemma numbered_cons (M_ o w start : Z) (p : payload) (ps : list payload) :
  0 <= start < M_ ->
  numbered M_ o w start (p :: ps)
  = SenderTerms.data_entry o w (start, p)
    :: numbered M_ o w ((start + 1) mod M_) ps.
Proof.
  intros Hs. unfold numbered. cbn [length].
  replace (Z.of_nat (S (length ps))) with (Z.of_nat (length ps) + 1) by lia.
  rewrite SenderMore.modular_range_cons by lia. reflexivity.
Qed.

Lemma numbered_app (M_ o w : Z) (a b : list payload) :
  forall start, 0 <= start < M_ ->
    numbered M_ o w start (a ++ b)
    = numbered M_ o w start a
      ++ numbered M_ o w ((start + Z.of_nat (length a)) mod M_) b.
Proof.
  induction a as [|p a IH]; intros start Hs.
  - cbn [app length Z.of_nat]. rewrite Z.add_0_r, Z.mod_small by exact Hs.
    reflexivity.
  - cbn [app]. rewrite !numbered_cons by exact Hs.
    rewrite IH by (apply Z.mod_pos_bound; lia).
    cbn [app length]. do 3 f_equal.
    rewrite Zplus_mod_idemp_l. f_equal. lia.
Qed.

Lemma in_order_empty (p : payload) (r : t) :
  buffer_seq r = [] -> in_order p r = Some (written [p] r).
Proof.
  intros Hseq. unfold in_order, write, set_next.
  cbn [next n_bits buffer_size win p_size end_receiver end_num buffer
       buffer_seq out_file drain].
  rewrite Hseq. cbn [mem]. rewrite andb_false_r.
  unfold written. change (Z.of_nat (length [p])) with 1.
  rewrite Hseq. reflexivity.
Qed.

(** The segment numbered [next] arriving at an empty buffer: the payload
    is written, [next] advances, and a short payload ends the receiver. *)
Lemma receive_next (r : t) (o w : Z) (p : payload) :
  buffer_seq r = [] -> end_receiver r = false ->
  0 <= next r < 2 ^ n_bits r ->
  receive (SenderTerms.data_entry o w (next r, p)) (Some (WAIT_SEGMENT, r))
  = Some (if plen p <? p_size r
          then (END, written [p]
                       (set_end true ((next r + 1) mod 2 ^ n_bits r) r))
          else (WAIT_SEGMENT, written [p] r)).
Proof.
  intros Hseq Hend Hn.
  unfold receive, SenderTerms.data_entry.
  cbn [fst snd GBN.num GBN.data].
  replace (0 <=? next r) with true by (symmetry; apply Z.leb_le; lia).
  replace (next r <? 2 ^ n_bits r) with true by (symmetry; apply Z.ltb_lt; lia).
  cbn [andb]. unfold DATA_IN.
  cbn [fst snd GBN.num GBN.type GBN.data Z.eqb].
  destruct (plen p <? p_size r).
  - change (next (set_end true ((next r + 1) mod 2 ^ n_bits r) r))
      with (next r).
    rewrite Z.eqb_refl, in_order_empty by exact Hseq.
    change (Z.of_nat (length [p])) with 1.
    cbn [written end_receiver end_num next n_bits set_end andb length].
    change (Z.of_nat 1) with 1.
    rewrite Z.eqb_refl. reflexivity.
  - rewrite Z.eqb_refl, in_order_empty by exact Hseq.
    cbn [written end_receiver]. rewrite Hend. reflexivity.
Qed.

Lemma written_nil (r : t) :
  0 <= next r < 2 ^ n_bits r -> written [] r = r.
Proof.
  intros Hn. unfold written. cbn [length Z.of_nat].
  rewrite Z.add_0_r, Z.mod_small, app_nil_r by exact Hn.
  destruct r; reflexivity.
Qed.

Lemma written_cons (p : payload) (ps : list payload) (r : t) :
  written ps (written [p] r) = written (p :: ps) r.
Proof.
  unfold written.
  cbn [next n_bits buffer_size win p_size end_receiver end_num buffer
       buffer_seq out_file length].
  rewrite Zplus_mod_idemp_l, <- app_assoc. cbn [app].
  do 2 f_equal. lia.
Qed.

(** Full payloads numbered from [next] on, arriving at an empty buffer,
    are all written and leave the receiver waiting. *)
Lemma run_written (o w : Z) (ps : list payload) :
  forall (r : t) (rest : list segment),
    buffer_seq r = [] -> end_receiver r = false ->
    0 <= next r < 2 ^ n_bits r ->
    Forall (full r) ps ->
    run_segments (numbered (2 ^ n_bits r) o w (next r) ps ++ rest)
                 (WAIT_SEGMENT, r)
    = run_segments rest (WAIT_SEGMENT, written ps r).
Proof.
  induction ps as [|p ps IH]; intros r rest Hseq Hend Hn Hfull.
  - rewrite written_nil by exact Hn. reflexivity.
  - rewrite numbered_cons by exact Hn. inversion_clear Hfull as [|? ? Hp Hps].
    unfold run_segments. cbn [app fold_left].
    rewrite receive_next by assumption.
    replace (plen p <? p_size r) with false
      by (symmetry; apply Z.ltb_ge; exact Hp).
    rewrite <- (written_cons p ps r).
    apply (IH (written [p] r) rest); try assumption.
    cbn [written next n_bits length Z.of_nat].
    apply Z.mod_pos_bound. lia.
Qed.

(** The chunks of a file arriving in order at a receiver just started. *)
Lemma chunks_received (bits window o w : Z) (file_in : list byte) :
  0 <= bits ->
  let chunks := Driver.payload_to_send_bin file_in in
  exists r : t,
    run_segments (numbered (2 ^ bits) o w 0 chunks)
                 (Driver.GBN_receiver bits window)
    = Some (if (length file_in mod Driver.chunk_size =? 0)%nat
            then WAIT_SEGMENT else END, r)
    /\ file_bytes r = file_in
    /\ out_file r = chunks
    /\ next r = Z.of_nat (length chunks) mod 2 ^ bits
    /\ buffer r = [] /\ buffer_seq r = [].
Proof.
  intros Hbits chunks.
  assert (HM : 0 < 2 ^ bits) by (apply Z.pow_pos_nonneg; lia).
  destruct (DriverFacts.chunks_shape file_in) as [Hcat [Hfull Hshort]].
  fold chunks in Hcat, Hfull, Hshort.
  set (r0 := parse_args bits window (Z.of_nat Driver.chunk_size)).
  change (Driver.GBN_receiver bits window) with (WAIT_SEGMENT, r0).
  assert (Hn0 : 0 <= next r0 < 2 ^ n_bits r0) by (cbn; lia).
  destruct (Nat.eqb_spec (length file_in mod Driver.chunk_size) 0)
    as [H0|Hne].
  - exists (written chunks r0).
    split; [|split; [exact Hcat|]].
    + rewrite <- (app_nil_r (numbered _ _ _ _ _)).
      apply (run_written o w chunks r0 []); try reflexivity; [exact Hn0|].
      eapply Forall_impl; [|exact (Hfull H0)].
      intros c Hc. unfold full, plen. rewrite Hc. cbn. lia.
    + repeat split; reflexivity.
  - destruct (Hshort Hne) as [fl [last [Hcs [Hf [_ Hl]]]]].
    set (r1 := written fl r0).
    exists (written [last]
              (set_end true ((next r1 + 1) mod 2 ^ n_bits r1) r1)).
    split; [|split; [|split; [|split]]].
    + rewrite Hcs, numbered_app by exact Hn0.
      rewrite (run_written o w fl r0); try reflexivity; [|exact Hn0|].
      * change ((0 + Z.of_nat (length fl)) mod 2 ^ bits) with (next r1).
        rewrite numbered_cons by (apply Z.mod_pos_bound; exact HM).
        rewrite numbered_nil. unfold run_segments. cbn [fold_left].
        rewrite receive_next; try reflexivity;
          [|apply Z.mod_pos_bound; exact HM].
        fold r1. replace (plen last <? p_size r1) with true; [reflexivity|].
        symmetry. apply Z.ltb_lt.
        change (p_size r1) with (Z.of_nat Driver.chunk_size).
        unfold plen. lia.
      * eapply Forall_impl; [|exact Hf].
        intros c Hc. unfold full, plen. rewrite Hc. cbn. lia.
    + unfold file_bytes. cbn [written out_file set_end r1 r0 parse_args app].
      rewrite <- Hcs. exact Hcat.
    + cbn [written out_file set_end r1 r0 parse_args app]. now rewrite Hcs.
    + cbn [written next n_bits set_end r1 r0 parse_args length Z.of_nat].
      rewrite Zplus_mod_idemp_l, Hcs, length_app. cbn [length].
      f_equal. lia.
    + split; reflexivity.
Qed.

(** X18.  For a receiver started with arguments that pass and a window
    that fits the ACK header (0 to 255, at most 8 bits): the chunks of a
    file, numbered from 0 as SEND numbers them and arriving in order with
    none lost, are written one after the other; the output file then
    holds exactly the bytes of the input file and nothing is buffered.
    The receiver ends with the last chunk when the length of the file is
    not a multiple of 64; when it is (an empty file included) no chunk is
    short and the receiver is left waiting. *)
Theorem in_order_stream_copies_file
  (bits window o w : Z) (file_in : list byte) :
  valid_args bits window -> ack_fits bits window ->
  let chunks := Driver.payload_to_send_bin file_in in
  exists r : t,
    run_segments (numbered (2 ^ bits) o w 0 chunks)
                 (Driver.GBN_receiver bits window)
    = Some (if (length file_in mod Driver.chunk_size =? 0)%nat
            then WAIT_SEGMENT else END, r)
    /\ file_bytes r = file_in
    /\ out_file r = chunks
    /\ next r = Z.of_nat (length chunks) mod 2 ^ bits
    /\ buffer r = [] /\ buffer_seq r = [].
Proof.
  intros [Hbits _] _. apply chunks_received. lia.
Qed.

Lemma in_order_stream_copies_file_witness :
  exists r : t,
    run_segments
      (numbered (2 ^ 1) 0 4 0
         (Driver.payload_to_send_bin (repeat "a"%byte 130)))
      (Driver.GBN_receiver 1 2)
    = Some (END, r)
    /\ file_bytes r = repeat "a"%byte 130
    /\ next r = 1.
Proof.
  destruct (in_order_stream_copies_file 1 2 0 4 (repeat "a"%byte 130))
    as [r [Hrun [Hfile [_ [Hnext _]]]]].
  - unfold valid_args. split; [lia | vm_compute; discriminate].
  - unfold ack_fits. lia.
  - exists r. split; [exact Hrun|]. split; [exact Hfile|]. exact Hnext.
Defined.


(** ** The drain when the buffered payloads are distinct *)

Lemma payload_eqb_eq (p q : payload) : payload_eqb p q = true -> p = q.
Proof.
  revert q. induction p as [|a p IH]; intros [|b q] H; simpl in H;
    try discriminate; [reflexivity|].
  apply andb_true_iff in H. destruct H as [Hab Hpq].
  f_equal; [apply Byte.byte_dec_bl; exact Hab | apply IH; exact Hpq].
Qed.

Lemma remove_first_sub {A : Type} (eqb : A -> A -> bool) (x k : A)
  (l : list A) :
  In k (remove_first eqb x l) -> In k l.
Proof.
  induction l as [|y l IH]; simpl; [tauto|].
  destruct (eqb x y); simpl; tauto.
Qed.

Lemma remove_first_NoDup_any {A : Type} (eqb : A -> A -> bool) (x : A)
  (l : list A) :
  NoDup l -> NoDup (remove_first eqb x l).
Proof.
  induction l as [|y l IH]; simpl; intros H; [constructor|].
  inversion H as [|? ? Hy Hl]; subst.
  destruct (eqb x y); [exact Hl|].
  constructor; [|auto]. intros Hin. apply remove_first_sub in Hin. tauto.
Qed.

Lemma keys_combine (a : list Z) :
  forall b : list payload,
    length b = length a -> Dict.keys (combine a b) = a.
Proof.
  unfold Dict.keys.
  induction a as [|x a IH]; intros [|y b] H; simpl in *;
    try discriminate; [reflexivity|].
  f_equal. apply IH. lia.
Qed.

Lemma In_get (d : Dict.t) (k : Z) (p : payload) :
  NoDup (Dict.keys d) -> In (k, p) d -> Dict.get k d = Some p.
Proof.
  unfold Dict.keys.
  induction d as [|[k' v] d IH]; simpl; [tauto|]. intros Hnd [H|H].
  - injection H as -> ->. now rewrite Z.eqb_refl.
  - inversion Hnd as [|? ? Hk Hd]; subst. destruct (k =? k') eqn:E.
    + apply Z.eqb_eq in E. subst. exfalso. apply Hk.
      change k' with (fst (k', p)). apply in_map. exact H.
    + auto.
Qed.

Lemma pop_combine_fresh (x : Z) (a : list Z) :
  forall b : list payload,
    ~ In x a -> Dict.pop x (combine a b) = combine a b.
Proof.
  unfold Dict.pop.
  induction a as [|y a IH]; intros [|p b] H; simpl; try reflexivity.
  destruct (y =? x) eqn:E.
  - apply Z.eqb_eq in E. subst. exfalso. apply H. now left.
  - simpl. f_equal. apply IH. intros Hin. apply H. now right.
Qed.

(** With no number and no payload repeated, removing the number and the
    payload found at one position removes one entry. *)
Lemma remove_first_combine (a : list Z) :
  forall (b : list payload) (i : nat) (x : Z) (y : payload),
    NoDup a -> NoDup b ->
    nth_error a i = Some x -> nth_error b i = Some y ->
    combine (remove_first Z.eqb x a) (remove_first payload_eqb y b)
    = Dict.pop x (combine a b).
Proof.
  induction a as [|a0 a IH]; intros [|b0 b] [|i] x y Ha Hb Hx Hy;
    simpl in Hx, Hy; try discriminate.
  - injection Hx as ->. injection Hy as ->.
    inversion Ha as [|? ? Ha0 Ha']; subst.
    cbn [remove_first]. rewrite Z.eqb_refl, payload_eqb_refl.
    unfold Dict.pop. cbn [combine filter fst]. rewrite Z.eqb_refl.
    cbn [negb]. symmetry. apply (pop_combine_fresh x a b Ha0).
  - inversion Ha as [|? ? Ha0 Ha']; inversion Hb as [|? ? Hb0 Hb']; subst.
    assert (Hxa : x <> a0)
      by (intros ->; apply Ha0; eapply nth_error_In; eauto).
    assert (Hyb : y <> b0)
      by (intros ->; apply Hb0; eapply nth_error_In; eauto).
    cbn [remove_first].
    destruct (x =? a0) eqn:Ex; [apply Z.eqb_eq in Ex; contradiction|].
    destruct (payload_eqb y b0) eqn:Ey;
      [apply payload_eqb_eq in Ey; contradiction|].
    unfold Dict.pop. cbn [combine filter fst].
    rewrite Z.eqb_sym, Ex. cbn [negb]. f_equal.
    apply (IH b i x y); assumption.
Qed.

Lemma mem_app (k : Z) (a b : list Z) :
  mem k (a ++ b) = mem k a || mem k b.
Proof.
  induction a as [|x a IH]; simpl; [reflexivity|].
  now rewrite IH, orb_assoc.
Qed.

Lemma pop_filter_run (x : Z) (run : list Z) (d : Dict.t) :
  Dict.pop x (filter (fun kp => negb (mem (fst kp) run)) d)
  = filter (fun kp => negb (mem (fst kp) (run ++ [x]))) d.
Proof.
  unfold Dict.pop.
  induction d as [|[k v] d IH]; [reflexivity|].
  cbn [filter fst]. rewrite mem_app. cbn [mem]. rewrite orb_false_r.
  destruct (mem k run); cbn [negb orb filter fst]; [exact IH|].
  destruct (k =? x); cbn [negb]; [exact IH | now rewrite IH].
Qed.

Lemma modular_range_mono (M_ lo n n' k : Z) :
  n <= n' ->
  In k (SenderSpec.modular_range M_ (lo, n)) ->
  In k (SenderSpec.modular_range M_ (lo, n')).
Proof.
  intros Hn. unfold SenderSpec.modular_range. cbn [fst snd].
  rewrite !in_map_iff. intros [i [Hi Hin]]. exists i. split; [exact Hi|].
  apply In_py_range. apply In_py_range in Hin. lia.
Qed.

(** One matching round of the [for] loop extends the delivered run by
    [next]. *)
Lemma deliver_drained (d0 : Dict.t) (o0 : list payload) (start : Z)
  (j : nat) (x : t) (i : nat) (item : payload) :
  NoDup (Dict.keys d0) ->
  buffered 1 x -> NoDup (buffer x) ->
  drained d0 o0 start j x ->
  nth_error (buffer_seq x) i = Some (next x) ->
  nth_error (buffer x) i = Some item ->
  drained d0 o0 start (S j) (deliver (next x) item x)
  /\ NoDup (buffer (deliver (next x) item x)).
Proof.
  intros Hd0 [Hnext Hal Hsz Hnd Hwin] Hndb [Hrun [Hout [Hnx Has]]] Hseq Hbuf.
  assert (Hin : In (next x) (buffer_seq x)) by (eapply nth_error_In; eauto).
  assert (Hpair : In (next x, item) (assoc x)).
  { unfold assoc. apply (nth_error_In _ i).
    clear -Hseq Hbuf. revert i Hseq Hbuf.
    generalize (buffer_seq x) (buffer x).
    induction l as [|a l IH]; intros [|b l0] [|i] Hs Hb; simpl in *;
      try discriminate.
    - congruence.
    - apply IH; assumption. }
  assert (Hpair0 : In (next x, item) d0).
  { rewrite Has in Hpair. apply filter_In in Hpair. tauto. }
  assert (Hitem : item = SenderSpec.payload_at d0 (next x)).
  { unfold SenderSpec.payload_at. now rewrite (In_get d0 _ _ Hd0 Hpair0). }
  assert (HM : 0 < 2 ^ n_bits x) by lia.
  unfold drained, deliver.
  cbn [write set_buffer_size set_buffer set_buffer_seq set_next
       buffer buffer_seq buffer_size next n_bits win out_file].
  rewrite (proj2 (mem_In _ _) Hin).
  cbn [write set_buffer_size set_buffer set_buffer_seq set_next
       buffer buffer_seq buffer_size next n_bits win out_file assoc].
  replace (Z.of_nat (S j)) with (Z.of_nat j + 1) by lia.
  rewrite SenderFacts.modular_range_snoc by lia.
  rewrite <- Hnx.
  split; [split; [|split; [|split]]|].
  - intros k Hk. apply in_app_or in Hk. destruct Hk as [Hk|[<-|[]]].
    + apply Hrun. exact Hk.
    + change (next x) with (fst (next x, item)). apply in_map. exact Hpair0.
  - rewrite Hout, map_app, <- app_assoc. cbn [map]. now rewrite <- Hitem.
  - rewrite Hnx, Zplus_mod_idemp_l. f_equal. lia.
  - unfold assoc at 1.
    cbn [set_next set_buffer_seq set_buffer buffer buffer_seq].
    rewrite (remove_first_combine _ _ i) by assumption.
    fold (assoc x). rewrite Has. apply pop_filter_run.
  - apply remove_first_NoDup_any. exact Hndb.
Qed.

(** X19.  When no two buffered payloads are equal, the in-order branch
    does what it is meant to do.  It returns; after the arriving payload
    it writes the payloads buffered under the numbers that follow it, in
    the order of the numbers, up to the first number that was not
    buffered; exactly these entries leave the two lists, which stay
    aligned; and [next] ends on that first missing number. *)
Theorem in_order_delivers_buffered_run (payload : payload) (r : t) :
  buffered 0 r -> NoDup (buffer r) ->
  exists (j : nat) (r' : t),
    let M_ := 2 ^ n_bits r in
    let run := SenderSpec.modular_range M_ ((next r + 1) mod M_, Z.of_nat j) in
    in_order payload r = Some r'
    /\ (forall k, In k run -> In k (buffer_seq r))
    /\ out_file r'
       = out_file r ++ payload :: map (SenderSpec.payload_at (assoc r)) run
    /\ next r' = (next r + 1 + Z.of_nat j) mod M_
    /\ assoc r' = filter (fun kp => negb (mem (fst kp) run)) (assoc r)
    /\ length (buffer r') = length (buffer_seq r')
    /\ ~ In (next r') (buffer_seq r).
Proof.
  intros Hb Hndb.
  destruct (in_order_buffered payload r Hb) as [r' [Hio [Hb' [Hn' _]]]].
  pose proof Hb as [Hnext Hal Hsz Hnd Hwin].
  assert (HM : 0 < 2 ^ n_bits r) by lia.
  set (start := (next r + 1) mod 2 ^ n_bits r).
  set (Q := fun x : t =>
              buffered 1 x /\ NoDup (buffer x) /\ n_bits x = n_bits r
              /\ exists j, drained (assoc r) (out_file r ++ [payload])
                             start j x).
  assert (Hkeys : Dict.keys (assoc r) = buffer_seq r)
    by (apply keys_combine; exact Hal).
  destruct (in_order_rule Q payload r r') as [[_ [_ [_ [j HQ]]]] _];
    [| |exact Hio|].
  - intros x i item [Hbx [Hndx [Hnx [j0 Hdr]]]] Hseq Hbuf.
    destruct (deliver_drained (assoc r) (out_file r ++ [payload]) start
                j0 x i item) as [Hdr' Hnd']; try assumption.
    { rewrite Hkeys. exact Hnd. }
    split; [eapply deliver_buffered; eauto|].
    split; [exact Hnd'|].
    split; [rewrite (proj1 (proj2 (proj2 (deliver_frame _ _ _)))); exact Hnx|].
    exists (S j0). exact Hdr'.
  - unfold Q. split; [|split; [exact Hndb|split; [reflexivity|]]].
    + constructor; cbn; auto.
      * apply Z.mod_pos_bound. exact HM.
      * intros k Hk. destruct (Hwin k Hk) as [Hkr Hd]. split; [exact Hkr|].
        rewrite dist_pred by lia. lia.
    + exists 0%nat. unfold drained.
      cbn [write set_next next n_bits out_file assoc buffer buffer_seq
           Z.of_nat].
      rewrite SenderMore.modular_range_nil. cbn [map mem negb].
      rewrite app_nil_r, Z.add_0_r.
      split; [intros k []|]. split; [reflexivity|].
      split; [unfold start; now rewrite Z.mod_mod by lia|].
      symmetry. apply filter_all. reflexivity.
  - destruct HQ as [Hrun [Hout [Hnx Has]]].
    rewrite Hn' in Hrun, Hout, Hnx, Has.
    exists j, r'. cbv zeta. fold start.
    split; [exact Hio|]. split; [intros k Hk; rewrite <- Hkeys; auto|].
    split; [rewrite Hout, <- app_assoc; reflexivity|].
    split; [rewrite Hnx; unfold start; rewrite Zplus_mod_idemp_l;
            reflexivity|].
    split; [exact Has|].
    destruct Hb' as [Hnext' Hal' _ _ Hwin']. split; [exact Hal'|].
    assert (Hout' : ~ In (next r') (buffer_seq r')).
    { intros Hin. destruct (Hwin' _ Hin) as [_ Hd].
      rewrite Z.sub_diag, Z.mod_0_l in Hd by lia. lia. }
    (* the run cannot go all the way round *)
    assert (Hj : Z.of_nat j < 2 ^ n_bits r).
    { destruct (Z_lt_ge_dec (Z.of_nat j) (2 ^ n_bits r)) as [Hlt|Hge];
        [exact Hlt | exfalso].
      assert (Hin : In (next r) (buffer_seq r)).
      { rewrite <- Hkeys. apply Hrun.
        apply (modular_range_mono _ _ (2 ^ n_bits r)); [lia|].
        apply SenderFacts.modular_range_In; [lia | lia |].
        split; [exact Hnext | apply Z.mod_pos_bound; lia]. }
      destruct (Hwin _ Hin) as [_ Hd].
      rewrite Z.sub_diag, Z.mod_0_l in Hd by lia. lia. }
    intros Hin. apply Hout'.
    rewrite <- Hkeys in Hin. apply in_map_iff in Hin.
    destruct Hin as [[k p] [Hk Hin]]. cbn [fst] in Hk. subst k.
    rewrite <- (keys_combine (buffer_seq r') (buffer r') Hal').
    fold (assoc r'). rewrite Has.
    change (next r') with (fst (next r', p)). apply in_map.
    apply filter_In. split; [exact Hin|]. cbn [fst].
    apply negb_true_iff, mem_false.
    rewrite SenderFacts.modular_range_In by lia.
    intros [_ Hlt]. rewrite Hnx, Zminus_mod_idemp_l in Hlt.
    replace (start + Z.of_nat j - start) with (Z.of_nat j) in Hlt by lia.
    rewrite Z.mod_small in Hlt by lia. lia.
Qed.

Lemma in_order_delivers_buffered_run_witness :
  exists (j : nat) (r' : t),
    in_order (chunk "b")
      (buffered_with 3 (chunk "d") gap_state) = Some r'
    /\ out_file r'
       = out_file gap_state
         ++ chunk "b"
            :: map (SenderSpec.payload_at
                      (assoc (buffered_with 3 (chunk "d") gap_state)))
                 (SenderSpec.modular_range 8 (2, Z.of_nat j))
    /\ next r' = (2 + Z.of_nat j) mod 8
    /\ ~ In (next r') [2; 3].
Proof.
  assert (Hb : buffered 0 (buffered_with 3 (chunk "d") gap_state)).
  { constructor; try (vm_compute; reflexivity).
    - split; vm_compute; [discriminate | reflexivity].
    - repeat constructor; cbn; intuition discriminate.
    - intros k [<-|[<-|[]]]; vm_compute; repeat split; discriminate. }
  assert (Hnd : NoDup (buffer (buffered_with 3 (chunk "d") gap_state))).
  { repeat constructor; cbn [In]; [|tauto].
    intros [H|[]]. vm_compute in H. discriminate H. }
  destruct (in_order_delivers_buffered_run (chunk "b") _ Hb Hnd)
    as [j [r' [Hio [_ [Hout [Hnx [_ [_ Hlast]]]]]]]].
  exists j, r'. split; [exact Hio|]. split; [exact Hout|].
  split; [exact Hnx | exact Hlast].
Defined.

End ReceiverMore.


(** * Sender and receiver together *)
Module Transfer.
Import PyFacts.

(** X20.  For a sender and a receiver started with arguments that pass,
    the receiver's window fitting the ACK header (0 to 255, at most 8
    bits): a file of at most [window] chunks goes out in one flight and
    arrives whole.  The sender started on it sends every chunk once, in
    order, numbered from 0, keeps each in its buffer under its number and
    empties its queue; it then waits for ACKs, and ends at once only for
    an empty file with a positive window.  The receiver fed this flight
    in order, nothing lost, writes exactly the bytes of the file, and
    ends exactly when the length of the file is not a multiple of 64. *)
Theorem first_flight_copies_file
  (bits window Q_4_2 Q_4_3 Q_4_4 receiver_window : Z) (file_in : list byte) :
  Sender.valid_args bits window Q_4_2 Q_4_3 ->
  Receiver.valid_args bits receiver_window ->
  Receiver.ack_fits bits receiver_window ->
  Z.of_nat (length (Driver.payload_to_send_bin file_in)) <= window ->
  let chunks := Driver.payload_to_send_bin file_in in
  let s0 := snd (Driver.GBN_sender bits file_in window Q_4_2 Q_4_3 Q_4_4) in
  let numbers :=
    SenderSpec.modular_range (2 ^ bits) (0, Z.of_nat (length chunks)) in
  exists (s : Sender.t) (r : Receiver.t),
    SenderTerms.SEND_rounds (S (length chunks)) s0 []
    = (if (Nat.eqb (length chunks) 0) && (0 <? window)
       then Sender.Ended else Sender.Waiting,
       s,
       ReceiverTerms.numbered (2 ^ bits) (SenderTerms.sack_bit s0) window 0
         chunks)
    /\ Sender.q s = []
    /\ Sender.buffer s = combine numbers chunks
    /\ Receiver.run_segments
         (ReceiverTerms.numbered (2 ^ bits) (SenderTerms.sack_bit s0) window 0
            chunks)
         (Driver.GBN_receiver bits receiver_window)
       = Some (if (length file_in mod Driver.chunk_size =? 0)%nat
               then Receiver.WAIT_SEGMENT else Receiver.END, r)
    /\ Receiver.file_bytes r = file_in.
Proof.
  intros [[Hbits _] [[_ Hwin] _]] _ _ Hlen chunks s0 numbers.
  fold chunks in Hlen.
  assert (HM : 0 < 2 ^ bits) by (apply Z.pow_pos_nonneg; lia).
  destruct (ReceiverMore.chunks_received bits receiver_window
              (SenderTerms.sack_bit s0) window file_in Hbits)
    as [r [Hrun [Hfile _]]].
  fold chunks in Hrun.
  pose proof (SenderMore.SEND_rounds_run (S (length chunks)) s0 []) as Hsend.
  cbv zeta in Hsend.
  change (Sender.q s0) with chunks in Hsend.
  change (Sender.n_bits s0) with bits in Hsend.
  change (Sender.win s0) with window in Hsend.
  change (Sender.current s0) with 0 in Hsend.
  change (Sender.unack s0) with 0 in Hsend.
  change (Sender.buffer s0) with (@nil (Z * payload)) in Hsend.
  assert (Hroom : SenderTerms.room s0 = Z.to_nat window).
  { unfold SenderTerms.room. change (Sender.win s0) with window.
    change (Sender.receiver_win s0) with window.
    change (Sender.buffer s0) with (@nil (Z * payload)).
    cbn [length]. f_equal. lia. }
  rewrite Hroom in Hsend.
  replace (Nat.min (length chunks) (Z.to_nat window)) with (length chunks)
    in Hsend by lia.
  rewrite firstn_all, skipn_all in Hsend. cbn [app] in Hsend.
  eexists. exists r.
  split; [|split; [|split; [|split; [exact Hrun | exact Hfile]]]].
  - rewrite Hsend; [| lia | exact Hbits | exact Hwin | lia | reflexivity].
    f_equal. f_equal.
    rewrite Z.add_0_l.
    destruct (Nat.ltb_spec (length chunks) (Z.to_nat window)) as [Hlt|Hge].
    + rewrite Z.mod_small by lia.
      destruct (length chunks) as [|n]; cbn [Nat.eqb andb].
      * replace (0 <? window) with true by (symmetry; apply Z.ltb_lt; lia).
        reflexivity.
      * reflexivity.
    + destruct (length chunks) as [|n]; cbn [Nat.eqb andb]; [|reflexivity].
      replace (0 <? window) with false by (symmetry; apply Z.ltb_ge; lia).
      reflexivity.
  - reflexivity.
  - reflexivity.
Qed.

Lemma first_flight_copies_file_witness :
  exists (s : Sender.t) (r : Receiver.t),
    SenderTerms.SEND_rounds 4
      (snd (Driver.GBN_sender 3 (repeat "a"%byte 130) 4 0 1 0)) []
    = (Sender.Waiting, s,
       [(GBN.data 1 64 0 4, repeat "a"%byte 64);
        (GBN.data 1 64 1 4, repeat "a"%byte 64);
        (GBN.data 1 2 2 4, repeat "a"%byte 2)])
    /\ Receiver.run_segments
         [(GBN.data 1 64 0 4, repeat "a"%byte 64);
          (GBN.data 1 64 1 4, repeat "a"%byte 64);
          (GBN.data 1 2 2 4, repeat "a"%byte 2)]
         (Driver.GBN_receiver 3 4)
       = Some (Receiver.END, r)
    /\ Receiver.file_bytes r = repeat "a"%byte 130.
Proof.
  destruct (first_flight_copies_file 3 4 0 1 0 4 (repeat "a"%byte 130))
    as [s [r [Hsend [_ [_ [Hrun Hfile]]]]]].
  - unfold Sender.valid_args. split; [lia|].
    split; [split; [lia | vm_compute; reflexivity]|]. intros [H _]. lia.
  - unfold Receiver.valid_args. split; [lia | vm_compute; discriminate].
  - unfold Receiver.ack_fits. lia.
  - vm_compute. intros H. discriminate H.
  - exists s, r. split; [exact Hsend|]. split; [exact Hrun | exact Hfile].
Defined.

End Transfer.
